(** * Contractor-extraction pipeline (dags/extract_contratista_etl.py)

    A shallow embedding of the text normalizer, the block isolator
    ([pre_filtro]), the phone / tax-id / representative validators, the
    per-chunk merge ([fusionar_resultados]) and the persistence step
    ([update_postgres]), followed by the properties stated about them.
    The embedding goes on with the helpers around them: [dedup],
    [dividir_en_chunks], [collect_phones_from_text], the company-name
    cleaner [limpiar_razon_social], the filters [looks_like_employer],
    [es_correo_estado] and [es_direccion_institucional], the validation of
    the merged result in [llm], the selection of the pending files
    ([filter_processed]) and the final statistics ([log_results]).

    Conventions.
    - A Python [str] is a [string]; every [ascii] is read as the Unicode
      code point of the same number (U+0000..U+00FF, i.e. Latin-1), so
      "Á" is code 193 and not a two-byte sequence.  The character classes
      below are those of Python 3 ([str.isspace], [\s], [\d], [str.lower],
      [str.isupper]) restricted to that range.  On that range [str.lower]
      keeps the length of a string; beyond it U+0130 becomes two code
      points, which matters where offsets of a lower-cased copy are used
      on the original ([pre_filtro]): there the offsets are taken as the
      engine gives them and nothing is drawn from the length of the copy.
    - [Optional[str]] is [option string]; a [dict] is a [gmap].
    - Python's [re] module is not part of the repository.  Where a call
      has a fixed, simple pattern it is transcribed into a direct
      recursive function, the pattern being quoted next to it; the fifty-four
      trigger patterns of [pre_filtro] are kept as data and the matching
      engine is an explicit argument. *)

From Stdlib Require Import ZArith Lia.
From stdpp Require Import gmap strings list fin_maps.
From Stdlib Require Import Ascii.

#[local] Set Warnings "-abstract-large-number".

(* ===================================================================== *)
(** * Part I. Definitions                                                  *)
(* ===================================================================== *)

(** ** Characters *)

Definition cp (c : ascii) : nat := nat_of_ascii c.

Definition en_rango (lo hi : nat) (c : ascii) : bool :=
  (lo <=? cp c) && (cp c <=? hi).

Definition TAB : ascii := "009"%char.
Definition LF : ascii := "010"%char.
Definition CR : ascii := "013"%char.
Definition SP : ascii := " "%char.

Definition car_eqb (a b : ascii) : bool := Ascii.eqb a b.
Arguments car_eqb : simpl never.

(** [\d] on a [str] pattern: the decimal digits; below U+0100 these are
    "0".."9" only. *)
Definition es_digito (c : ascii) : bool := en_rango 48 57 c.

(** [\s], [str.isspace], and what [str.strip()] / [str.split()] remove:
    U+0009..U+000D, U+001C..U+0020, U+0085 and U+00A0. *)
Definition es_espacio (c : ascii) : bool :=
  en_rango 9 13 c || en_rango 28 32 c || (cp c =? 133) || (cp c =? 160).

(** Upper-case letters below U+0100: A..Z, À..Ö, Ø..Þ. *)
Definition es_mayuscula (c : ascii) : bool :=
  en_rango 65 90 c || (en_rango 192 222 c && negb (cp c =? 215)).

(** [str.lower()] on one character. *)
Definition minuscula (c : ascii) : ascii :=
  if es_mayuscula c then ascii_of_nat (cp c + 32) else c.

(** ** Strings *)

Fixpoint todos (f : ascii → bool) (s : string) : bool :=
  match s with
  | EmptyString => true
  | String c r => f c && todos f r
  end.

Fixpoint alguno (f : ascii → bool) (s : string) : bool :=
  match s with
  | EmptyString => false
  | String c r => f c || alguno f r
  end.

Fixpoint filtrar (f : ascii → bool) (s : string) : string :=
  match s with
  | EmptyString => EmptyString
  | String c r => if f c then String c (filtrar f r) else filtrar f r
  end.

Fixpoint mapear (f : ascii → ascii) (s : string) : string :=
  match s with
  | EmptyString => EmptyString
  | String c r => String (f c) (mapear f r)
  end.

(** First character, if any. *)
Definition cabeza (s : string) : option ascii :=
  match s with
  | EmptyString => None
  | String c _ => Some c
  end.

(** [c != a] *)
Definition no_es (a : ascii) (c : ascii) : bool := negb (car_eqb c a).

(** [s.lower()] *)
Definition lower (s : string) : string := mapear minuscula s.

(** [s[:n]] and [s[n:]] for [n >= 0]. *)
Fixpoint tomar (n : nat) (s : string) : string :=
  match n, s with
  | S n', String c r => String c (tomar n' r)
  | _, _ => EmptyString
  end.

Fixpoint saltar (n : nat) (s : string) : string :=
  match n, s with
  | S n', String _ r => saltar n' r
  | _, _ => s
  end.

(** [s[i:j]] for [0 <= i] and [0 <= j]; empty when [j <= i]. *)
Definition rebanada (i j : nat) (s : string) : string :=
  tomar (j - i) (saltar i s).

Fixpoint lstrip (s : string) : string :=
  match s with
  | EmptyString => EmptyString
  | String c r => if es_espacio c then lstrip r else s
  end.

Fixpoint rstrip (s : string) : string :=
  match s with
  | EmptyString => EmptyString
  | String c r =>
      match rstrip r with
      | EmptyString => if es_espacio c then EmptyString else String c EmptyString
      | r' => String c r'
      end
  end.

(** [s.strip()] *)
Definition strip (s : string) : string := rstrip (lstrip s).

(** [s.replace(a, b)] for a one-character [a]. *)
Fixpoint reemplazar (a : ascii) (b : string) (s : string) : string :=
  match s with
  | EmptyString => EmptyString
  | String c r =>
      if car_eqb c a then b +:+ reemplazar a b r else String c (reemplazar a b r)
  end.

(** Does [p] occur at the start of [s]?  ([s.startswith(p)]) *)
Fixpoint empieza_con (p s : string) : bool :=
  match p, s with
  | EmptyString, _ => true
  | String a p', String c r => car_eqb a c && empieza_con p' r
  | String _ _, EmptyString => false
  end.

(** [p in s] *)
Fixpoint contiene (p s : string) : bool :=
  empieza_con p s ||
  match s with
  | EmptyString => false
  | String _ r => contiene p r
  end.

(** [sep.join(l)] *)
Fixpoint unir (sep : string) (l : list string) : string :=
  match l with
  | [] => EmptyString
  | [x] => x
  | x :: r => x +:+ sep +:+ unir sep r
  end.

(** [s.split()]: the maximal runs of non-whitespace characters.  [cur] is
    the token being read. *)
Fixpoint split_aux (cur : string) (s : string) : list string :=
  match s with
  | EmptyString => match cur with EmptyString => [] | _ => [cur] end
  | String c r =>
      if es_espacio c then
        match cur with
        | EmptyString => split_aux EmptyString r
        | _ => cur :: split_aux EmptyString r
        end
      else split_aux (cur +:+ String c EmptyString) r
  end.

Definition split (s : string) : list string := split_aux EmptyString s.

(** Truth value of an [Optional[str]]: [None] and [""] are falsy. *)
Definition verdadero (v : option string) : bool :=
  match v with
  | Some (String _ _) => true
  | _ => false
  end.

(** ** Normalizer (pre_filtro, lines 289-292; generar_candidatos_contratista,
    lines 581-584) *)

Definition es_sp_tab (c : ascii) : bool := car_eqb c SP || car_eqb c TAB.

(** [re.sub(r"[ \t]+", " ", s)]: every maximal run of blanks and tabs
    becomes one blank.  The blank is emitted at the last character of the
    run, which gives the same string because the replacement is constant. *)
Fixpoint sub_espacios (s : string) : string :=
  match s with
  | EmptyString => EmptyString
  | String c r =>
      if es_sp_tab c then
        match r with
        | String c' _ =>
            if es_sp_tab c' then sub_espacios r else String SP (sub_espacios r)
        | EmptyString => String SP EmptyString
        end
      else String c (sub_espacios r)
  end.

Definition empieza_2lf (s : string) : bool :=
  match s with
  | String a (String b _) => car_eqb a LF && car_eqb b LF
  | _ => false
  end.

(** [re.sub(r"\n{3,}", "\n\n", s)]: a maximal run of three or more line
    feeds becomes two; a line feed is dropped exactly when at least two
    more follow it, so the last two of a long run survive and runs of one
    or two are untouched. *)
Fixpoint sub_saltos (s : string) : string :=
  match s with
  | EmptyString => EmptyString
  | String c r =>
      if car_eqb c LF && empieza_2lf r then sub_saltos r
      else String c (sub_saltos r)
  end.

(** The three normalizing statements, in source order. *)
Definition normalizar (texto : string) : string :=
  let texto_norm := reemplazar TAB (String SP EmptyString)
                      (reemplazar CR EmptyString texto) in
  let texto_norm := sub_espacios texto_norm in
  sub_saltos texto_norm.

(** The transform as the specification words it: tabs and carriage returns
    both become a blank, then the two collapses. *)
Definition normalizar_spec (texto : string) : string :=
  let t := reemplazar TAB (String SP EmptyString)
             (reemplazar CR (String SP EmptyString) texto) in
  sub_saltos (sub_espacios t).

(** No two adjacent horizontal-whitespace characters. *)
Fixpoint sin_dobles (s : string) : bool :=
  match s with
  | EmptyString => true
  | String a r =>
      negb (es_sp_tab a && match r with String b _ => es_sp_tab b | _ => false end)
      && sin_dobles r
  end.

(** No three consecutive line feeds. *)
Fixpoint sin_triples (s : string) : bool :=
  match s with
  | EmptyString => true
  | String a r => negb (car_eqb a LF && empieza_2lf r) && sin_triples r
  end.

(** ** Extraction results and their merge (fusionar_resultados, lines
    1508-1539; the per-chunk loop of llm, lines 1910-1939) *)

Definition CONTRATISTA_FIELDS : list string :=
  ["razon_social"; "representante"; "ruc"; "telefono"; "mail"; "domicilio"].

(** [d.get(k)] on a [Dict[str, Optional[str]]]: a missing key and a key
    bound to [None] both read as [None]. *)
Definition dict_get (d : gmap string (option string)) (k : string) : option string :=
  match d !! k with
  | Some v => v
  | None => None
  end.

Definition es_marcador_nulo (v : option string) : bool :=
  match v with
  | Some s => bool_decide (s ∈ ["null"; "none"; ""])
  | None => false
  end.

(** [not v or v in ["null", "none", ""]] *)
Definition vacio (v : option string) : bool :=
  negb (verdadero v) || es_marcador_nulo v.

(** [v and v not in ["null", "none", ""]] *)
Definition con_valor (v : option string) : bool :=
  verdadero v && negb (es_marcador_nulo v).

(** One iteration of the loop over the six fields; [resultado] is the
    copy of [base] being updated. *)
Definition fusionar_campo (nuevo resultado : gmap string (option string))
    (campo : string) : gmap string (option string) :=
  let valor_base := dict_get resultado campo in
  let valor_nuevo := dict_get nuevo campo in
  if vacio valor_base && con_valor valor_nuevo then <[campo := valor_nuevo]> resultado
  else if con_valor valor_base then resultado
  else resultado.

Definition fusionar_resultados (base nuevo : gmap string (option string))
  : gmap string (option string) :=
  foldl (fusionar_campo nuevo) base CONTRATISTA_FIELDS.

(** The value a field has after one call of [fusionar_resultados]. *)
Definition fusion_valor (vb vn : option string) : option string :=
  if vacio vb && con_valor vn then vn else vb.

(** [resultado_final] before the first chunk: the six fields at [None]. *)
Definition resultado_inicial : gmap string (option string) :=
  list_to_map ((λ c, (c, @None string)) <$> CONTRATISTA_FIELDS).

(** The loop [for i, chunk in enumerate(chunks, 1)] of [llm], given the
    partial result of each chunk in order. *)
Definition fusionar_chunks (parciales : list (gmap string (option string)))
  : gmap string (option string) :=
  foldl fusionar_resultados resultado_inicial parciales.

(** ** Phone numbers (normalize_phone, lines 178-224) *)

(** [[/,]] *)
Definition es_separador (c : ascii) : bool := car_eqb c "/" || car_eqb c ",".

(** [re.split(r'\s*[/,]\s*', s)].  A match starts at the first character
    of the whitespace run that precedes a separator and ends after the
    whitespace run that follows it.  [cur] is the piece being read;
    [saltando] holds while the whitespace after a separator is consumed. *)
Fixpoint split_telefonos_aux (saltando : bool) (cur : string) (s : string)
  : list string :=
  match s with
  | EmptyString => [cur]
  | String c r =>
      if es_separador c then rstrip cur :: split_telefonos_aux true EmptyString r
      else if saltando && es_espacio c then split_telefonos_aux true cur r
      else split_telefonos_aux false (cur +:+ String c EmptyString) r
  end.

Definition split_telefonos (s : string) : list string :=
  split_telefonos_aux false EmptyString s.

(** Prefix test under [re.IGNORECASE]. *)
Fixpoint empieza_ci (p s : string) : bool :=
  match p, s with
  | EmptyString, _ => true
  | String a p', String c r => car_eqb (minuscula a) (minuscula c) && empieza_ci p' r
  | String _ _, EmptyString => false
  end.

Fixpoint saltar_digitos (s : string) : string :=
  match s with
  | EmptyString => EmptyString
  | String c r => if es_digito c then saltar_digitos r else s
  end.

(** [$] without [re.MULTILINE]: at the end, or before a final line feed. *)
Definition es_fin (s : string) : bool :=
  match s with
  | EmptyString => true
  | String c EmptyString => car_eqb c LF
  | _ => false
  end.

(** [\s*\d+$] matched at the start of [t]; the result is what is left
    after the match (nothing, or the final line feed). *)
Definition cola_extension (t : string) : option string :=
  let t1 := lstrip t in
  match t1 with
  | String c _ =>
      if es_digito c then
        let t2 := saltar_digitos t1 in
        if es_fin t2 then Some t2 else None
      else None
  | EmptyString => None
  end.

(** [(?:ext\.?|x)\s*\d+$] under [re.IGNORECASE], matched at the start of
    [s]: the alternatives in order, the optional dot first taken and then
    left out. *)
Definition coincide_ext (s : string) : option string :=
  let por_ext :=
    if empieza_ci "ext" s then
      let r := saltar 3 s in
      match (if empieza_con "." r then cola_extension (saltar 1 r) else None) with
      | Some resto => Some resto
      | None => cola_extension r
      end
    else None in
  match por_ext with
  | Some resto => Some resto
  | None => if empieza_ci "x" s then cola_extension (saltar 1 s) else None
  end.

(** [re.sub(r"(?:ext\.?|x)\s*\d+$", "", s, flags=re.IGNORECASE)]: the
    leftmost match is removed; nothing that can match is left after it. *)
Fixpoint sub_ext (s : string) : string :=
  match coincide_ext s with
  | Some resto => resto
  | None =>
      match s with
      | EmptyString => EmptyString
      | String c r => String c (sub_ext r)
      end
  end.

(** [re.sub(r"^\+593\s*", "0", s)] *)
Definition sub_prefijo_593 (s : string) : string :=
  if empieza_con "+593" s then String "0" (lstrip (saltar 4 s)) else s.

(** [re.sub(r"\D+", "", s)] *)
Definition solo_digitos (s : string) : string := filtrar es_digito s.

(** [re.fullmatch(r"09\d{8}", d)] *)
Definition es_celular (d : string) : bool :=
  (String.length d =? 10) && empieza_con "09" d && todos es_digito d.

(** [re.fullmatch(r"0[2-7]\d{7}", d)] *)
Definition es_fijo (d : string) : bool :=
  (String.length d =? 9) && empieza_con "0" d
  && match d with
     | String _ (String c _) => en_rango 50 55 c
     | _ => false
     end
  && todos es_digito d.

Inductive tipo_telefono := celular | fijo.

Definition es_tipo_celular (t : tipo_telefono * string) : bool :=
  match t.1 with celular => true | fijo => false end.

(** The clean-up shared by the loop body and by the final attempt on the
    whole string: extension, prefix, digits. *)
Definition digitos_telefono (phone : string) : string :=
  let phone := strip (sub_ext phone) in
  let phone := sub_prefijo_593 phone in
  solo_digitos phone.

Definition tipo_de (digits : string) : option (tipo_telefono * string) :=
  if es_celular digits then Some (celular, digits)
  else if es_fijo digits then Some (fijo, digits)
  else None.

(** Body of [for phone in phones]: what, if anything, is appended to
    [valid_phones]. *)
Definition clasificar (phone : string) : option (tipo_telefono * string) :=
  let phone := strip phone in
  match phone with
  | EmptyString => None
  | _ => tipo_de (digitos_telefono phone)
  end.

Definition normalize_phone (raw : option string) : option string :=
  if negb (verdadero raw) then None else
  let s := strip (default EmptyString raw) in
  match s with
  | EmptyString => None
  | _ =>
      let phones := split_telefonos s in
      let valid_phones := omap clasificar phones in
      match List.find es_tipo_celular valid_phones with
      | Some (_, digits) => Some digits
      | None =>
          match valid_phones with
          | (_, digits) :: _ => Some digits
          | [] =>
              let digits := digitos_telefono s in
              if es_celular digits then Some digits
              else if es_fijo digits then Some digits
              else None
          end
      end
  end.

(** The two accepted shapes, stated on the characters: "09" and eight
    digits; "0", a digit from 2 to 7, and seven digits. *)
Definition forma_celular (p : string) : Prop :=
  ∃ d, p = String "0" (String "9" d)
       ∧ String.length d = 8 ∧ todos es_digito d = true.

Definition forma_fijo (p : string) : Prop :=
  ∃ c d, p = String "0" (String c d)
         ∧ en_rango 50 55 c = true
         ∧ String.length d = 7 ∧ todos es_digito d = true.

(** Characters other than "e", "E", "x", "X": none of them can start a
    match of the extension pattern. *)
Definition no_ex (c : ascii) : bool :=
  negb (car_eqb (minuscula c) "e") && negb (car_eqb (minuscula c) "x").

Definition no_espacio (c : ascii) : bool := negb (es_espacio c).

Definition no_separador (c : ascii) : bool := negb (es_separador c).

(** ** Tax id (only_digits, line 174; the "ruc" step of llm, lines
    1995-2006) *)

(** [re.sub(r"\D+", "", value or "")] *)
Definition only_digits (value : option string) : string :=
  solo_digitos (default EmptyString value).

Fixpoint saltar_car (c : ascii) (s : string) : string :=
  match s with
  | EmptyString => EmptyString
  | String x r => if car_eqb x c then saltar_car c r else s
  end.

(** [re.match(r'^c{10,13}$', d)] for a digit [c]: between ten and thirteen
    copies of [c], then the end of the string (or a final line feed). *)
Definition coincide_repetido (c : ascii) (d : string) : bool :=
  let resto := saltar_car c d in
  let k := String.length d - String.length resto in
  (10 <=? k) && (k <=? 13) && es_fin resto.

(** [str(v).lower() not in ["null", "none", ""]] *)
Definition no_es_nulo (v : string) : bool :=
  negb (bool_decide (lower v ∈ ["null"; "none"; ""])).

(** What [llm] stores in [resultado["ruc"]], given [datos.get("ruc")]. *)
Definition llm_ruc (ruc : option string) : option string :=
  match ruc with
  | Some r =>
      if verdadero ruc && no_es_nulo r then
        let ruc_digits := only_digits (Some r) in
        if (10 <=? String.length ruc_digits) && (String.length ruc_digits <=? 13) then
          if coincide_repetido "0" ruc_digits || coincide_repetido "1" ruc_digits
             || coincide_repetido "9" ruc_digits
          then None
          else Some ruc_digits
        else None
      else None
  | None => None
  end.

(** A string made of one digit repeated. *)
Definition un_solo_digito (d : string) : Prop :=
  ∃ c, es_digito c = true ∧ todos (car_eqb c) d = true.

(** ** Representative name (validar_representante, lines 1357-1437) *)

(** Accented letters used by the patterns, by code point. *)
Definition A_MAY : ascii := "193"%char. (* Á *)
Definition E_MAY : ascii := "201"%char. (* É *)
Definition I_MAY : ascii := "205"%char. (* Í *)
Definition O_MAY : ascii := "211"%char. (* Ó *)
Definition U_MAY : ascii := "218"%char. (* Ú *)
Definition ENE_MAY : ascii := "209"%char. (* Ñ *)
Definition a_min : ascii := "225"%char. (* á *)
Definition e_min : ascii := "233"%char. (* é *)
Definition i_min : ascii := "237"%char. (* í *)
Definition o_min : ascii := "243"%char. (* ó *)
Definition u_min : ascii := "250"%char. (* ú *)
Definition ene_min : ascii := "241"%char. (* ñ *)

Definition en_lista (cs : list ascii) (c : ascii) : bool :=
  existsb (car_eqb c) cs.

(** The pieces the keyword patterns are made of: literal text, [\s+], and a
    one-character class. *)
Inductive atomo :=
  | Lit (s : string)
  | Espacios1
  | Clase (cs : list ascii).

(** A pattern matched at the start of [s] under [re.IGNORECASE].  [\s+] is
    greedy; no pattern below continues with a whitespace character after
    it, so taking the whole run is the only way to match. *)
Fixpoint coincide_ci (p : list atomo) (s : string) : bool :=
  match p with
  | [] => true
  | Lit l :: p' => empieza_ci l s && coincide_ci p' (saltar (String.length l) s)
  | Espacios1 :: p' =>
      match s with
      | String c _ => es_espacio c && coincide_ci p' (lstrip s)
      | EmptyString => false
      end
  | Clase cs :: p' =>
      match s with
      | String c r =>
          existsb (λ x, car_eqb (minuscula x) (minuscula c)) cs && coincide_ci p' r
      | EmptyString => false
      end
  end.

(** [re.search(p, s, re.IGNORECASE)] as a truth value. *)
Fixpoint busca_ci (p : list atomo) (s : string) : bool :=
  coincide_ci p s ||
  match s with
  | EmptyString => false
  | String _ r => busca_ci p r
  end.

Definition TITULOS : list string :=
  ["Ing"; "Arq"; "Abg"; "Dr"; "Dra"; "Sr"; "Sra"; "Lic"; "Msc"; "Mg"; "MBA"; "Eco"].

(** [\s+] at the start of [r]: what follows the run. *)
Definition tras_espacios (r : string) : option string :=
  match r with
  | String c _ => if es_espacio c then Some (lstrip r) else None
  | EmptyString => None
  end.

(** One alternative [T\.?] of the title pattern followed by [\s+], at the
    start of [s], the dot first taken and then left out. *)
Definition tras_titulo (t s : string) : option string :=
  if empieza_ci t s then
    let r := saltar (String.length t) s in
    match (if empieza_con "." r then tras_espacios (saltar 1 r) else None) with
    | Some x => Some x
    | None => tras_espacios r
    end
  else None.

Fixpoint primer_titulo (ts : list string) (s : string) : option string :=
  match ts with
  | [] => None
  | t :: ts' =>
      match tras_titulo t s with
      | Some x => Some x
      | None => primer_titulo ts' s
      end
  end.

(** [re.sub(r"^(Ing\.?|Arq\.?|...|Eco\.?)\s+", "", s, flags=re.IGNORECASE)]:
    the alternatives are tried in order, each with the [\s+] that must
    follow it. *)
Definition quitar_titulo (s : string) : string :=
  match primer_titulo TITULOS s with
  | Some resto => resto
  | None => s
  end.

Definition keywords_empresa : list (list atomo) :=
  [ [Lit "LTDA"];
    [Lit "S.A."];
    [Lit "CONSORCIO"];
    [Lit "CIA"];
    [Lit "EP"];
    [Lit "CIA"; Espacios1; Lit "LTDA"];
    [Lit "COMPA"; Clase [ENE_MAY]; Clase [I_MAY; "I"%char]; Lit "A"];
    [Lit "gasolinera"];
    [Lit "avenida"];
    [Lit "calle"] ].

Definition cargos_prohibidos : list (list atomo) :=
  [ [Lit "Coordinador"]; [Lit "Director"]; [Lit "Administrador"];
    [Lit "Gerente"]; [Lit "Jefe"]; [Lit "Secretario"]; [Lit "Ministro"];
    [Lit "Alcalde"]; [Lit "Prefecto"]; [Lit "Gobernador"] ].

(** [[A-ZÁÉÍÓÚÑ]] *)
Definition inicial_nombre (c : ascii) : bool :=
  en_rango 65 90 c || en_lista [A_MAY; E_MAY; I_MAY; O_MAY; U_MAY; ENE_MAY] c.

(** [[a-záéíóúñ\s-]] *)
Definition resto_nombre (c : ascii) : bool :=
  en_rango 97 122 c || en_lista [a_min; e_min; i_min; o_min; u_min; ene_min] c
  || es_espacio c || car_eqb c "-".


(** The two tests on one word: [palabra[0].isupper()] and
    [re.match(r"^[A-ZÁÉÍÓÚÑ][a-záéíóúñ\s-]*$", palabra)].  The class of the
    starred part contains the line feed, so the final [$] is reached only at
    the end of the word. *)
Definition palabra_valida (palabra : string) : bool :=
  match palabra with
  | EmptyString => false
  | String c r => es_mayuscula c && (inicial_nombre c && todos resto_nombre r)
  end.

Definition validar_representante (representante : option string) : bool :=
  if negb (verdadero representante) then false else
  let representante := strip (default EmptyString representante) in
  let representante := strip (quitar_titulo representante) in
  if (String.length representante <? 6) || (120 <? String.length representante)
  then false else
  if alguno es_digito representante then false else
  if existsb (λ k, busca_ci k representante) keywords_empresa then false else
  if existsb (λ k, busca_ci k representante) cargos_prohibidos then false else
  let palabras := split representante in
  if (length palabras <? 2) || (4 <? length palabras) then false else
  forallb palabra_valida palabras.




(** ** Outcomes *)

Inductive excepcion :=
  | ValueError (msg : string)
  | RuntimeError (msg : string)
  | ErrorSQL (msg : string).

(** A computation that returns or raises. *)
Inductive res (A : Type) :=
  | Ok (a : A)
  | Err (e : excepcion).
Arguments Ok {A} a.
Arguments Err {A} e.

Definition res_bind {A B} (x : res A) (f : A → res B) : res B :=
  match x with
  | Ok a => f a
  | Err e => Err e
  end.

Notation "x ←r y ; z" := (res_bind y (λ x, z))
  (at level 20, y at level 100, z at level 200, only parsing).

(** ** Block isolator (pre_filtro, lines 273-424) *)

(** [re.finditer(patron, texto, re.IGNORECASE)]: the matches as pairs
    (start, end), in order.  The engine belongs to Python and is an
    argument of the model.  [pre_filtro] runs it on the lower-cased copy of
    the normalized text and uses the offsets on the normalized text itself;
    the copy is longer when the text holds U+0130, whose lower case is two
    code points, so no bound on the offsets is built into the model. *)
Definition motor : Type := string → string → list (nat * nat).

(** The catalog [patrones_clave]: pattern source, context before, context
    after.  The sources are quoted as they stand in the Python file and are
    only ever handed to the engine. *)
Definition patrones_clave : list (string * nat * nat) :=
  [
    (* Indicadores directos del contratista *)
    ("\bcomparecen\b", 500, 1500);
    ("\bpor\s+otra\s+parte\b", 500, 1500);
    ("\bcontratista\b", 500, 1500);
    ("\badjudicatario\b", 500, 1500);
    ("\bproveedor\b", 500, 1500);
    ("\bla\s+empresa\b", 500, 1500);
    ("\bla\s+compa[ñn][íi]a\b", 500, 1500);
    ("\bla\s+sociedad\b", 500, 1500);
    ("\bel\s+proveedor\b", 500, 1500);
    ("\ba\s+quien\s+en\s+adelante\s+se\s+denominar[áa]\s+contratista\b", 500, 1500);
    ("\bcomparece\b.*\brepresentado\s+por\b", 500, 1500);
    ("\bel\s+oferente\s+ganador\b", 500, 1500);
    ("\bla\s+persona\s+natural\b", 500, 1500);
    ("\bsocio\s+adjudicado\b", 500, 1500);
    ("\bconsorcio\b", 500, 1500);
    ("\bcooperativa\b", 500, 1500);
    ("\bel\s+contratista\s*[:]", 500, 1500);
    ("\bsr\.\s+[a-záéíóúñ]+", 300, 1000);
    ("\bsra\.\s+[a-záéíóúñ]+", 300, 1000);
    (* Patrones RUC (10-13 dígitos) - más variaciones *)
    ("\bruc\s*[:#]?\s*\d{10,13}\b", 300, 1200);
    ("\br\.u\.c\.\s*[:#]?\s*\d{10,13}\b", 300, 1200);
    ("\bruc\s*n[°ºo]?\s*[:#]?\s*\d{10,13}\b", 300, 1200);
    ("\bcon\s+ruc\s*[:#]?\s*\d{10,13}\b", 300, 1200);
    (* Patrones de direcciones - más variaciones *)
    ("\b(?:con\s+)?domicilio\s+en\b", 300, 1200);
    ("\b(?:con\s+)?domicilio\s+fiscal\b", 300, 1200);
    ("\bubicado\s+en\b", 300, 1200);
    ("\bdirecci[óo]n\s*[:]\s*", 300, 1200);
    ("\bdirecci[óo]n\s+fiscal\s*[:]\s*", 300, 1200);
    ("\bse\s+encuentra\s+en\b", 300, 1200);
    ("\blocalizado\s+en\b", 300, 1200);
    ("\breside\s+en\b", 300, 1200);
    ("\bsede\s+en\b", 300, 1200);
    ("\boficina\s+en\b", 300, 1200);
    ("\bav\.\s+[a-z0-9]", 200, 800);
    ("\bavenida\s+[a-z0-9]", 200, 800);
    ("\bcalle\s+[a-z0-9]", 200, 800);
    ("\bsector\s+[a-z0-9]", 200, 800);
    ("\bparroquia\s+[a-z0-9]", 200, 800);
    ("\bbarrio\s+[a-z0-9]", 200, 800);
    ("\bconjunto\s+[a-z0-9]", 200, 800);
    ("\bentre\s+calles\b", 200, 800);
    ("\bkm\s+\d+", 200, 800);
    ("\bv[íi]a\s+[a-z0-9]", 200, 800);
    (* Patrones de contacto - más variaciones *)
    ("\b(?:correo|mail|e[-]?mail|e\s+mail)\s*(?:electr[óo]nico)?\s*[:]\s*[a-z0-9._%+-]+@", 200, 800);
    ("\b(?:tel[ée]fono|tel\.?|telf\.?)\s*[:]\s*", 200, 800);
    ("\b(?:tel[ée]fonos?|tels?\.?)\s*[:]\s*", 200, 800);
    ("\b(?:celular|cel\.?|m[óo]vil|m[óo]bil)\s*[:]\s*", 200, 800);
    ("\bcontacto\s*[:]\s*", 200, 800);
    ("\bcomunicaci[óo]n\s*[:]\s*", 200, 800);
    (* Secciones que suelen contener datos del contratista *)
    ("\bcl[áa]usula\s+(?:d[ée]cima\s+)?(?:octava|novena|d[ée]cima)\s*[\.\-]\s*domicilio\b", 400, 1500);
    ("\bcl[áa]usula\s+(?:d[ée]cima\s+)?(?:octava|novena|d[ée]cima)\s*[\.\-]\s*comunicaciones\b", 400, 1500);
    ("\bcl[áa]usula\s+(?:d[ée]cima\s+)?(?:octava|novena|d[ée]cima)\s*[\.\-]\s*contacto\b", 400, 1500);
    ("\bdatos\s+del\s+contratista\b", 400, 1500);
    ("\binformaci[óo]n\s+del\s+contratista\b", 400, 1500)
  ].

(** (inicio, fin, texto) *)
Definition bloque : Type := nat * nat * string.

(** [not (fin < inicio_exist or inicio > fin_exist)] *)
Definition solapa (inicio fin : nat) (b : bloque) : bool :=
  let '(inicio_exist, fin_exist, _) := b in
  negb ((fin <? inicio_exist) || (fin_exist <? inicio)).

(** [l.remove(x)]: drops the first element equal to [x]; raises
    [ValueError] when there is none. *)
Fixpoint quitar_primero (x : bloque) (l : list bloque) : res (list bloque) :=
  match l with
  | [] => Err (ValueError "list.remove(x): x not in list")
  | y :: r =>
      if decide (x = y) then Ok r
      else l' ←r quitar_primero x r; Ok (y :: l')
  end.

(** Body of the loop over the matches, after the window [inicio, fin) has
    been computed: the first stored block that overlaps the window is
    widened (removed, and its union with the window appended), or left as
    it is when it already covers the window; without overlap the window is
    appended. *)
Definition registrar (texto_norm : string) (bloques_encontrados : list bloque)
    (inicio fin : nat) : res (list bloque) :=
  match List.find (solapa inicio fin) bloques_encontrados with
  | Some (inicio_exist, fin_exist, _) =>
      if (inicio <? inicio_exist) || (fin_exist <? fin) then
        let nuevo_inicio := Nat.min inicio inicio_exist in
        let nuevo_fin := Nat.max fin fin_exist in
        l ←r quitar_primero
               (inicio_exist, fin_exist, rebanada inicio_exist fin_exist texto_norm)
               bloques_encontrados;
        Ok (l ++ [(nuevo_inicio, nuevo_fin, rebanada nuevo_inicio nuevo_fin texto_norm)])
      else Ok bloques_encontrados
  | None => Ok (bloques_encontrados ++ [(inicio, fin, rebanada inicio fin texto_norm)])
  end.

(** One match: [inicio = max(0, match.start() - contexto_antes)] (the
    subtraction on [nat] stops at 0) and
    [fin = min(len(texto_norm), match.end() + contexto_despues)]. *)
Definition procesar_match (texto_norm : string) (contexto_antes contexto_despues : nat)
    (acc : res (list bloque)) (m : nat * nat) : res (list bloque) :=
  bloques ←r acc;
  let inicio := Nat.max 0 (m.1 - contexto_antes) in
  let fin := Nat.min (String.length texto_norm) (m.2 + contexto_despues) in
  registrar texto_norm bloques inicio fin.

Definition procesar_patron (finditer : motor) (texto_norm texto_lower : string)
    (acc : res (list bloque)) (p : string * nat * nat) : res (list bloque) :=
  let '(patron, contexto_antes, contexto_despues) := p in
  foldl (procesar_match texto_norm contexto_antes contexto_despues) acc
        (finditer patron texto_lower).

Definition buscar_bloques (finditer : motor) (texto_norm texto_lower : string)
  : res (list bloque) :=
  foldl (procesar_patron finditer texto_norm texto_lower) (Ok []) patrones_clave.

(** [bloques.sort(key=lambda x: x[0])]: a stable sort on the start
    offset. *)
Fixpoint insertar (b : bloque) (l : list bloque) : list bloque :=
  match l with
  | [] => [b]
  | x :: r => if b.1.1 <=? x.1.1 then b :: l else x :: insertar b r
  end.

Definition ordenar (l : list bloque) : list bloque := foldr insertar [] l.

(** Body of the loop that fuses neighbours: a block starting less than 500
    characters after the end of the last fused block is absorbed by it. *)
Definition fusionar_cercanos (texto_norm : string) (bloques_fusionados : list bloque)
    (b : bloque) : list bloque :=
  let '(inicio, fin, _) := b in
  match last bloques_fusionados with
  | Some (ultimo_inicio, ultimo_fin, _) =>
      if (Z.of_nat inicio - Z.of_nat ultimo_fin <? 500)%Z then
        let nuevo_fin := Nat.max fin ultimo_fin in
        removelast bloques_fusionados
        ++ [(ultimo_inicio, nuevo_fin, rebanada ultimo_inicio nuevo_fin texto_norm)]
      else bloques_fusionados ++ [b]
  | None => bloques_fusionados ++ [b]
  end.

(** "\n\n---\n\n" *)
Definition SEPARADOR : string :=
  String LF (String LF ("---" +:+ String LF (String LF EmptyString))).

Definition pre_filtro (finditer : motor) (texto : string) : res string :=
  if negb (verdadero (Some texto)) then Ok EmptyString else
  let texto_norm := normalizar texto in
  let texto_lower := lower texto_norm in
  bloques_encontrados ←r buscar_bloques finditer texto_norm texto_lower;
  match bloques_encontrados with
  | [] => Ok (tomar 8000 texto_norm)
  | _ =>
      let bloques_encontrados := ordenar bloques_encontrados in
      let bloques_fusionados :=
        foldl (fusionar_cercanos texto_norm) [] bloques_encontrados in
      let texto_filtrado := unir SEPARADOR (snd <$> bloques_fusionados) in
      Ok (if 12000 <? String.length texto_filtrado
          then tomar 12000 texto_filtrado
          else texto_filtrado)
  end.

(** *** Invariants of the block list *)

(** Every stored block is a slice of the normalized text. *)
Definition es_rebanada (texto_norm : string) (b : bloque) : Prop :=
  b.2 = rebanada b.1.1 b.1.2 texto_norm.

(** What a window must satisfy for a property [P] of blocks to survive
    its registration, whether it is stored as it is or merged. *)
Definition admite (P : bloque → Prop) (texto_norm : string) (inicio fin : nat) : Prop :=
  ∀ i f, i ≤ inicio → fin ≤ f →
    (i = inicio ∨ ∃ b, P b ∧ b.1.1 = i) →
    (f = fin ∨ ∃ b, P b ∧ b.1.2 = f) →
    P (i, f, rebanada i f texto_norm).

Definition ventana_admitida (P : bloque → Prop) (texto_norm : string)
    (antes despues : nat) (m : nat * nat) : Prop :=
  admite P texto_norm (Nat.max 0 (m.1 - antes))
         (Nat.min (String.length texto_norm) (m.2 + despues)).

Definition acotado (n : nat) (b : bloque) : Prop := b.1.1 < b.1.2 ∧ b.1.2 ≤ n.

Definition bloque_bueno (texto_norm : string) (b : bloque) : Prop :=
  acotado (String.length texto_norm) b ∧ es_rebanada texto_norm b.

(** The matches reported for the catalog patterns on the lower-cased copy
    of [texto_norm] are non-empty ranges of [texto_norm] itself.  This is so
    whenever lower-casing keeps the length of the text; it is a condition on
    the offsets, not a consequence of [lower]. *)
Definition motor_en_texto (finditer : motor) (texto_norm : string) : Prop :=
  ∀ p, p ∈ patrones_clave →
    Forall (λ m : nat * nat, m.1 < m.2 ∧ m.2 ≤ String.length texto_norm)
           (finditer p.1.1 (lower texto_norm)).

(** An engine used to run the model: it reports the first character of
    any non-empty text as a match. *)
Definition motor_inicial : motor :=
  λ _ t, match t with EmptyString => [] | _ => [(0, 1)] end.

(** An engine that never finds anything. *)
Definition motor_mudo : motor := λ _ _, [].

Fixpoint repetir (n : nat) (c : ascii) : string :=
  match n with
  | O => EmptyString
  | S n' => String c (repetir n' c)
  end.

(** A document on which the offsets drift: 600 times the letter U+0130
    followed by a contractor line.  [str.lower()] turns U+0130 into two
    code points, so the lower-cased copy has 1,244 characters where the
    normalized text has 644.  U+0130 is not a character of the model; the
    letter "I" stands at its 600 places, the normalized text being used for
    its length and its slices only. *)
Definition texto_desfase : string :=
  repetir 600 "I" +:+ " EL CONTRATISTA: ACME S.A. RUC 1790012345001".

(** What [re.finditer] reports on the lower-cased copy of that document:
    three catalog patterns match, each once, at offsets of the longer
    copy. *)
Definition motor_desfase : motor :=
  λ patron _,
    if decide (patron = "\bcontratista\b") then [(1204, 1215)]
    else if decide (patron = "\bel\s+contratista\s*[:]") then [(1201, 1216)]
    else if decide (patron = "\bruc\s*[:#]?\s*\d{10,13}\b") then [(1227, 1244)]
    else [].

(** ** Persistence (update_postgres, lines 2431-2838) *)

(** The target table: the columns reported by [information_schema.columns]
    and the rows, each a map from column name to stored text (an absent
    key is SQL [NULL]). *)
Record tabla := {
  columnas : gset string;
  filas : list (gmap string string);
}.

(** The keys of [file_data] read by the persistence step. *)
Record datos_archivo := {
  fd_codigo_proceso : option string;
  fd_contratista_data : option (gmap string (option string));
  fd_file_name : option string;
}.

(** What the step takes from outside its own text.  The two cleaners are
    functions of the module (lines 1202 and 1440) made of some twenty
    regular expressions; the step only uses their results, so it is
    modelled for arbitrary cleaners.  [ahora] is the value of [NOW()];
    [metadata_json] is [json.dumps(metadata_final)], built from the
    dictionary as received (the detected fields) and as it is when dumped
    (the same object, cleaned in place in between); [jsonb_concat old x]
    is [COALESCE(old, '{}'::jsonb) || x::jsonb]; [orden_columnas] is the
    iteration order of the set [available_columns]. *)
Record entorno := {
  limpiar_razon_social : string → option string;
  limpiar_nombre_persona : string → option string;
  ahora : string;
  metadata_json : gmap string (option string) → gmap string (option string) → string;
  jsonb_concat : option string → string → string;
  orden_columnas : gset string → list string;
}.

(** One element of [set_clauses]. *)
Inductive asignacion :=
  | SetParam (columna : string)   (* "columna = %s" *)
  | SetNow (columna : string)     (* "columna = NOW()" *)
  | SetMetadata.                  (* "metadata = COALESCE(metadata, '{}'::jsonb) || %s::jsonb" *)

Definition columna_de (a : asignacion) : string :=
  match a with
  | SetParam c => c
  | SetNow c => c
  | SetMetadata => "metadata"
  end.

(** [set_clauses] and [params], grown together. *)
Definition estado_sql : Type := list asignacion * list string.

(** [isinstance(value, str) and not value.strip()] *)
Definition en_blanco (v : string) : bool :=
  match strip v with
  | EmptyString => true
  | _ => false
  end.

(** The closure [add_update(column, value)] (no call passes a template). *)
Definition add_update (available_columns : gset string) (st : estado_sql)
    (column : string) (value : option string) : estado_sql :=
  if bool_decide (column ∈ available_columns) then
    match value with
    | None => st
    | Some v =>
        if en_blanco v then st
        else (st.1 ++ [SetParam column], st.2 ++ [v])
    end
  else st.

(** [re.match(r"^(Comparecen|Partes|quienes|será|Av\.|Calle|Sector)", s,
    re.IGNORECASE)] *)
Definition frase_invalida (s : string) : bool :=
  existsb (λ p, empieza_ci p s)
    ["Comparecen"; "Partes"; "quienes"; "ser" +:+ String a_min EmptyString;
     "Av."; "Calle"; "Sector"].

(** Lines 2619-2634: [datos_contratista["razon_social"]] is overwritten
    with the cleaned value or with [None]. *)
Definition limpiar_razon (env : entorno) (datos : gmap string (option string))
  : gmap string (option string) :=
  let razon_raw := dict_get datos "razon_social" in
  if verdadero razon_raw then
    let razon_limpia := limpiar_razon_social env (default EmptyString razon_raw) in
    if verdadero razon_limpia
       && (3 <=? String.length (default EmptyString razon_limpia)) then
      if negb (frase_invalida (default EmptyString razon_limpia))
      then <["razon_social" := razon_limpia]> datos
      else <["razon_social" := None]> datos
    else <["razon_social" := None]> datos
  else <["razon_social" := None]> datos.

(** [(LTDA|S\.A\.|CONSORCIO|CIA|EP|COMPAÑ[ÍI]A)] *)
Definition empresa_en_representante : list (list atomo) :=
  [ [Lit "LTDA"]; [Lit "S.A."]; [Lit "CONSORCIO"]; [Lit "CIA"]; [Lit "EP"];
    [Lit "COMPA"; Clase [ENE_MAY]; Clase [I_MAY; "I"%char]; Lit "A"] ].

(** Lines 2637-2658, likewise for [datos_contratista["representante"]]. *)
Definition limpiar_representante (env : entorno) (datos : gmap string (option string))
  : gmap string (option string) :=
  let representante_raw := dict_get datos "representante" in
  if verdadero representante_raw then
    let representante_limpio :=
      limpiar_nombre_persona env (default EmptyString representante_raw) in
    if verdadero representante_limpio then
      let r := default EmptyString representante_limpio in
      let palabras := split r in
      let tiene_numeros := alguno es_digito r in
      let tiene_cargos := existsb (λ k, busca_ci k r) cargos_prohibidos in
      let tiene_empresa := existsb (λ k, busca_ci k r) empresa_en_representante in
      if (2 <=? length palabras) && (length palabras <=? 4)
         && negb tiene_numeros && negb tiene_cargos && negb tiene_empresa
      then <["representante" := representante_limpio]> datos
      else <["representante" := None]> datos
    else <["representante" := None]> datos
  else <["representante" := None]> datos.

(** [datos_contratista] as it stands when the loop over the fields runs. *)
Definition datos_limpios (env : entorno) (datos : gmap string (option string))
  : gmap string (option string) :=
  limpiar_representante env (limpiar_razon env datos).

(** Body of [for campo in CONTRATISTA_FIELDS] (lines 2660-2671). *)
Definition agregar_campo (available_columns : gset string)
    (datos : gmap string (option string)) (st : estado_sql) (campo : string)
  : estado_sql :=
  let valor := dict_get datos campo in
  if bool_decide (campo ∈ available_columns) then
    match valor with
    | Some v => if negb (en_blanco v) then add_update available_columns st campo valor else st
    | None => st
    end
  else st.

(** ["fecha" in col.lower() or "updated" in col.lower() or
    "actualizacion" in col.lower()] *)
Definition es_columna_fecha (col : string) : bool :=
  contiene "fecha" (lower col) || contiene "updated" (lower col)
  || contiene "actualizacion" (lower col).

(** Lines 2582-2707: the SET list and its parameters, with the dictionary
    as cleaned on the way. *)
Definition construir_set (env : entorno) (available_columns : gset string)
    (datos_contratista : gmap string (option string)) (file_name : option string)
  : estado_sql * gmap string (option string) :=
  let st : estado_sql :=
    if bool_decide ("updated_at" ∈ available_columns) then ([SetNow "updated_at"], [])
    else if bool_decide ("fecha_actualizacion" ∈ available_columns)
         then ([SetNow "fecha_actualizacion"], [])
         else ([], []) in
  let datos := datos_limpios env datos_contratista in
  let st := foldl (agregar_campo available_columns datos) st CONTRATISTA_FIELDS in
  let st :=
    if bool_decide ("fuente_archivo" ∈ available_columns)
    then add_update available_columns st "fuente_archivo" file_name
    else st in
  let st : estado_sql :=
    if bool_decide ("metadata" ∈ available_columns)
    then (st.1 ++ [SetMetadata], st.2 ++ [metadata_json env datos_contratista datos])
    else st in
  let st : estado_sql :=
    match st.1 with
    | [] =>
        match List.filter es_columna_fecha (orden_columnas env available_columns) with
        | col :: _ => ([SetNow col], st.2)
        | [] => st
        end
    | _ => st
    end in
  (st, datos).

(** *** The database side *)

Inductive valor_sql :=
  | VParam (v : string)
  | VNow
  | VJsonConcat (v : string).

(** Placeholders are bound to the parameters from left to right; the
    statement is refused when their numbers differ. *)
Fixpoint emparejar (set_clauses : list asignacion) (params : list string)
  : option (list (string * valor_sql)) :=
  match set_clauses with
  | [] => match params with [] => Some [] | _ => None end
  | SetNow c :: r => ((c, VNow) ::.) <$> emparejar r params
  | SetParam c :: r =>
      match params with
      | v :: ps => ((c, VParam v) ::.) <$> emparejar r ps
      | [] => None
      end
  | SetMetadata :: r =>
      match params with
      | v :: ps => (("metadata", VJsonConcat v) ::.) <$> emparejar r ps
      | [] => None
      end
  end.

(** Right-hand sides are evaluated on the row as it was. *)
Definition evaluar (env : entorno) (vieja : gmap string string) (e : valor_sql) : string :=
  match e with
  | VParam v => v
  | VNow => ahora env
  | VJsonConcat v => jsonb_concat env (vieja !! "metadata") v
  end.

Definition actualizar_fila (env : entorno) (asigs : list (string * valor_sql))
    (f : gmap string string) : gmap string string :=
  foldl (λ nueva ce, <[ce.1 := evaluar env f ce.2]> nueva) f asigs.

(** [WHERE codigo_proceso = %s] *)
Definition coincide_fila (codigo_proceso : string) (f : gmap string string) : bool :=
  bool_decide (f !! "codigo_proceso" = Some codigo_proceso).

(** [SELECT codigo_proceso FROM t WHERE codigo_proceso = %s LIMIT 1]
    followed by [fetchone()]: is there such a row? *)
Definition seleccionar_existe (db : tabla) (codigo_proceso : string) : res bool :=
  if bool_decide ("codigo_proceso" ∈ columnas db)
  then Ok (existsb (coincide_fila codigo_proceso) (filas db))
  else Err (ErrorSQL "column codigo_proceso does not exist").

(** [UPDATE t SET ... WHERE codigo_proceso = %s]: the new table and
    [cursor.rowcount].  The server of the model takes a column name as the
    string it is and stores any text: it does not fold an unquoted name to
    lower case, has no column types, and refuses no parameter.  The code can
    therefore raise where the model returns; what is proved of the step
    below is stated for the runs that report "success", or speaks of rows
    that stay as they were. *)
Definition ejecutar_update (env : entorno) (db : tabla)
    (set_clauses : list asignacion) (params : list string) (codigo_proceso : string)
  : res (tabla * nat) :=
  match set_clauses, emparejar set_clauses params with
  | [], _ => Err (ErrorSQL "syntax error at or near WHERE")
  | _, None => Err (ErrorSQL "wrong number of parameters")
  | _, Some asigs =>
      if negb (bool_decide (Forall (λ c, c ∈ columnas db) ("codigo_proceso" :: asigs.*1)))
      then Err (ErrorSQL "column does not exist")
      else if negb (bool_decide (NoDup (asigs.*1)))
      then Err (ErrorSQL "multiple assignments to same column")
      else
        Ok ({| columnas := columnas db;
               filas := (λ f, if coincide_fila codigo_proceso f
                              then actualizar_fila env asigs f else f) <$> filas db |},
            length (List.filter (coincide_fila codigo_proceso) (filas db)))
  end.

(** The dictionary returned by [update_postgres]: [file_data] with the
    status keys added ([update_timestamp] is left out).  [contratista_data] is the dictionary object of the input, so it
    shows the in-place cleaning once that has run. *)
Record salida_update := {
  salida_datos : datos_archivo;
  update_status : string;
  update_reason : option string;
}.

Definition con_datos (fd : datos_archivo) (datos : gmap string (option string))
  : datos_archivo :=
  {| fd_codigo_proceso := fd_codigo_proceso fd;
     fd_contratista_data :=
       match fd_contratista_data fd with
       | Some d => if bool_decide (d = ∅) then Some d else Some datos
       | None => None
       end;
     fd_file_name := fd_file_name fd |}.

(** [update_postgres], from an established connection on (the retry loop
    of lines 2443-2494 and the test [conn.closed] concern the connection
    only; logging is left out): the value returned or the exception raised,
    and the table afterwards.  An exception leaves the table as it was. *)
Definition update_postgres (env : entorno) (db : tabla) (file_data : datos_archivo)
  : res salida_update * tabla :=
  if negb (verdadero (fd_codigo_proceso file_data))
  then (Err (ValueError "codigo_proceso es requerido"), db)
  else
    let codigo_proceso := default EmptyString (fd_codigo_proceso file_data) in
    let datos_contratista :=
      match fd_contratista_data file_data with
      | Some d => d
      | None => ∅
      end in
    let file_name := fd_file_name file_data in
    let available_columns := columnas db in
    match seleccionar_existe db codigo_proceso with
    | Err e => (Err e, db)
    | Ok false =>
        (Ok {| salida_datos := file_data;
               update_status := "skipped";
               update_reason := Some "Registro no existe en BD" |}, db)
    | Ok true =>
        let '((set_clauses, params), datos) :=
          construir_set env available_columns datos_contratista file_name in
        match set_clauses with
        | [] => (Err (RuntimeError "No se generaron set_clauses"), db)
        | _ =>
            match ejecutar_update env db set_clauses params codigo_proceso with
            | Err e => (Err e, db)
            | Ok (db', rowcount) =>
                if rowcount =? 0 then
                  match seleccionar_existe db' codigo_proceso with
                  | Err e => (Err e, db')
                  | Ok false =>
                      (Ok {| salida_datos := con_datos file_data datos;
                             update_status := "skipped";
                             update_reason :=
                               Some ("Registro no existe despu" +:+ String e_min "s del UPDATE") |}, db')
                  | Ok true =>
                      (Ok {| salida_datos := con_datos file_data datos;
                             update_status := "success";
                             update_reason := None |}, db')
                  end
                else
                  (Ok {| salida_datos := con_datos file_data datos;
                         update_status := "success";
                         update_reason := None |}, db')
            end
        end
    end.

(** [file_data.get("contratista_data") or {}] *)
Definition datos_de (file_data : datos_archivo) : gmap string (option string) :=
  match fd_contratista_data file_data with
  | Some d => d
  | None => ∅
  end.

(** [value is None or not value.strip()] *)
Definition sin_valor (v : option string) : bool :=
  match v with
  | None => true
  | Some s => en_blanco s
  end.

(** The stored value of a column in the [i]-th row. *)
Definition celda (db : tabla) (i : nat) (columna : string) : option string :=
  filas db !! i ≫= (.!! columna).

(** An environment to run the model with: cleaners that only trim. *)
Definition entorno_ejemplo : entorno :=
  {| limpiar_razon_social := λ s, match strip s with EmptyString => None | t => Some t end;
     limpiar_nombre_persona := λ s, match strip s with EmptyString => None | t => Some t end;
     ahora := "2024-01-01 00:00:00";
     metadata_json := λ _ _, "{}";
     jsonb_concat := λ old x, x;
     orden_columnas := elements |}.

Definition tabla_ejemplo : tabla :=
  {| columnas := list_to_set ["codigo_proceso"; "razon_social"; "ruc"; "telefono"; "updated_at"];
     filas := [ {[ "codigo_proceso" := "PROC-001"; "razon_social" := "ACME S.A.";
                   "telefono" := "022345678" ]} ] |}.

(** When the loop over the fields adds a column: it exists in the table
    and the value to write is neither [None] nor blank. *)
Definition incluido (available_columns : gset string)
    (datos : gmap string (option string)) (campo : string) : bool :=
  bool_decide (campo ∈ available_columns) && negb (sin_valor (dict_get datos campo)).

(** Two documents for [tabla_ejemplo]: one whose code is not in the table,
    one whose code is. *)
Definition archivo_ausente : datos_archivo :=
  {| fd_codigo_proceso := Some "PROC-002";
     fd_contratista_data := Some {[ "ruc" := Some "1790012345001" ]};
     fd_file_name := Some "PROC-002.txt" |}.

Definition archivo_presente : datos_archivo :=
  {| fd_codigo_proceso := Some "PROC-001";
     fd_contratista_data :=
       Some {[ "ruc" := Some "1790012345001"; "telefono" := None;
               "razon_social" := Some "  " ]};
     fd_file_name := Some "PROC-001.txt" |}.

(** ** Duplicate removal (dedup, lines 69-79) *)

(** One iteration of the loop: [seen] and [result]. *)
Definition dedup_paso (st : gset string * list string) (item : option string)
  : gset string * list string :=
  if negb (verdadero item) then st
  else
    let s := default EmptyString item in
    if bool_decide (s ∈ st.1) then st
    else ({[ s ]} ∪ st.1, st.2 ++ [s]).

Definition dedup (seq : list (option string)) : list string :=
  (foldl dedup_paso (∅, []) seq).2.

(** ** Chunks (dividir_en_chunks, lines 1491-1505) *)

(** [range(i, n, t)] for a positive step [t]; [fuel] bounds the number of
    elements, and [n] is always enough. *)
Fixpoint rango_aux (fuel i n t : nat) : list nat :=
  match fuel with
  | O => []
  | S fuel' => if i <? n then i :: rango_aux fuel' (i + t) n t else []
  end.

(** [dividir_en_chunks(texto, tamaño)].  [range] raises [ValueError] on a
    zero step and is empty on a negative one. *)
Definition dividir_en_chunks (texto : string) (tamaño : Z) : res (list string) :=
  if (tamaño =? 0)%Z then Err (ValueError "range() arg 3 must not be zero")
  else if (tamaño <? 0)%Z then Ok []
  else
    let t := Z.to_nat tamaño in
    let n := String.length texto in
    Ok ((λ i, rebanada i (i + t) texto) <$> rango_aux n 0 n t).

(** [''.join(chunks)] *)
Definition concatenar (l : list string) : string :=
  foldr String.append EmptyString l.

(** ** The "telefono" step of llm (lines 2008-2019) *)

Definition llm_telefono (telefono : option string) : option string :=
  match telefono with
  | Some t =>
      if verdadero telefono && no_es_nulo t then
        match normalize_phone (Some t) with
        | Some tel_normalizado =>
            if verdadero (Some tel_normalizado) then
              if coincide_repetido "0" tel_normalizado
                 || coincide_repetido "1" tel_normalizado
                 || coincide_repetido "9" tel_normalizado
              then None
              else Some tel_normalizado
            else None
        | None => None
        end
      else None
  | None => None
  end.

(** What [llm_chunk] returns for a chunk that gave nothing (blocked
    answer, retries exhausted): the six fields at [None]. *)
Definition resultado_vacio : gmap string (option string) := resultado_inicial.


(** ** Company name (limpiar_razon_social, lines 1202-1244;
    looks_like_employer, line 96; the "razon_social" step of llm, lines
    1977-1986) *)

(** [re.sub(r"\s+", " ", s)]: every maximal run of whitespace becomes one
    blank, emitted at the last character of the run. *)
Fixpoint sub_blancos (s : string) : string :=
  match s with
  | EmptyString => EmptyString
  | String c r =>
      if es_espacio c then
        match r with
        | String c' _ =>
            if es_espacio c' then sub_blancos r else String SP (sub_blancos r)
        | EmptyString => String SP EmptyString
        end
      else String c (sub_blancos r)
  end.

(** A pattern matched at the start of [s] under [re.IGNORECASE]: what is
    left after the match.  As in [coincide_ci], a run [\s+] is taken
    whole: in the patterns below it is followed by a letter or by the end
    of the pattern. *)
Fixpoint tras_ci (p : list atomo) (s : string) : option string :=
  match p with
  | [] => Some s
  | Lit l :: p' =>
      if empieza_ci l s then tras_ci p' (saltar (String.length l) s) else None
  | Espacios1 :: p' =>
      match s with
      | String c _ => if es_espacio c then tras_ci p' (lstrip s) else None
      | EmptyString => None
      end
  | Clase cs :: p' =>
      match s with
      | String c r =>
          if existsb (λ x, car_eqb (minuscula x) (minuscula c)) cs
          then tras_ci p' r else None
      | EmptyString => None
      end
  end.

(** [re.sub("^" + p, "", s, flags=re.IGNORECASE)]: without [re.MULTILINE]
    the anchor holds at the first position only, so at most one match is
    removed. *)
Definition quitar_prefijo (p : list atomo) (s : string) : string :=
  match tras_ci p s with
  | Some resto => resto
  | None => s
  end.

(** The list [prefijos_remover], each pattern after its [^]. *)
Definition prefijos_remover : list (list atomo) :=
  [ [Lit "a"; Espacios1];
    [Lit "la"; Espacios1];
    [Lit "el"; Espacios1];
    [Lit "los"; Espacios1];
    [Lit "las"; Espacios1];
    [Lit "y"; Espacios1; Lit "por"; Espacios1; Lit "la"; Espacios1; Lit "otra";
     Espacios1; Lit "parte"; Espacios1];
    [Lit "por"; Espacios1; Lit "otra"; Espacios1; Lit "parte"; Espacios1];
    [Lit "y"; Espacios1; Lit "por"; Espacios1; Lit "otra"; Espacios1; Lit "parte";
     Espacios1];
    [Lit "la"; Espacios1; Lit "empresa"; Espacios1];
    [Lit "el"; Espacios1; Lit "oferente"; Espacios1];
    [Lit "la"; Espacios1; Lit "oferente"; Espacios1];
    [Lit "en"; Espacios1; Lit "calidad"; Espacios1; Lit "de"; Espacios1;
     Lit "Representante"; Espacios1; Lit "Legal"; Espacios1; Lit "de"; Espacios1];
    [Lit "representante"; Espacios1; Lit "legal"; Espacios1; Lit "de"; Espacios1];
    [Lit "representado"; Espacios1; Lit "por"; Espacios1] ].

(** The string the prefixes are removed from: trimmed, line breaks and
    tabs turned into blanks, whitespace runs collapsed, trimmed again
    (lines 1216-1220). *)
Definition razon_base (razon : string) : string :=
  let razon := strip razon in
  let razon :=
    reemplazar TAB (String SP EmptyString)
      (reemplazar CR (String SP EmptyString)
         (reemplazar LF (String SP EmptyString) razon)) in
  strip (sub_blancos razon).

(** Body of [for prefijo in prefijos_remover]. *)
Definition quitar_y_recortar (razon : string) (prefijo : list atomo) : string :=
  strip (quitar_prefijo prefijo razon).

(** The module function of line 1202; the name [limpiar_razon_social] at
    top level is the cleaner slot of [entorno]. *)
Module Razon.

Definition limpiar_razon_social (razon : option string) : option string :=
  if negb (verdadero razon) then None
  else
    let razon := razon_base (default EmptyString razon) in
    let razon := foldl quitar_y_recortar razon prefijos_remover in
    if 3 <=? String.length razon then Some razon else None.

End Razon.

(** The alternatives of [BAD_EMP]; [DIRECTOR[AA]?] is listed with its
    optional letter taken and then left out. *)
Definition BAD_EMP : list (list atomo) :=
  [ [Lit "GOBIERNO"];
    [Lit "MUNICIPAL"];
    [Lit "GAD"];
    [Lit "EMPRESA"; Espacios1; Lit "P"; Clase [U_MAY; "U"%char]; Lit "BLICA"];
    [Lit "UNIVERSIDAD"];
    [Lit "MUNICIPIO"];
    [Lit "ALCALD"; Clase ["I"%char; I_MAY]; Lit "A"];
    [Lit "ALCALDE"];
    [Lit "PREFECTURA"];
    [Lit "CONSEJO"];
    [Lit "MINISTERIO"];
    [Lit "DISTRITAL"];
    [Lit "SECRETAR"; Clase ["I"%char; I_MAY]; Lit "A"];
    [Lit "SENAE"];
    [Lit "DIRECCI"; Clase [O_MAY; "O"%char]; Lit "N"];
    [Lit "DIRECTOR"; Clase ["A"%char; "A"%char]];
    [Lit "DIRECTOR"];
    [Lit "SALUD"] ].

(** [bool(texto and BAD_EMP.search(texto))] *)
Definition looks_like_employer (texto : option string) : bool :=
  verdadero texto
  && existsb (λ k, busca_ci k (default EmptyString texto)) BAD_EMP.

(** What [llm] stores in [resultado["razon_social"]], given
    [datos.get("razon_social")]. *)
Definition llm_razon_social (razon : option string) : option string :=
  match razon with
  | Some r =>
      if verdadero razon && no_es_nulo r then
        let razon_limpia := Razon.limpiar_razon_social (Some r) in
        if verdadero razon_limpia
           && (3 <=? String.length (default EmptyString razon_limpia)) then
          if negb (looks_like_employer razon_limpia) then razon_limpia else None
        else None
      else None
  | None => None
  end.

(** Every whitespace character is a blank, and no blank is followed by
    whitespace. *)
Fixpoint blancos_simples (s : string) : bool :=
  match s with
  | EmptyString => true
  | String a r =>
      (negb (es_espacio a)
       || (car_eqb a SP
           && match r with String b _ => negb (es_espacio b) | EmptyString => true end))
      && blancos_simples r
  end.

(** ** E-mail (es_correo_estado, lines 100-135; the "mail" step of llm,
    lines 2021-2056) *)

Fixpoint saltar_mientras (f : ascii → bool) (s : string) : string :=
  match s with
  | EmptyString => EmptyString
  | String c r => if f c then saltar_mientras f r else s
  end.

(** [[a-z]] *)
Definition letra_ascii_min (c : ascii) : bool := en_rango 97 122 c.

(** [[a-z0-9._%+-]] *)
Definition clase_local (c : ascii) : bool :=
  letra_ascii_min c || en_rango 48 57 c
  || en_lista ["."%char; "_"%char; "%"%char; "+"%char; "-"%char] c.

(** [[a-z0-9.-]] *)
Definition clase_dominio (c : ascii) : bool :=
  letra_ascii_min c || en_rango 48 57 c || en_lista ["."%char; "-"%char] c.

(** [[a-z]{2,}$] at the start of [s].  The run of letters is taken whole:
    a shorter one is followed by a letter, where [$] fails. *)
Definition coincide_tld (s : string) : bool :=
  let resto := saltar_mientras letra_ascii_min s in
  (2 <=? String.length s - String.length resto) && es_fin resto.

(** [[a-z0-9.-]+\.[a-z]{2,}$] at the start of [s], every dot being tried
    as the last one; [visto] holds once a character of the class has been
    taken. *)
Fixpoint coincide_dominio (visto : bool) (s : string) : bool :=
  match s with
  | EmptyString => false
  | String c r =>
      (visto && car_eqb c "." && coincide_tld r)
      || (clase_dominio c && coincide_dominio true r)
  end.

(** [re.match(r'^[a-z0-9._%+-]+@[a-z0-9.-]+\.[a-z]{2,}$', s)].  The local
    part is the whole run of its class, "@" not being in the class. *)
Definition formato_correo (s : string) : bool :=
  let resto := saltar_mientras clase_local s in
  (1 <=? String.length s - String.length resto)
  && match resto with
     | String c r => car_eqb c "@" && coincide_dominio false r
     | EmptyString => false
     end.

(** The shapes of the patterns of the two lists of the e-mail filter. *)
Inductive patron_correo :=
  | Literal (l : string)             (* l *)
  | Hasta_fin (l : string)           (* l$ *)
  | Comodin_fin (l suf : string).    (* l.*suf$ *)

(** [.*suf$] at the start of [s]; the dot stands for any character but the
    line feed. *)
Fixpoint comodin_fin (suf s : string) : bool :=
  (empieza_con suf s && es_fin (saltar (String.length suf) s))
  || match s with
     | String c r => negb (car_eqb c LF) && comodin_fin suf r
     | EmptyString => false
     end.

Definition coincide_correo (p : patron_correo) (s : string) : bool :=
  match p with
  | Literal l => empieza_con l s
  | Hasta_fin l => empieza_con l s && es_fin (saltar (String.length l) s)
  | Comodin_fin l suf => empieza_con l s && comodin_fin suf (saltar (String.length l) s)
  end.

(** [re.search(p, s)] as a truth value. *)
Fixpoint busca_correo (p : patron_correo) (s : string) : bool :=
  coincide_correo p s ||
  match s with
  | EmptyString => false
  | String _ r => busca_correo p r
  end.

Definition dominios_estado : list patron_correo :=
  [ Comodin_fin "@" ".gob.ec";
    Comodin_fin "@" ".edu.ec";
    Hasta_fin "@quito.gob.ec";
    Hasta_fin "@guayaquil.gob.ec";
    Hasta_fin "@ambato.gob.ec";
    Hasta_fin "@cne.gob.ec";
    Hasta_fin "@educacion.gob.ec";
    Hasta_fin "@salud.gob.ec";
    Literal "@municipio.";
    Literal "@gad.";
    Literal "@prefectura.";
    Literal "@ministerio." ].

Definition es_correo_estado (correo : option string) : bool :=
  if negb (verdadero correo) then false
  else
    let correo_lower := strip (lower (default EmptyString correo)) in
    existsb (λ patron, busca_correo patron correo_lower) dominios_estado.

(** The list [correos_sospechosos]; each pattern is [^local@.*$] and is
    used with [re.match]. *)
Definition correos_sospechosos : list patron_correo :=
  [ Comodin_fin "contacto@" EmptyString;
    Comodin_fin "info@" EmptyString;
    Comodin_fin "admin@" EmptyString;
    Comodin_fin "noreply@" EmptyString;
    Comodin_fin "no-reply@" EmptyString;
    Comodin_fin "test@" EmptyString;
    Comodin_fin "example@" EmptyString;
    Comodin_fin "ejemplo@" EmptyString ].

(** What [llm] stores in [resultado["mail"]], given the value chosen by
    [datos.get("correo") or datos.get("mail") or datos.get("email")]. *)
Definition llm_mail (correo : option string) : option string :=
  match correo with
  | Some c =>
      if verdadero correo && no_es_nulo c then
        let correo_str := lower (strip c) in
        if formato_correo correo_str then
          if negb (es_correo_estado (Some correo_str)) then
            let es_sospechoso :=
              existsb (λ patron, coincide_correo patron correo_str) correos_sospechosos in
            if negb es_sospechoso then Some correo_str else None
          else None
        else None
      else None
  | None => None
  end.

(** An address as the format pattern reads it: local part, "@", domain,
    ".", top-level domain. *)
Definition forma_correo (m : string) : Prop :=
  ∃ loc dom tld,
    m = loc +:+ String "@" (dom +:+ String "." tld)
    ∧ loc ≠ EmptyString ∧ todos clase_local loc = true
    ∧ dom ≠ EmptyString ∧ todos clase_dominio dom = true
    ∧ 2 ≤ String.length tld ∧ todos letra_ascii_min tld = true.

(** ** Address (es_direccion_institucional, lines 138-171; the
    "domicilio" step of llm, lines 2058-2077) *)

(** [\w] below U+0100: digits, letters, the underscore, and the signs that
    count as alphanumeric (ª, ², ³, µ, ¹, º, ¼, ½, ¾). *)
Definition es_palabra (c : ascii) : bool :=
  en_rango 48 57 c || en_rango 65 90 c || (cp c =? 95) || en_rango 97 122 c
  || existsb (Nat.eqb (cp c)) [170; 178; 179; 181; 185; 186]
  || en_rango 188 190 c
  || (en_rango 192 255 c && negb (cp c =? 215) && negb (cp c =? 247)).

(** A pattern matched at the start of [s], letter case kept: what is left
    after the match.  A run [\s+] is taken whole, a letter following it in
    every pattern below. *)
Fixpoint tras (p : list atomo) (s : string) : option string :=
  match p with
  | [] => Some s
  | Lit l :: p' =>
      if empieza_con l s then tras p' (saltar (String.length l) s) else None
  | Espacios1 :: p' =>
      match s with
      | String c _ => if es_espacio c then tras p' (lstrip s) else None
      | EmptyString => None
      end
  | Clase cs :: p' =>
      match s with
      | String c r => if en_lista cs c then tras p' r else None
      | EmptyString => None
      end
  end.

(** [\b] between two neighbours; [None] is an end of the string. *)
Definition limite (a b : option ascii) : bool :=
  xorb (from_option es_palabra false a) (from_option es_palabra false b).

Fixpoint ultimo (s : string) : option ascii :=
  match s with
  | EmptyString => None
  | String c EmptyString => Some c
  | String _ r => ultimo r
  end.

(** [\b p \b] matched at the start of [s], which follows the character
    [prev]; the patterns are not empty, so the character before the second
    [\b] is the last one matched. *)
Definition coincide_palabra (p : list atomo) (prev : option ascii) (s : string) : bool :=
  limite prev (cabeza s)
  && match tras p s with
     | Some r => limite (ultimo (tomar (String.length s - String.length r) s)) (cabeza r)
     | None => false
     end.

Fixpoint busca_palabra_aux (p : list atomo) (prev : option ascii) (s : string) : bool :=
  coincide_palabra p prev s ||
  match s with
  | EmptyString => false
  | String c r => busca_palabra_aux p (Some c) r
  end.

(** [re.search(r"\b" + p + r"\b", s)] as a truth value. *)
Definition busca_palabra (p : list atomo) (s : string) : bool :=
  busca_palabra_aux p None s.

Definition indicadores_institucionales : list (list atomo) :=
  [ [Lit "municipio"];
    [Lit "gad"];
    [Lit "prefectura"];
    [Lit "ministerio"];
    [Lit "coordinaci"; Clase [o_min; "o"%char]; Lit "n"; Espacios1; Lit "zonal"];
    [Lit "empresa"; Espacios1; Lit "p"; Clase [u_min; "u"%char]; Lit "blica"];
    [Lit "universidad"; Espacios1; Lit "p"; Clase [u_min; "u"%char]; Lit "blica"];
    [Lit "hospital"; Espacios1; Lit "p"; Clase [u_min; "u"%char]; Lit "blico"];
    [Lit "escuela"; Espacios1; Lit "fiscal"];
    [Lit "colegio"; Espacios1; Lit "fiscal"] ].

Definition es_direccion_institucional (direccion : option string) : bool :=
  if negb (verdadero direccion) then false
  else
    let direccion_lower := lower (default EmptyString direccion) in
    existsb (λ patron, busca_palabra patron direccion_lower) indicadores_institucionales.

(** What [llm] stores in [resultado["domicilio"]], given the value chosen
    by [datos.get("domicilio") or datos.get("direccion")]. *)
Definition llm_domicilio (domicilio : option string) : option string :=
  match domicilio with
  | Some d =>
      if verdadero domicilio && no_es_nulo d then
        let dom_limpio := sub_blancos (strip d) in
        let dom_limpio :=
          if busca_ci [Lit "para todos los efectos"] dom_limpio
          then EmptyString else dom_limpio in
        if es_direccion_institucional (Some dom_limpio) then None
        else if (0 <? String.length dom_limpio) && (String.length dom_limpio <=? 250)
        then Some dom_limpio
        else None
      else None
  | None => None
  end.

(** ** Block lists of pre_filtro: coverage and separation *)

(** Some block of [l] contains the range from [i] to [f]. *)
Definition cubre (l : list bloque) (i f : nat) : Prop :=
  ∃ b, b ∈ l ∧ b.1.1 ≤ i ∧ f ≤ b.1.2.

(** The window [inicio, fin) computed for a match [m] of a pattern with
    the contexts [antes] and [despues] (lines 366-367). *)
Definition ventana (texto_norm : string) (antes despues : nat) (m : nat * nat)
  : nat * nat :=
  (Nat.max 0 (m.1 - antes), Nat.min (String.length texto_norm) (m.2 + despues)).

(** Sorted by start offset. *)
Fixpoint ordenado (l : list bloque) : Prop :=
  match l with
  | [] => True
  | b :: r => Forall (λ x : bloque, b.1.1 ≤ x.1.1) r ∧ ordenado r
  end.

(** Each block starts 500 characters or more after the end of the one
    before it. *)
Fixpoint separados (l : list bloque) : Prop :=
  match l with
  | a :: r =>
      match r with
      | b :: _ => a.1.2 + 500 ≤ b.1.1
      | [] => True
      end ∧ separados r
  | [] => True
  end.

(** ** Persistence: placeholders and parameters *)

(** The SET list and its parameters pair up, and a contractor field is
    assigned, through a placeholder, the value the cleaned dictionary has
    for it. *)
Definition bien_emparejado (finales : gmap string (option string)) (st : estado_sql)
  : Prop :=
  ∃ asigs, emparejar st.1 st.2 = Some asigs
    ∧ ∀ c e, (c, e) ∈ asigs → c ∈ CONTRATISTA_FIELDS →
        ∃ v, e = VParam v ∧ dict_get finales c = Some v.

(** A table with two contracts, for running the persistence step. *)
Definition tabla_dos_filas : tabla :=
  {| columnas := list_to_set ["codigo_proceso"; "razon_social"; "ruc"; "telefono"; "updated_at"];
     filas := [ {[ "codigo_proceso" := "PROC-001"; "razon_social" := "ACME S.A." ]};
                {[ "codigo_proceso" := "PROC-002"; "ruc" := "1790099999001" ]} ] |}.

(** ** Final statistics (log_results, lines 2841-2901) *)

(** The dictionary returned by [log_results]. *)
Record estadisticas := {
  est_total : Z;
  est_exitosos : Z;
  est_omitidos : Z;
  est_errores : Z;
}.

(** [sum(1 for r in results if r.get("update_status") == estado)] *)
Definition contar_estado (estado : string) (results : list salida_update) : Z :=
  Z.of_nat (length (List.filter (λ r, bool_decide (update_status r = estado)) results)).

(** [log_results], on the list of the dictionaries returned by the mapped
    [update_postgres] tasks (logging is left out). *)
Definition log_results (results : list salida_update) : estadisticas :=
  match results with
  | [] => {| est_total := 0; est_exitosos := 0; est_omitidos := 0; est_errores := 0 |}
  | _ =>
      let total := Z.of_nat (length results) in
      let exitosos := contar_estado "success" results in
      let omitidos := contar_estado "skipped" results in
      let errores := (total - exitosos - omitidos)%Z in
      {| est_total := total; est_exitosos := exitosos;
         est_omitidos := omitidos; est_errores := errores |}
  end.

(** Neither "success" nor "skipped". *)
Definition otro_estado (r : salida_update) : bool :=
  negb (bool_decide (update_status r = "success"))
  && negb (bool_decide (update_status r = "skipped")).

(** ** Validation of the merged result (llm, lines 1965-2077) *)

(** [a or b] on [Optional[str]] *)
Definition o_bien (a b : option string) : option string :=
  if verdadero a then a else b.

(** What [llm] stores in [resultado["representante"]] (lines 1988-1993),
    given the chosen value; [limpiar_nombre_persona] (line 1440) is taken
    as an argument, as in [entorno]. *)
Definition llm_representante (limpiar_nombre : string → option string)
    (representante : option string) : option string :=
  match representante with
  | Some r =>
      if verdadero representante && no_es_nulo r then
        let rep_limpio := limpiar_nombre r in
        if verdadero rep_limpio && validar_representante rep_limpio
        then rep_limpio else None
      else None
  | None => None
  end.

(** The dictionary [resultado] built from [datos] (the merged result of
    the chunks): the six steps in source order.  A step that assigns
    nothing leaves the [None] the dictionary starts with. *)
Definition llm_validar (limpiar_nombre : string → option string)
    (datos : gmap string (option string)) : gmap string (option string) :=
  let resultado := resultado_inicial in
  let resultado :=
    <["razon_social" := llm_razon_social (dict_get datos "razon_social")]> resultado in
  let resultado :=
    <["representante" :=
        llm_representante limpiar_nombre
          (o_bien (dict_get datos "representante")
                  (dict_get datos "representante_legal"))]> resultado in
  let resultado := <["ruc" := llm_ruc (dict_get datos "ruc")]> resultado in
  let resultado := <["telefono" := llm_telefono (dict_get datos "telefono")]> resultado in
  let resultado :=
    <["mail" :=
        llm_mail (o_bien (dict_get datos "correo")
                         (o_bien (dict_get datos "mail") (dict_get datos "email")))]>
      resultado in
  <["domicilio" :=
      llm_domicilio (o_bien (dict_get datos "domicilio") (dict_get datos "direccion"))]>
    resultado.

(** The fields the persistence step writes as it receives them (it cleans
    the company name and the representative again). *)
Definition CAMPOS_DIRECTOS : list string := ["ruc"; "telefono"; "mail"; "domicilio"].

(** A document whose dictionary is the validated one, for [tabla_dos_filas]. *)
Definition datos_crudos_ejemplo : gmap string (option string) :=
  {[ "ruc" := Some "RUC 1790012345001"; "telefono" := Some "02 234-5678" ]}.

Definition archivo_validado : datos_archivo :=
  {| fd_codigo_proceso := Some "PROC-001";
     fd_contratista_data := Some (llm_validar (λ s, Some s) datos_crudos_ejemplo);
     fd_file_name := Some "PROC-001.txt" |}.

(** ** Selection of the pending files (filter_processed, lines 2186-2334) *)

(** One value of [codigos_proceso_map], and one element of the list the
    task returns. *)
Record info_archivo := {
  fi_file_path : string;
  fi_file_name : string;
  fi_codigo_proceso : string;
}.

(** What the task takes from outside its text: [Path(p).name], the code
    extractor of include/etl_utils.py (a cascade of regular expressions
    run on the upper-cased stem), and the constant [BATCH_SIZE], read from
    the environment as an integer. *)
Record ajustes := {
  nombre_de : string → string;
  extract_codigo_proceso_from_filename : string → string;
  BATCH_SIZE : Z;
}.

(** [d[k] = v] on a [dict], which keeps insertion order: a key already
    present keeps its place and takes the new value. *)
Fixpoint dict_poner {A} (k : string) (v : A) (d : list (string * A))
  : list (string * A) :=
  match d with
  | [] => [(k, v)]
  | (k', v') :: r =>
      if decide (k = k') then (k, v) :: r else (k', v') :: dict_poner k v r
  end.

Definition info_de (aj : ajustes) (file_path : string) : info_archivo :=
  let file_name := nombre_de aj file_path in
  {| fi_file_path := file_path;
     fi_file_name := file_name;
     fi_codigo_proceso := extract_codigo_proceso_from_filename aj file_name |}.

(** Body of the first loop (lines 2208-2216). *)
Definition registrar_archivo (aj : ajustes) (mapa : list (string * info_archivo))
    (file_path : string) : list (string * info_archivo) :=
  let info := info_de aj file_path in
  if verdadero (Some (fi_codigo_proceso info))
  then dict_poner (fi_codigo_proceso info) info mapa
  else mapa.

Definition codigos_proceso_map (aj : ajustes) (file_paths : list string)
  : list (string * info_archivo) :=
  foldl (registrar_archivo aj) [] file_paths.

(** [dict(zip(columnas, row[1:]))] for the row read from [f]. *)
Definition fila_dict (f : gmap string string) : gmap string (option string) :=
  list_to_map ((λ c, (c, f !! c)) <$> CONTRATISTA_FIELDS).

(** [SELECT codigo_proceso, <six fields> FROM t WHERE codigo_proceso IN
    (...)] followed by [fetchall()]: each row as its code and the
    dictionary of its six fields.  A row whose code is NULL matches no
    list. *)
Definition consultar (db : tabla) (codigos_list : list string)
  : res (list (string * gmap string (option string))) :=
  if bool_decide (Forall (λ c, c ∈ columnas db) ("codigo_proceso" :: CONTRATISTA_FIELDS))
  then
    Ok (omap (λ f : gmap string string,
                match f !! "codigo_proceso" with
                | Some codigo =>
                    if bool_decide (codigo ∈ codigos_list)
                    then Some (codigo, fila_dict f) else None
                | None => None
                end) (filas db))
  else Err (ErrorSQL "column does not exist").

(** The loop over [resultados_bd]: [datos_por_codigo], whose keys are
    [codigos_que_existen]. *)
Definition datos_por_codigo (resultados_bd : list (string * gmap string (option string)))
  : gmap string (gmap string (option string)) :=
  foldl (λ m row, <[row.1 := row.2]> m) ∅ resultados_bd.

(** Is the file kept?  Its code is in the table and the row read for it
    has neither company name nor tax id (lines 2272-2293). *)
Definition es_pendiente (datos : gmap string (gmap string (option string)))
    (item : string * info_archivo) : bool :=
  match datos !! item.1 with
  | None => false
  | Some datos_actuales =>
      forallb (λ col, sin_valor (dict_get datos_actuales col)) ["razon_social"; "ruc"]
  end.

(** [l[:n]] for any integer [n]. *)
Definition rebanar_hasta {A} (n : Z) (l : list A) : list A :=
  if (0 <=? n)%Z then take (Z.to_nat n) l
  else take (length l - Z.to_nat (- n)) l.

(** [filter_processed], from the creation of the hook on; [conexion] is
    the outcome of [hook.get_conn()].  Any exception raised inside the
    [try] makes every file with a code pending. *)
Definition filter_processed (aj : ajustes) (conexion : res tabla)
    (file_paths : list string) : list info_archivo :=
  match file_paths with
  | [] => []
  | _ =>
      let mapa := codigos_proceso_map aj file_paths in
      match mapa with
      | [] => []
      | _ =>
          let codigos_list := mapa.*1 in
          let archivos_pendientes :=
            match (db ←r conexion; consultar db codigos_list) with
            | Ok resultados_bd =>
                (List.filter (es_pendiente (datos_por_codigo resultados_bd)) mapa).*2
            | Err _ => mapa.*2
            end in
          if (BATCH_SIZE aj <? Z.of_nat (length archivos_pendientes))%Z
          then rebanar_hasta (BATCH_SIZE aj) archivos_pendientes
          else archivos_pendientes
      end
  end.

(** Settings to run the model with: a path stands for its own name, and
    the name is the code. *)
Definition ajustes_ejemplo : ajustes :=
  {| nombre_de := λ p, p;
     extract_codigo_proceso_from_filename := λ n, n;
     BATCH_SIZE := 200 |}.

(** What holds of [codigos_proceso_map] while it is built from
    [file_paths]: each code once, and under each code the information of a
    path of the list that yields this code, which is not empty. *)
Definition mapa_bueno (aj : ajustes) (file_paths : list string)
    (mapa : list (string * info_archivo)) : Prop :=
  NoDup (mapa.*1)
  ∧ ∀ k v, (k, v) ∈ mapa →
      k = fi_codigo_proceso v ∧ k ≠ EmptyString
      ∧ ∃ p, p ∈ file_paths ∧ v = info_de aj p.

(** A table and a list of paths to run the selection on. *)
Definition tabla_pendientes : tabla :=
  {| columnas := list_to_set ("codigo_proceso" :: CONTRATISTA_FIELDS);
     filas := [ {[ "codigo_proceso" := "PROC-001"; "razon_social" := "ACME S.A." ]};
                {[ "codigo_proceso" := "PROC-002"; "telefono" := "022345678" ]} ] |}.

Definition rutas_ejemplo : list string := ["PROC-001"; "PROC-002"; "PROC-003"; "PROC-002"].

(** ** Persistence: the columns a statement may assign *)




(** ** Phones found in a text (collect_phones_from_text, lines 227-240) *)

(** [re.findall(patron, texto, flags)] for a pattern with one group: the
    text of the group in each match.  As with [finditer], the engine is an
    argument; the patterns are quoted as they stand in the Python file. *)
Definition motor_grupos : Type := string → string → list string.

Definition PATRON_TELEFONO_ROTULADO : string :=
  "(?:Tel[ée]fonos?|Tel[ée]fono|Cel(?:ular)?|Contacto)?\s*[:\-]?\s*((?:\+593|0)[\d\s().-]{7,})".

Definition PATRON_TELEFONO_SUELTO : string :=
  "(?:^|\b)(\+593[\d\s().-]{7,}|09[\d\s().-]{8,}|0[2-7][\d\s().-]{7,})(?:\b|$)".

(** [matches + loose] *)
Definition candidatos_telefono (findall_ci findall : motor_grupos) (texto : string)
  : list string :=
  findall_ci PATRON_TELEFONO_ROTULADO texto ++ findall PATRON_TELEFONO_SUELTO texto.

(** [findall_ci] is the engine under [re.IGNORECASE], [findall] the engine
    without flags. *)
Definition collect_phones_from_text (findall_ci findall : motor_grupos)
    (texto : string) : list string :=
  if negb (verdadero (Some texto)) then []
  else
    let candidatos := candidatos_telefono findall_ci findall texto in
    dedup ((λ item, normalize_phone (Some item))
             <$> List.filter (λ item, verdadero (normalize_phone (Some item))) candidatos).

(** An engine to run the model with: it reports the whole text once,
    whatever the pattern. *)
Definition motor_grupos_ejemplo : motor_grupos := λ _ t, [t].
(* ===================================================================== *)
(** * Part II. Properties                                                  *)
(* ===================================================================== *)

(** A fact about one character is settled by running through the 256 of
    them. *)
Ltac por_caracter c :=
  destruct c as [[] [] [] [] [] [] [] []]; vm_compute; intros;
  try split_and!; congruence.

(** ** Normalizer *)

Lemma car_eqb_eq a b : car_eqb a b = true ↔ a = b.
Proof. unfold car_eqb. apply Ascii.eqb_eq. Qed.

Lemma car_eqb_neq a b : car_eqb a b = false ↔ a ≠ b.
Proof. unfold car_eqb. apply Ascii.eqb_neq. Qed.

Lemma app_vacia_l s : EmptyString +:+ s = s.
Proof. reflexivity. Qed.

Lemma app_cons c r s : String c r +:+ s = String c (r +:+ s).
Proof. reflexivity. Qed.

Lemma cabeza_sub_saltos s : cabeza (sub_saltos s) = cabeza s.
Proof.
  induction s as [|c r IH]; [done|].
  simpl. destruct (car_eqb c LF && empieza_2lf r) eqn:E; [|done].
  apply andb_true_iff in E as [Hc Hr]. apply car_eqb_eq in Hc as ->.
  rewrite IH. destruct r as [|a r']; [done|]. simpl in Hr.
  destruct r'; [done|]. apply andb_true_iff in Hr as [Ha _].
  apply car_eqb_eq in Ha as ->. done.
Qed.

Lemma todos_sub_saltos f s : todos f s = true → todos f (sub_saltos s) = true.
Proof.
  induction s as [|c r IH]; [done|]. simpl. intros [Hc Hr]%andb_true_iff.
  destruct (car_eqb c LF && empieza_2lf r); simpl; [auto|].
  rewrite Hc. simpl. auto.
Qed.

Lemma todos_sub_espacios f s :
  f SP = true → todos f s = true → todos f (sub_espacios s) = true.
Proof.
  intros Hsp. induction s as [|c r IH]; [done|]. simpl.
  intros [Hc Hr]%andb_true_iff. specialize (IH Hr).
  destruct (es_sp_tab c).
  - destruct r as [|c' r']; [simpl; by rewrite Hsp|].
    destruct (es_sp_tab c'); [done|]. cbn [todos]. by rewrite Hsp, IH.
  - cbn [todos]. by rewrite Hc, IH.
Qed.

Lemma todos_reemplazar_sp f a s :
  f SP = true → todos f s = true →
  todos f (reemplazar a (String SP EmptyString) s) = true.
Proof.
  intros Hsp. induction s as [|c r IH]; [done|]. simpl.
  intros [Hc Hr]%andb_true_iff. destruct (car_eqb c a).
  - rewrite app_cons, app_vacia_l. simpl. rewrite Hsp. auto.
  - simpl. rewrite Hc. auto.
Qed.

Lemma sin_car_reemplazar_vacio a s :
  todos (no_es a) (reemplazar a EmptyString s) = true.
Proof.
  induction s as [|c r IH]; [done|]. simpl.
  destruct (car_eqb c a) eqn:E; [by rewrite app_vacia_l|].
  simpl. unfold no_es at 1. by rewrite E.
Qed.

Lemma sin_tab_reemplazar s :
  todos (no_es TAB) (reemplazar TAB (String SP EmptyString) s) = true.
Proof.
  induction s as [|c r IH]; [done|]. simpl.
  destruct (car_eqb c TAB) eqn:E.
  - by rewrite app_cons, app_vacia_l.
  - simpl. unfold no_es at 1. by rewrite E.
Qed.

Lemma cabeza_sub_espacios s :
  cabeza (sub_espacios s) =
  match cabeza s with
  | Some c => Some (if es_sp_tab c then SP else c)
  | None => None
  end.
Proof.
  induction s as [|c r IH]; [done|]. simpl.
  destruct (es_sp_tab c) eqn:E; [|done].
  destruct r as [|c' r']; [done|].
  destruct (es_sp_tab c') eqn:E'; [|done].
  rewrite IH. simpl. by rewrite E'.
Qed.

Lemma es_sp_tab_SP : es_sp_tab SP = true.
Proof. reflexivity. Qed.

Lemma sin_dobles_sub_espacios s : sin_dobles (sub_espacios s) = true.
Proof.
  induction s as [|c r IH]; [done|]. simpl.
  destruct (es_sp_tab c) eqn:E.
  - destruct r as [|c' r']; [done|].
    destruct (es_sp_tab c') eqn:E'; [done|].
    cbn [sin_dobles]. rewrite IH, andb_true_r.
    pose proof (cabeza_sub_espacios (String c' r')) as Hh.
    destruct (sub_espacios (String c' r')) as [|d t]; [done|].
    cbn [cabeza] in Hh. rewrite E' in Hh. injection Hh as ->. by rewrite E'.
  - cbn [sin_dobles]. by rewrite E, IH.
Qed.

Lemma sin_dobles_sub_saltos s :
  sin_dobles s = true → sin_dobles (sub_saltos s) = true.
Proof.
  induction s as [|c r IH]; [done|]. cbn [sin_dobles sub_saltos].
  intros [Hc Hr]%andb_true_iff. specialize (IH Hr).
  destruct (car_eqb c LF && empieza_2lf r); [done|].
  cbn [sin_dobles]. rewrite IH, andb_true_r.
  pose proof (cabeza_sub_saltos r) as Hh.
  destruct (sub_saltos r), r; simpl in Hh; try done; by injection Hh as ->.
Qed.

Lemma empieza_2lf_sub_saltos s :
  empieza_2lf (sub_saltos s) = true → empieza_2lf s = true.
Proof.
  destruct s as [|a r]; [done|]. cbn [sub_saltos].
  destruct (car_eqb a LF && empieza_2lf r) eqn:E.
  - intros _. apply andb_true_iff in E as [Ha Hr]. simpl.
    destruct r as [|b r']; [done|]. simpl in Hr. destruct r'; [done|].
    apply andb_true_iff in Hr as [Hb _]. by rewrite Ha, Hb.
  - simpl. pose proof (cabeza_sub_saltos r) as Hh.
    destruct (sub_saltos r) as [|b t]; [done|].
    destruct r as [|b' r']; [done|]. simpl in Hh. injection Hh as ->.
    intros [Ha Hb]%andb_true_iff. by rewrite Ha, Hb.
Qed.

Lemma sin_triples_sub_saltos s : sin_triples (sub_saltos s) = true.
Proof.
  induction s as [|c r IH]; [done|]. cbn [sub_saltos].
  destruct (car_eqb c LF && empieza_2lf r) eqn:E; [done|].
  cbn [sin_triples]. rewrite IH, andb_true_r.
  destruct (car_eqb c LF) eqn:Ec; [|done]. simpl in E. simpl.
  destruct (empieza_2lf (sub_saltos r)) eqn:E2; [|done].
  apply empieza_2lf_sub_saltos in E2. congruence.
Qed.

Lemma reemplazar_id a b s : todos (no_es a) s = true → reemplazar a b s = s.
Proof.
  induction s as [|c r IH]; [done|]. simpl. unfold no_es at 1.
  intros [Hc Hr]%andb_true_iff. apply negb_true_iff in Hc. rewrite Hc.
  by rewrite IH.
Qed.

Lemma sub_espacios_id s :
  todos (no_es TAB) s = true → sin_dobles s = true → sub_espacios s = s.
Proof.
  induction s as [|c r IH]; [done|]. cbn [todos sin_dobles sub_espacios].
  intros [Hc Hr]%andb_true_iff [Hd Hs]%andb_true_iff.
  rewrite (IH Hr Hs). destruct (es_sp_tab c) eqn:E; [|done].
  assert (c = SP) as ->.
  { unfold es_sp_tab in E. apply orb_true_iff in E as [E|E].
    - by apply car_eqb_eq in E.
    - unfold no_es in Hc. by rewrite E in Hc. }
  destruct r as [|c' r']; [done|]. simpl in Hd.
  apply negb_true_iff in Hd. by rewrite Hd.
Qed.

Lemma sub_saltos_id s : sin_triples s = true → sub_saltos s = s.
Proof.
  induction s as [|c r IH]; [done|]. cbn [sin_triples sub_saltos].
  intros [Hc Hr]%andb_true_iff. apply negb_true_iff in Hc.
  by rewrite Hc, IH.
Qed.

Lemma normalizar_sin_cr x : todos (no_es CR) (normalizar x) = true.
Proof.
  unfold normalizar. apply todos_sub_saltos, todos_sub_espacios; [done|].
  apply todos_reemplazar_sp; [done|]. apply sin_car_reemplazar_vacio.
Qed.

Lemma normalizar_sin_tab x : todos (no_es TAB) (normalizar x) = true.
Proof.
  unfold normalizar. apply todos_sub_saltos, todos_sub_espacios; [done|].
  apply sin_tab_reemplazar.
Qed.

Lemma normalizar_sin_dobles x : sin_dobles (normalizar x) = true.
Proof. unfold normalizar. apply sin_dobles_sub_saltos, sin_dobles_sub_espacios. Qed.

Lemma normalizar_sin_triples x : sin_triples (normalizar x) = true.
Proof. unfold normalizar. apply sin_triples_sub_saltos. Qed.

(** C9. The Normalizer is idempotent: normalizing an already normalized
    text changes nothing, for every input text. *)
Theorem normalizar_idempotente (x : string) :
  normalizar (normalizar x) = normalizar x.
Proof.
  set (y := normalizar x).
  assert (Hcr : todos (no_es CR) y = true) by apply normalizar_sin_cr.
  assert (Htab : todos (no_es TAB) y = true) by apply normalizar_sin_tab.
  assert (Hd : sin_dobles y = true) by apply normalizar_sin_dobles.
  assert (Ht : sin_triples y = true) by apply normalizar_sin_triples.
  unfold normalizar at 1.
  rewrite (reemplazar_id CR _ y Hcr), (reemplazar_id TAB _ y Htab).
  rewrite (sub_espacios_id y Htab Hd). by apply sub_saltos_id.
Qed.

Lemma filtrar_reemplazar_vacio p a s :
  p a = false → filtrar p (reemplazar a EmptyString s) = filtrar p s.
Proof.
  intros Ha. induction s as [|c r IH]; [done|]. simpl.
  destruct (car_eqb c a) eqn:E.
  - apply car_eqb_eq in E as ->. by rewrite app_vacia_l, Ha.
  - simpl. by rewrite IH.
Qed.

Lemma filtrar_reemplazar_sp p a s :
  p a = false → p SP = false →
  filtrar p (reemplazar a (String SP EmptyString) s) = filtrar p s.
Proof.
  intros Ha Hsp. induction s as [|c r IH]; [done|]. simpl.
  destruct (car_eqb c a) eqn:E.
  - apply car_eqb_eq in E as ->. rewrite app_cons, app_vacia_l. simpl.
    by rewrite Ha, Hsp.
  - simpl. by rewrite IH.
Qed.

Lemma es_sp_tab_casos c : es_sp_tab c = true → c = SP ∨ c = TAB.
Proof.
  unfold es_sp_tab. intros [E|E]%orb_true_iff; apply car_eqb_eq in E; auto.
Qed.

Lemma filtrar_sub_espacios p s :
  p SP = false → p TAB = false → filtrar p (sub_espacios s) = filtrar p s.
Proof.
  intros Hsp Htab. induction s as [|c r IH]; [done|]. cbn [sub_espacios filtrar].
  destruct (es_sp_tab c) eqn:E.
  - assert (p c = false) as -> by (apply es_sp_tab_casos in E as [->| ->]; done).
    destruct r as [|c' r']; [simpl; by rewrite Hsp|].
    destruct (es_sp_tab c'); [done|]. cbn [filtrar]. by rewrite Hsp, IH.
  - cbn [filtrar]. by rewrite IH.
Qed.

Lemma filtrar_sub_saltos p s :
  p LF = false → filtrar p (sub_saltos s) = filtrar p s.
Proof.
  intros Hlf. induction s as [|c r IH]; [done|]. cbn [sub_saltos filtrar].
  destruct (car_eqb c LF && empieza_2lf r) eqn:E.
  - apply andb_true_iff in E as [->%car_eqb_eq _]. by rewrite Hlf.
  - cbn [filtrar]. by rewrite IH.
Qed.

Lemma normalizar_conserva p x :
  p SP = false → p TAB = false → p CR = false → p LF = false →
  filtrar p (normalizar x) = filtrar p x.
Proof.
  intros Hsp Htab Hcr Hlf. unfold normalizar.
  rewrite filtrar_sub_saltos, filtrar_sub_espacios by done.
  rewrite filtrar_reemplazar_sp by done. by apply filtrar_reemplazar_vacio.
Qed.

Lemma reemplazar_vacio_solo a s :
  reemplazar a EmptyString s = EmptyString → todos (λ c, car_eqb c a) s = true.
Proof.
  induction s as [|c r IH]; [done|]. simpl.
  destruct (car_eqb c a); [|done]. by rewrite app_vacia_l.
Qed.

(** Only a text made of carriage returns normalizes to the empty text. *)
Lemma normalizar_vacia x :
  normalizar x = EmptyString → todos (λ c, car_eqb c CR) x = true.
Proof.
  unfold normalizar. intros H. apply reemplazar_vacio_solo.
  assert (H1 : cabeza (sub_espacios (reemplazar TAB (String SP EmptyString)
                 (reemplazar CR EmptyString x))) = None).
  { by rewrite <- cabeza_sub_saltos, H. }
  rewrite cabeza_sub_espacios in H1.
  destruct (reemplazar CR EmptyString x) as [|c r]; [done|].
  simpl in H1. destruct (car_eqb c TAB); by rewrite ?app_cons in H1.
Qed.

(** C8, as stated, fails: a carriage return is deleted, not turned into a
    blank.  On "a", CR, "b" the code yields "ab" where the transform worded
    by the specification yields "a b". *)
Lemma normalizar_cr_contraejemplo :
  normalizar (String "a" (String CR "b")) = "ab"
  ∧ normalizar_spec (String "a" (String CR "b")) = "a b"
  ∧ normalizar (String "a" (String CR "b"))
    ≠ normalizar_spec (String "a" (String CR "b")).
Proof. repeat split; [reflexivity..|discriminate]. Qed.

(** C8, amended.  For every raw text the Normalizer deletes carriage
    returns and turns tabs into blanks (the output holds neither), leaves no
    two adjacent blanks and no three consecutive line feeds, keeps every
    non-whitespace character in order, and equals the transform worded by
    the specification applied to the text with its carriage returns
    deleted. *)
Theorem normalizar_correcto (x : string) :
  todos (no_es TAB) (normalizar x) = true
  ∧ todos (no_es CR) (normalizar x) = true
  ∧ sin_dobles (normalizar x) = true
  ∧ sin_triples (normalizar x) = true
  ∧ filtrar (λ c, negb (es_espacio c)) (normalizar x)
    = filtrar (λ c, negb (es_espacio c)) x
  ∧ normalizar x = normalizar_spec (reemplazar CR EmptyString x).
Proof.
  split_and!.
  - apply normalizar_sin_tab.
  - apply normalizar_sin_cr.
  - apply normalizar_sin_dobles.
  - apply normalizar_sin_triples.
  - by apply normalizar_conserva.
  - unfold normalizar, normalizar_spec.
    by rewrite (reemplazar_id CR (String SP EmptyString)
                  (reemplazar CR EmptyString x) (sin_car_reemplazar_vacio CR x)).
Qed.

(** ** Merge of extraction results *)

Lemma con_valor_vacio v : con_valor v = negb (vacio v).
Proof. unfold con_valor, vacio. by destruct (verdadero v), (es_marcador_nulo v). Qed.

Lemma dict_get_insert (d : gmap string (option string)) k k' v :
  dict_get (<[k:=v]> d) k' = if decide (k = k') then v else dict_get d k'.
Proof.
  unfold dict_get. rewrite lookup_insert. by destruct (decide (k = k')).
Qed.

Lemma dict_get_fusionar_campo nuevo res c k :
  dict_get (fusionar_campo nuevo res c) k =
  if decide (c = k) then fusion_valor (dict_get res k) (dict_get nuevo k)
  else dict_get res k.
Proof.
  unfold fusionar_campo, fusion_valor.
  destruct (decide (c = k)) as [->|Hne].
  - destruct (vacio (dict_get res k) && con_valor (dict_get nuevo k)).
    + rewrite dict_get_insert. by case_decide.
    + by destruct (con_valor (dict_get res k)).
  - destruct (vacio (dict_get res c) && con_valor (dict_get nuevo c)).
    + rewrite dict_get_insert. by case_decide.
    + by destruct (con_valor (dict_get res c)).
Qed.

Lemma dict_get_fusionar_lista nuevo l : ∀ res k,
  NoDup l →
  dict_get (foldl (fusionar_campo nuevo) res l) k =
  if decide (k ∈ l) then fusion_valor (dict_get res k) (dict_get nuevo k)
  else dict_get res k.
Proof.
  induction l as [|c l IH]; intros res k Hnd.
  - done.
  - apply NoDup_cons in Hnd as [Hc Hl]. simpl. rewrite IH by done.
    rewrite !dict_get_fusionar_campo.
    destruct (decide (c = k)) as [->|Hne].
    + destruct (decide (k ∈ l)); [done|].
      destruct (decide (k ∈ k :: l)) as [|Hn]; [done|].
      exfalso. apply Hn, elem_of_cons; auto.
    + destruct (decide (k ∈ l)) as [Hin|Hnin];
        destruct (decide (k ∈ c :: l)) as [Hin'|Hnin']; try done.
      * exfalso. apply Hnin', elem_of_cons; auto.
      * apply elem_of_cons in Hin' as [?|?]; congruence.
Qed.

Lemma CONTRATISTA_FIELDS_NoDup : NoDup CONTRATISTA_FIELDS.
Proof. compute_done. Qed.

Lemma dict_get_fusionar_resultados base nuevo campo :
  campo ∈ CONTRATISTA_FIELDS →
  dict_get (fusionar_resultados base nuevo) campo =
  fusion_valor (dict_get base campo) (dict_get nuevo campo).
Proof.
  intros Hin. unfold fusionar_resultados.
  rewrite dict_get_fusionar_lista by apply CONTRATISTA_FIELDS_NoDup.
  by case_decide.
Qed.

Lemma fusionar_chunks_fijo campo : ∀ parciales acc,
  campo ∈ CONTRATISTA_FIELDS →
  vacio (dict_get acc campo) = false →
  dict_get (foldl fusionar_resultados acc parciales) campo = dict_get acc campo.
Proof.
  induction parciales as [|p ps IH]; intros acc Hin Hv; [done|].
  simpl. rewrite IH; [| done |].
  - rewrite dict_get_fusionar_resultados by done.
    unfold fusion_valor. by rewrite Hv.
  - rewrite dict_get_fusionar_resultados by done.
    unfold fusion_valor. by rewrite Hv.
Qed.

Lemma fusionar_chunks_vacios campo : ∀ antes acc,
  campo ∈ CONTRATISTA_FIELDS →
  Forall (λ p, vacio (dict_get p campo) = true) antes →
  dict_get (foldl fusionar_resultados acc antes) campo = dict_get acc campo.
Proof.
  induction antes as [|p ps IH]; intros acc Hin Hall; [done|].
  apply Forall_cons in Hall as [Hp Hps]. simpl. rewrite IH by done.
  rewrite dict_get_fusionar_resultados by done.
  unfold fusion_valor. rewrite con_valor_vacio, Hp. simpl.
  by rewrite andb_false_r.
Qed.

Lemma dict_get_resultado_inicial campo : dict_get resultado_inicial campo = None.
Proof.
  unfold dict_get. destruct (resultado_inicial !! campo) as [v|] eqn:E; [|done].
  unfold resultado_inicial in E. apply elem_of_list_to_map_2 in E.
  apply list_elem_of_fmap in E as (c & [= _ ->] & _). done.
Qed.

(** C3. For each of the six fields: a non-empty accumulator value is kept
    by [fusionar_resultados]; an empty one is replaced by a non-empty
    value of the new result; hence in the left-to-right fold over the
    chunks a field that is set stays as it is whatever follows, and the
    final value of a field is that of the first chunk supplying a
    non-empty one. *)
Theorem fusionar_resultados_primero_gana (campo : string)
    (base nuevo : gmap string (option string)) :
  campo ∈ CONTRATISTA_FIELDS →
  (vacio (dict_get base campo) = false →
     dict_get (fusionar_resultados base nuevo) campo = dict_get base campo)
  ∧ (vacio (dict_get base campo) = true →
     vacio (dict_get nuevo campo) = false →
     dict_get (fusionar_resultados base nuevo) campo = dict_get nuevo campo)
  ∧ (∀ posteriores,
       vacio (dict_get base campo) = false →
       dict_get (foldl fusionar_resultados base posteriores) campo
       = dict_get base campo)
  ∧ (∀ antes r despues,
       Forall (λ p, vacio (dict_get p campo) = true) antes →
       vacio (dict_get r campo) = false →
       dict_get (fusionar_chunks (antes ++ r :: despues)) campo
       = dict_get r campo).
Proof.
  intros Hin. split_and!.
  - intros Hv. rewrite dict_get_fusionar_resultados by done.
    unfold fusion_valor. by rewrite Hv.
  - intros Hb Hn. rewrite dict_get_fusionar_resultados by done.
    unfold fusion_valor. by rewrite con_valor_vacio, Hb, Hn.
  - intros ps Hv. by apply fusionar_chunks_fijo.
  - intros antes r despues Hall Hr. unfold fusionar_chunks.
    rewrite foldl_app. simpl.
    assert (Hset : dict_get (fusionar_resultados
                     (foldl fusionar_resultados resultado_inicial antes) r) campo
                   = dict_get r campo).
    { rewrite dict_get_fusionar_resultados by done.
      rewrite fusionar_chunks_vacios by done.
      rewrite dict_get_resultado_inicial. unfold fusion_valor.
      by rewrite con_valor_vacio, Hr. }
    rewrite fusionar_chunks_fijo; [done|done|]. by rewrite Hset.
Qed.

(** The theorem at work on three chunks: the second chunk is the first to
    give a tax id, the third one gives another and is ignored. *)
Lemma fusionar_resultados_primero_gana_testigo :
  "ruc" ∈ CONTRATISTA_FIELDS
  ∧ dict_get (fusionar_chunks
       ([ {[ "ruc" := Some "null" ]} ] ++
        {[ "ruc" := Some "1790012345001" ]} ::
        [ ({[ "ruc" := Some "0990000000001" ]} : gmap string (option string)) ]))
      "ruc"
    = Some "1790012345001".
Proof.
  assert (Hin : "ruc" ∈ CONTRATISTA_FIELDS) by compute_done.
  split; [exact Hin|].
  destruct (fusionar_resultados_primero_gana "ruc" ∅ ∅ Hin) as (_ & _ & _ & H).
  rewrite (H [ {[ "ruc" := Some "null" ]} ] {[ "ruc" := Some "1790012345001" ]}
             [ {[ "ruc" := Some "0990000000001" ]} ]).
  - reflexivity.
  - repeat constructor.
  - reflexivity.
Defined.

(** ** Phone numbers *)

Example normalize_phone_ej1 :
  normalize_phone (Some "022345678 / 0991234567") = Some "0991234567".
Proof. reflexivity. Qed.

Example normalize_phone_ej2 :
  normalize_phone (Some "+593 99 123 4567 ext. 12") = Some "0991234567".
Proof. reflexivity. Qed.

Example normalize_phone_ej3 :
  normalize_phone (Some "(02) 234-5678, 023456789") = Some "022345678".
Proof. reflexivity. Qed.

Example normalize_phone_ej4 : normalize_phone (Some "1234") = None.
Proof. reflexivity. Qed.

Example normalize_phone_ej5 :
  normalize_phone (Some "09/91234567") = Some "0991234567".
Proof. reflexivity. Qed.

Example split_telefonos_ej :
  split_telefonos "a , , b /c" = ["a"; ""; "b"; "c"].
Proof. reflexivity. Qed.

Lemma app_asoc a b c : (a +:+ b) +:+ c = a +:+ (b +:+ c).
Proof. induction a as [|x a IH]; [done|]. by rewrite !app_cons, IH. Qed.

Lemma app_vacia_r a : a +:+ EmptyString = a.
Proof. induction a as [|x a IH]; [done|]. by rewrite app_cons, IH. Qed.

Lemma car_eqb_refl a : car_eqb a a = true.
Proof. by apply car_eqb_eq. Qed.

Lemma es_celular_forma p : es_celular p = true ↔ forma_celular p.
Proof.
  unfold es_celular, forma_celular. split.
  - intros [[Hl Hp]%andb_true_iff Hd]%andb_true_iff.
    destruct p as [|a [|b d]]; try done. simpl in Hp.
    apply andb_true_iff in Hp as [Ha [Hb _]%andb_true_iff].
    apply car_eqb_eq in Ha as <-. apply car_eqb_eq in Hb as <-.
    exists d. split; [done|]. apply Nat.eqb_eq in Hl. simpl in Hl, Hd.
    split; [lia|done].
  - intros (d & -> & Hl & Hd). cbn [String.length empieza_con todos].
    rewrite Hl, Hd, !car_eqb_refl. done.
Qed.

Lemma es_fijo_forma p : es_fijo p = true ↔ forma_fijo p.
Proof.
  unfold es_fijo, forma_fijo. split.
  - intros [[[Hl Hp]%andb_true_iff Hc]%andb_true_iff Hd]%andb_true_iff.
    destruct p as [|a [|c d]]; try done. simpl in Hp.
    apply andb_true_iff in Hp as [Ha _]. apply car_eqb_eq in Ha as <-.
    exists c, d. split; [done|]. apply Nat.eqb_eq in Hl. simpl in Hl.
    cbn [todos] in Hd. apply andb_true_iff in Hd as [_ [_ Hd]%andb_true_iff].
    split; [done|]. split; [lia|done].
  - intros (c & d & -> & Hc & Hl & Hd). cbn [String.length empieza_con todos].
    rewrite Hl, Hd, Hc, !car_eqb_refl.
    assert (es_digito c = true) as ->; [|done].
    unfold es_digito, en_rango in *. apply andb_true_iff in Hc as [H1 H2].
    apply Nat.leb_le in H1, H2. apply andb_true_iff.
    split; apply Nat.leb_le; lia.
Qed.

Lemma formas_disjuntas p : forma_celular p → forma_fijo p → False.
Proof.
  intros (d & -> & Hl & _) (c & d' & [= _ ->] & _ & Hl' & _). simpl in Hl. lia.
Qed.

Lemma tipo_de_Some digits t d :
  tipo_de digits = Some (t, d) →
  d = digits ∧ (es_celular d || es_fijo d = true)
  ∧ (t = celular ↔ es_celular d = true).
Proof.
  unfold tipo_de. destruct (es_celular digits) eqn:Ec.
  - intros [= <- <-]. by rewrite Ec.
  - destruct (es_fijo digits) eqn:Ef; [|done].
    intros [= <- <-]. rewrite Ec, Ef. split_and!; [done..|]. by split.
Qed.

Lemma clasificar_Some phone t d :
  clasificar phone = Some (t, d) →
  (es_celular d || es_fijo d = true) ∧ (t = celular ↔ es_celular d = true).
Proof.
  unfold clasificar. destruct (strip phone); [done|].
  intros H%tipo_de_Some. tauto.
Qed.

Lemma normalize_phone_valido raw p :
  normalize_phone raw = Some p → es_celular p || es_fijo p = true.
Proof.
  unfold normalize_phone. destruct (negb (verdadero raw)); [done|].
  destruct (strip (default EmptyString raw)) as [|c s] eqn:Es; [done|].
  set (valid := omap clasificar (split_telefonos (String c s))).
  assert (Hvalid : ∀ t d, (t, d) ∈ valid → es_celular d || es_fijo d = true).
  { intros t d (x & _ & Hx)%list_elem_of_omap. by apply clasificar_Some in Hx as [? _]. }
  destruct (find es_tipo_celular valid) as [[t d]|] eqn:Ef.
  - intros [= <-]. apply find_some in Ef as [Hin _].
    apply (Hvalid t). by apply list_elem_of_In.
  - destruct valid as [|[t d] rest] eqn:Ev.
    + destruct (es_celular (digitos_telefono (String c s))) eqn:E1.
      { intros [= <-]. by rewrite E1. }
      destruct (es_fijo (digitos_telefono (String c s))) eqn:E2; [|done].
      intros [= <-]. by rewrite E1, E2.
    + intros [= <-]. apply (Hvalid t). apply elem_of_cons. by left.
Qed.

Lemma normalize_phone_prefiere_celular s pieza d :
  pieza ∈ split_telefonos (strip s) →
  clasificar pieza = Some (celular, d) →
  ∃ d', normalize_phone (Some s) = Some d' ∧ es_celular d' = true.
Proof.
  intros Hin Hc. unfold normalize_phone.
  destruct s as [|a s'].
  { simpl in Hin. apply list_elem_of_singleton in Hin as ->. done. }
  cbn [verdadero negb default from_option id].
  destruct (strip (String a s')) as [|c s] eqn:Es.
  { simpl in Hin. apply list_elem_of_singleton in Hin as ->. done. }
  set (valid := omap clasificar (split_telefonos (String c s))).
  assert (Hv : (celular, d) ∈ valid).
  { apply list_elem_of_omap. eauto. }
  destruct (find es_tipo_celular valid) as [[t d']|] eqn:Ef.
  - exists d'. split; [done|]. apply find_some in Ef as [Hin' Ht].
    apply list_elem_of_In, list_elem_of_omap in Hin' as (x & _ & Hx).
    apply clasificar_Some in Hx as [_ Hx]. apply Hx.
    by destruct t.
  - exfalso. apply list_elem_of_In in Hv.
    by specialize (find_none _ _ Ef _ Hv).
Qed.

Lemma digito_propiedades c :
  es_digito c = true →
  es_espacio c = false ∧ es_separador c = false ∧ no_ex c = true
  ∧ car_eqb c "+" = false.
Proof. por_caracter c. Qed.

Lemma todos_impl (f g : ascii → bool) s :
  (∀ c, f c = true → g c = true) → todos f s = true → todos g s = true.
Proof.
  intros Hfg. induction s as [|c r IH]; [done|]. simpl.
  intros [Hc Hr]%andb_true_iff. rewrite (Hfg c Hc). auto.
Qed.

Lemma todos_app f a b : todos f (a +:+ b) = todos f a && todos f b.
Proof.
  induction a as [|c a IH]; [done|]. rewrite app_cons. simpl.
  by rewrite IH, andb_assoc.
Qed.

Lemma digitos_no_espacio s : todos es_digito s = true → todos no_espacio s = true.
Proof.
  apply todos_impl. intros c Hc. unfold no_espacio.
  by destruct (digito_propiedades c Hc) as (-> & _).
Qed.

Lemma digitos_no_separador s : todos es_digito s = true → todos no_separador s = true.
Proof.
  apply todos_impl. intros c Hc. unfold no_separador.
  by destruct (digito_propiedades c Hc) as (_ & -> & _).
Qed.

Lemma digitos_no_ex s : todos es_digito s = true → todos no_ex s = true.
Proof.
  apply todos_impl. intros c Hc. by destruct (digito_propiedades c Hc) as (_ & _ & -> & _).
Qed.

Lemma filtrar_id f s : todos f s = true → filtrar f s = s.
Proof.
  induction s as [|c r IH]; [done|]. simpl.
  intros [-> Hr]%andb_true_iff. by rewrite IH.
Qed.

Lemma lstrip_id s : no_espacio <$> cabeza s ≠ Some false → lstrip s = s.
Proof.
  destruct s as [|c r]; [done|]. simpl. unfold no_espacio.
  destruct (es_espacio c); [|done]. simpl. congruence.
Qed.

Lemma lstrip_no_espacios s : todos no_espacio s = true → lstrip s = s.
Proof.
  intros H. apply lstrip_id. destruct s as [|c r]; [done|]. simpl in *.
  apply andb_true_iff in H as [-> _]. done.
Qed.

Lemma rstrip_no_espacios s : todos no_espacio s = true → rstrip s = s.
Proof.
  induction s as [|c r IH]; [done|]. simpl.
  intros [Hc Hr]%andb_true_iff. rewrite (IH Hr).
  unfold no_espacio in Hc. apply negb_true_iff in Hc. rewrite Hc.
  by destruct r.
Qed.

Lemma rstrip_app s t :
  t ≠ EmptyString → rstrip t = t → rstrip (s +:+ t) = s +:+ t.
Proof.
  intros Hne Ht. induction s as [|x s IH]; [done|].
  rewrite app_cons. simpl. rewrite IH.
  destruct (s +:+ t) eqn:E; [|done]. by destruct s, t.
Qed.

Lemma rstrip_app_sp p :
  p ≠ EmptyString → todos no_espacio p = true →
  rstrip (p +:+ String SP EmptyString) = p.
Proof.
  induction p as [|x p IH]; [done|]. intros _ [Hx Hp]%andb_true_iff.
  rewrite app_cons. simpl. unfold no_espacio in Hx. apply negb_true_iff in Hx.
  destruct p as [|y p'].
  - rewrite app_vacia_l. simpl. by rewrite Hx.
  - rewrite IH by done. done.
Qed.

Lemma strip_no_espacios s : todos no_espacio s = true → strip s = s.
Proof.
  intros H. unfold strip. rewrite lstrip_no_espacios by done.
  by apply rstrip_no_espacios.
Qed.

Lemma split_telefonos_sin_separador s : ∀ cur,
  todos no_separador s = true →
  split_telefonos_aux false cur s = [cur +:+ s].
Proof.
  induction s as [|c r IH]; intros cur.
  - intros _. simpl. by rewrite app_vacia_r.
  - simpl. intros [Hc Hr]%andb_true_iff. unfold no_separador in Hc.
    apply negb_true_iff in Hc. rewrite Hc. rewrite IH by done.
    by rewrite app_asoc.
Qed.

Lemma coincide_ext_None c r : no_ex c = true → coincide_ext (String c r) = None.
Proof.
  unfold no_ex, coincide_ext. intros [He Hx]%andb_true_iff.
  apply negb_true_iff in He, Hx.
  assert (H1 : empieza_ci "ext" (String c r) = false).
  { cbn [empieza_ci]. change (minuscula "e") with ("e"%char).
    rewrite (proj2 (car_eqb_neq _ _)); [done|].
    intros E. apply car_eqb_neq in He. congruence. }
  assert (H2 : empieza_ci "x" (String c r) = false).
  { cbn [empieza_ci]. change (minuscula "x") with ("x"%char).
    rewrite (proj2 (car_eqb_neq _ _)); [done|].
    intros E. apply car_eqb_neq in Hx. congruence. }
  by rewrite H1, H2.
Qed.

Lemma sub_ext_cons c r : no_ex c = true → sub_ext (String c r) = String c (sub_ext r).
Proof.
  intros H. change (sub_ext (String c r)) with
    (match coincide_ext (String c r) with
     | Some resto => resto
     | None => String c (sub_ext r)
     end).
  by rewrite coincide_ext_None.
Qed.

Lemma sub_ext_vacia : sub_ext EmptyString = EmptyString.
Proof. reflexivity. Qed.

Lemma sub_ext_app p t : todos no_ex p = true → sub_ext (p +:+ t) = p +:+ sub_ext t.
Proof.
  induction p as [|c p IH]; [done|]. intros [Hc Hp]%andb_true_iff.
  rewrite !app_cons, sub_ext_cons by done. by rewrite IH.
Qed.

Lemma sub_ext_id s : todos no_ex s = true → sub_ext s = s.
Proof.
  intros H. rewrite <- (app_vacia_r s) at 1. rewrite sub_ext_app by done.
  by rewrite sub_ext_vacia, app_vacia_r.
Qed.

Lemma valido_digitos p :
  es_celular p || es_fijo p = true →
  todos es_digito p = true ∧ p ≠ EmptyString ∧ empieza_con "+593" p = false.
Proof.
  intros [H|H]%orb_true_iff.
  - apply es_celular_forma in H as (d & -> & _ & Hd).
    split_and!; [|done|reflexivity]. cbn [todos]. rewrite Hd. reflexivity.
  - pose proof H as H'. apply es_fijo_forma in H' as (c & d & -> & _).
    unfold es_fijo in H. apply andb_true_iff in H as [_ H].
    split_and!; [done|done|reflexivity].
Qed.

Lemma digitos_telefono_digitos p :
  todos es_digito p = true → empieza_con "+593" p = false →
  digitos_telefono p = p.
Proof.
  intros Hd Hp. unfold digitos_telefono.
  rewrite sub_ext_id by by apply digitos_no_ex.
  rewrite strip_no_espacios by by apply digitos_no_espacio.
  unfold sub_prefijo_593. rewrite Hp. by apply filtrar_id.
Qed.

Lemma clasificar_valido p :
  es_celular p || es_fijo p = true → clasificar p = tipo_de p.
Proof.
  intros H. destruct (valido_digitos p H) as (Hd & Hne & Hp).
  unfold clasificar. rewrite strip_no_espacios by by apply digitos_no_espacio.
  destruct p; [done|]. by rewrite digitos_telefono_digitos.
Qed.

Lemma tipo_de_valido p :
  es_celular p || es_fijo p = true →
  ∃ t, tipo_de p = Some (t, p).
Proof.
  unfold tipo_de. intros H. destruct (es_celular p); [eauto|].
  simpl in H. rewrite H. eauto.
Qed.

Lemma normalize_phone_punto_fijo p :
  es_celular p || es_fijo p = true → normalize_phone (Some p) = Some p.
Proof.
  intros H. destruct (valido_digitos p H) as (Hd & Hne & Hp).
  destruct (tipo_de_valido p H) as [t Ht].
  unfold normalize_phone. destruct p as [|c r]; [done|].
  cbn [verdadero negb default from_option id].
  rewrite strip_no_espacios by by apply digitos_no_espacio.
  unfold split_telefonos.
  rewrite split_telefonos_sin_separador by by apply digitos_no_separador.
  rewrite app_vacia_l. cbn [omap list_omap]. rewrite clasificar_valido, Ht by done.
  cbn [find es_tipo_celular fst]. by destruct t.
Qed.

(** C10. [normalize_phone] is idempotent on what it accepts: whenever it
    returns a phone [p] for an input, it returns [p] again on [p]. *)
Theorem normalize_phone_idempotente (s : option string) (p : string) :
  normalize_phone s = Some p → normalize_phone (Some p) = Some p.
Proof.
  intros H. by apply normalize_phone_punto_fijo, (normalize_phone_valido s).
Qed.

Lemma normalize_phone_idempotente_testigo :
  normalize_phone (Some "Telf: (02) 234-5678 ext. 12") = Some "022345678"
  ∧ normalize_phone (Some "022345678") = Some "022345678".
Proof.
  assert (H : normalize_phone (Some "Telf: (02) 234-5678 ext. 12") = Some "022345678")
    by reflexivity.
  split; [exact H|].
  exact (normalize_phone_idempotente _ _ H).
Defined.

Lemma rstrip_cons x t :
  t ≠ EmptyString → rstrip t = t → rstrip (String x t) = String x t.
Proof. intros Hne Ht. simpl. rewrite Ht. by destruct t. Qed.

Lemma split_telefonos_aux_app p : ∀ cur resto,
  todos no_separador p = true →
  split_telefonos_aux false cur (p +:+ resto)
  = split_telefonos_aux false (cur +:+ p) resto.
Proof.
  induction p as [|c p IH]; intros cur resto.
  - intros _. by rewrite app_vacia_l, app_vacia_r.
  - intros [Hc Hp]%andb_true_iff. rewrite app_cons. simpl.
    unfold no_separador in Hc. apply negb_true_iff in Hc. rewrite Hc.
    rewrite IH by done. by rewrite app_asoc.
Qed.

Lemma saltar_digitos_todos n : todos es_digito n = true → saltar_digitos n = EmptyString.
Proof.
  induction n as [|c n IH]; [done|]. simpl. intros [-> Hn]%andb_true_iff. auto.
Qed.

Lemma tipo_de_celular b : es_celular b = true → tipo_de b = Some (celular, b).
Proof. unfold tipo_de. by intros ->. Qed.

Lemma tipo_de_fijo a : es_fijo a = true → tipo_de a = Some (fijo, a).
Proof.
  intros H. unfold tipo_de. rewrite H.
  destruct (es_celular a) eqn:E; [|done].
  exfalso. apply (formas_disjuntas a); [by apply es_celular_forma|by apply es_fijo_forma].
Qed.

Lemma es_separador_casos sep : sep = "/"%char ∨ sep = ","%char → es_separador sep = true.
Proof. by intros [-> | ->]. Qed.

(** Two numbers separated by "/" or ",": both are read, and the mobile
    one is returned although the landline comes first. *)
Lemma normalize_phone_separa a b sep :
  forma_fijo a → forma_celular b → sep = "/"%char ∨ sep = ","%char →
  normalize_phone (Some (a +:+ String SP (String sep (String SP b)))) = Some b.
Proof.
  intros Ha%es_fijo_forma Hb%es_celular_forma Hsep%es_separador_casos.
  assert (Hav : es_celular a || es_fijo a = true) by (rewrite Ha; apply orb_true_r).
  assert (Hbv : es_celular b || es_fijo b = true) by by rewrite Hb.
  destruct (valido_digitos a Hav) as (Hda & Hnea & _).
  destruct (valido_digitos b Hbv) as (Hdb & Hneb & _).
  set (s := a +:+ String SP (String sep (String SP b))).
  assert (Hs : strip s = s).
  { unfold strip. rewrite lstrip_id.
    - apply rstrip_app; [done|]. do 3 (apply rstrip_cons; [by destruct b|]).
      by apply rstrip_no_espacios, digitos_no_espacio.
    - subst s. destruct a as [|c a']; [done|]. rewrite app_cons.
      cbn [cabeza fmap option_fmap option_map]. simpl in Hda.
      apply andb_true_iff in Hda as [Hc _].
      unfold no_espacio. by destruct (digito_propiedades c Hc) as (-> & _). }
  assert (Hsplit : split_telefonos s = [a; b]).
  { unfold split_telefonos. subst s.
    change (String SP (String sep (String SP b)))
      with (String SP EmptyString +:+ String sep (String SP b)).
    rewrite <- app_asoc.
    rewrite split_telefonos_aux_app, app_vacia_l.
    2:{ rewrite todos_app, (digitos_no_separador a Hda). reflexivity. }
    cbn [split_telefonos_aux]. rewrite Hsep.
    rewrite rstrip_app_sp by (done || by apply digitos_no_espacio).
    f_equal. change (true && es_espacio SP) with true. cbn match.
    destruct b as [|c b']; [done|]. simpl in Hdb.
    apply andb_true_iff in Hdb as [Hc Hdb].
    destruct (digito_propiedades c Hc) as (Hsp & Hse & _).
    cbn [split_telefonos_aux]. rewrite Hse, Hsp. cbn [andb].
    rewrite split_telefonos_sin_separador by by apply digitos_no_separador.
    by rewrite app_vacia_l, app_cons, app_vacia_l. }
  unfold normalize_phone.
  assert (Hv : verdadero (Some s) = true) by (subst s; by destruct a).
  rewrite Hv. cbn [negb default from_option id]. rewrite Hs.
  destruct s eqn:Es; [done|]. rewrite Hsplit.
  cbn [omap list_omap]. rewrite !clasificar_valido by done.
  rewrite (tipo_de_fijo a Ha), (tipo_de_celular b Hb). reflexivity.
Qed.

(** A trailing extension is dropped. *)
Lemma normalize_phone_extension p n :
  forma_celular p ∨ forma_fijo p → n ≠ EmptyString → todos es_digito n = true →
  normalize_phone (Some (p +:+ " ext. " +:+ n)) = Some p.
Proof.
  intros Hp Hnn Hn.
  assert (Hpv : es_celular p || es_fijo p = true).
  { destruct Hp as [H%es_celular_forma|H%es_fijo_forma]; rewrite H; [done|apply orb_true_r]. }
  destruct (valido_digitos p Hpv) as (Hdp & Hnep & Hpre).
  destruct (tipo_de_valido p Hpv) as [t Ht].
  set (s := p +:+ " ext. " +:+ n).
  assert (Hs : strip s = s).
  { unfold strip. rewrite lstrip_id.
    - apply rstrip_app; [done|]. apply rstrip_app; [done|].
      by apply rstrip_no_espacios, digitos_no_espacio.
    - subst s. destruct p as [|c p']; [done|]. rewrite app_cons.
      cbn [cabeza fmap option_fmap option_map]. simpl in Hdp.
      apply andb_true_iff in Hdp as [Hc _].
      unfold no_espacio. by destruct (digito_propiedades c Hc) as (-> & _). }
  assert (Hsplit : split_telefonos s = [s]).
  { unfold split_telefonos. rewrite split_telefonos_sin_separador; [done|].
    subst s. rewrite !todos_app, (digitos_no_separador p Hdp), (digitos_no_separador n Hn).
    reflexivity. }
  assert (Hdig : digitos_telefono s = p).
  { unfold digitos_telefono. subst s.
    rewrite sub_ext_app by by apply digitos_no_ex.
    assert (Hext : sub_ext (" ext. " +:+ n) = String SP EmptyString).
    { rewrite !app_cons, app_vacia_l. rewrite sub_ext_cons by reflexivity.
      f_equal. destruct n as [|d n']; [done|]. simpl in Hn.
      apply andb_true_iff in Hn as [Hd Hn'].
      destruct (digito_propiedades d Hd) as (Hsp & _).
      change (sub_ext (String "e" (String "x" (String "t" (String "." (String " " (String d n')))))))
        with (match coincide_ext (String "e" (String "x" (String "t" (String "." (String " " (String d n')))))) with
              | Some resto => resto
              | None => String "e" (sub_ext (String "x" (String "t" (String "." (String " " (String d n'))))))
              end).
      unfold coincide_ext.
      change (empieza_ci "ext" (String "e" (String "x" (String "t" (String "." (String " " (String d n'))))))) with true.
      cbn [saltar]. change (empieza_con "." (String "." (String " " (String d n')))) with true.
      cbn iota. unfold cola_extension. cbn [lstrip]. change (es_espacio " ") with true.
      cbn iota. rewrite Hsp, Hd. cbn [saltar_digitos]. rewrite Hd.
      rewrite (saltar_digitos_todos n' Hn'). reflexivity. }
    rewrite Hext. unfold strip. rewrite lstrip_id.
    2:{ destruct p as [|c p']; [done|]. rewrite app_cons.
        cbn [cabeza fmap option_fmap option_map]. simpl in Hdp.
        apply andb_true_iff in Hdp as [Hc _].
        unfold no_espacio. by destruct (digito_propiedades c Hc) as (-> & _). }
    rewrite rstrip_app_sp by (done || by apply digitos_no_espacio).
    unfold sub_prefijo_593. rewrite Hpre. by apply filtrar_id. }
  unfold normalize_phone.
  assert (Hv : verdadero (Some s) = true) by (subst s; by destruct p).
  rewrite Hv. cbn [negb default from_option id]. rewrite Hs.
  destruct s eqn:Es; [done|]. rewrite Hsplit.
  cbn [omap list_omap]. unfold clasificar. rewrite Hs, Hdig, Ht.
  cbn [find es_tipo_celular fst]. by destruct t.
Qed.

(** The international prefix becomes the local "0". *)
Lemma normalize_phone_prefijo d :
  String.length d = 8 → todos es_digito d = true →
  normalize_phone (Some ("+593 9" +:+ d)) = Some ("09" +:+ d).
Proof.
  intros Hl Hd. rewrite !app_cons, !app_vacia_l.
  set (s := String "+" (String "5" (String "9" (String "3" (String " " (String "9" d)))))).
  assert (Hd9 : todos es_digito (String "9" d) = true) by (cbn [todos]; by rewrite Hd).
  assert (Hs : strip s = s).
  { unfold strip. rewrite lstrip_id by done. subst s.
    do 5 (apply rstrip_cons; [done|]).
    by apply rstrip_no_espacios, digitos_no_espacio. }
  assert (Hsplit : split_telefonos s = [s]).
  { unfold split_telefonos. rewrite split_telefonos_sin_separador; [done|].
    subst s. cbn [todos]. rewrite (digitos_no_separador d Hd). reflexivity. }
  assert (Hcel : es_celular (String "0" (String "9" d)) = true).
  { apply es_celular_forma. by exists d. }
  assert (Hdig : digitos_telefono s = String "0" (String "9" d)).
  { unfold digitos_telefono. rewrite sub_ext_id.
    2:{ subst s. cbn [todos]. rewrite (digitos_no_ex d Hd). reflexivity. }
    rewrite Hs. subst s. unfold sub_prefijo_593.
    change (empieza_con "+593" _) with true. cbn iota. cbn [saltar lstrip].
    change (es_espacio " ") with true. change (es_espacio "9") with false.
    cbn iota. unfold solo_digitos. rewrite filtrar_id; [done|].
    cbn [todos]. by rewrite Hd. }
  unfold normalize_phone. cbn [verdadero negb default from_option id].
  fold s. rewrite Hs. unfold s at 1. rewrite Hsplit.
  cbn [omap list_omap]. unfold clasificar. rewrite Hs. unfold s at 1.
  rewrite Hdig, (tipo_de_celular _ Hcel). reflexivity.
Qed.

(** C6. For every input, [normalize_phone] returns [None] or a string of
    exactly one of the two shapes (mobile "09" + 8 digits, landline
    "0" + [2-7] + 7 digits); whenever one of the pieces obtained by
    splitting on "/" or "," is a valid mobile number the result is a mobile
    number; two numbers separated by "/" or "," are both read and the
    mobile one wins over a landline written first; an extension suffix is
    stripped; a leading "+593" becomes a leading "0". *)
Theorem normalize_phone_correcto :
  (∀ raw, normalize_phone raw = None
          ∨ ∃ p, normalize_phone raw = Some p
                 ∧ ((forma_celular p ∧ ¬ forma_fijo p)
                    ∨ (forma_fijo p ∧ ¬ forma_celular p)))
  ∧ (∀ s pieza d,
       pieza ∈ split_telefonos (strip s) →
       clasificar pieza = Some (celular, d) →
       ∃ d', normalize_phone (Some s) = Some d' ∧ forma_celular d')
  ∧ (∀ a b sep,
       forma_fijo a → forma_celular b → sep = "/"%char ∨ sep = ","%char →
       normalize_phone (Some (a +:+ String SP (String sep (String SP b)))) = Some b)
  ∧ (∀ p n,
       forma_celular p ∨ forma_fijo p → n ≠ EmptyString → todos es_digito n = true →
       normalize_phone (Some (p +:+ " ext. " +:+ n)) = Some p)
  ∧ (∀ d,
       String.length d = 8 → todos es_digito d = true →
       normalize_phone (Some ("+593 9" +:+ d)) = Some ("09" +:+ d)).
Proof.
  split_and!.
  - intros raw. destruct (normalize_phone raw) as [p|] eqn:E; [right|by left].
    exists p. split; [done|]. apply normalize_phone_valido in E.
    apply orb_true_iff in E as [E|E].
    + apply es_celular_forma in E. left. split; [done|].
      intros H. by apply (formas_disjuntas p).
    + apply es_fijo_forma in E. right. split; [done|].
      intros H. by apply (formas_disjuntas p).
  - intros s pieza d Hin Hc.
    destruct (normalize_phone_prefiere_celular s pieza d Hin Hc) as (d' & H1 & H2).
    exists d'. split; [done|]. by apply es_celular_forma.
  - apply normalize_phone_separa.
  - apply normalize_phone_extension.
  - apply normalize_phone_prefijo.
Qed.

Lemma normalize_phone_correcto_testigo :
  forma_fijo "022345678" ∧ forma_celular "0991234567"
  ∧ normalize_phone (Some "022345678 / 0991234567") = Some "0991234567".
Proof.
  assert (Ha : forma_fijo "022345678") by (by exists "2"%char, "2345678").
  assert (Hb : forma_celular "0991234567") by (by exists "91234567").
  split_and!; [exact Ha|exact Hb|].
  destruct normalize_phone_correcto as (_ & _ & H & _).
  exact (H "022345678" "0991234567" "/"%char Ha Hb (or_introl eq_refl)).
Defined.

(** ** Tax id *)

Lemma todos_filtrar f s : todos f (filtrar f s) = true.
Proof.
  induction s as [|c r IH]; [done|]. simpl. destruct (f c) eqn:E; [|done].
  simpl. by rewrite E.
Qed.

(** What does hold of every accepted tax id: digits only, ten to thirteen
    of them, and not ten to thirteen zeros, ones or nines. *)
Lemma llm_ruc_forma ruc d :
  llm_ruc ruc = Some d →
  todos es_digito d = true
  ∧ 10 ≤ String.length d ≤ 13
  ∧ coincide_repetido "0" d = false
  ∧ coincide_repetido "1" d = false
  ∧ coincide_repetido "9" d = false.
Proof.
  unfold llm_ruc. destruct ruc as [r|]; [|done].
  destruct (verdadero (Some r) && no_es_nulo r); [|done].
  destruct (_ && _) eqn:El; [|done].
  destruct (_ || _) eqn:Er; [done|]. intros [= <-].
  apply andb_true_iff in El as [H1%Nat.leb_le H2%Nat.leb_le].
  apply orb_false_iff in Er as [[E0 E1]%orb_false_iff E9].
  split_and!; try done. apply todos_filtrar.
Qed.

(** C5 fails on the code: only runs of zeros, ones and nines are
    rejected.  The candidate made of thirteen "2" is accepted although it is
    a single repeated digit; thirteen "0" are rejected. *)
Theorem llm_ruc_acepta_repetido :
  llm_ruc (Some "2222222222222") = Some "2222222222222"
  ∧ un_solo_digito "2222222222222"
  ∧ llm_ruc (Some "0000000000000") = None.
Proof.
  split_and!; [reflexivity| |reflexivity].
  exists "2"%char. split; reflexivity.
Qed.

(** ** Representative name *)

Example validar_representante_ej1 :
  validar_representante (Some "Juan Carlos Mendoza") = true.
Proof. reflexivity. Qed.

Example validar_representante_ej2 :
  validar_representante (Some "  ing. Juan Mendoza ") = true.
Proof. reflexivity. Qed.

Example validar_representante_ej3 :
  validar_representante (Some "Dra. Ana Maria Paz-mora") = true
  ∧ validar_representante (Some "Dra. Ana Lucia Paz-Mora") = false.
Proof. split; reflexivity. Qed.

Example validar_representante_ej4 :
  validar_representante (Some "Ing.Juan Mendoza") = false.
Proof. reflexivity. Qed.

Example validar_representante_ej5 :
  validar_representante (Some "Pedro Director Ruiz") = false.
Proof. reflexivity. Qed.

Example validar_representante_ej6 :
  validar_representante (Some "Josep Mendoza") = false.
Proof. reflexivity. Qed.

Example quitar_titulo_ej :
  quitar_titulo "DRA.  Ana Paz" = "Ana Paz" ∧ quitar_titulo "Sr Ana" = "Ana"
  ∧ quitar_titulo "Sra.Ana Paz" = "Sra.Ana Paz".
Proof. repeat split. Qed.









Lemma existsb_false {A} (f : A → bool) (l : list A) :
  existsb f l = false ↔ ∀ x, x ∈ l → f x = false.
Proof.
  induction l as [|a l IH]; simpl.
  - split; [|done]. intros _ x Hx. by apply elem_of_nil in Hx.
  - rewrite orb_false_iff, IH. split.
    + intros [Ha Hl] x [->|Hx]%elem_of_cons; auto.
    + intros H. split; [apply H; by left|]. intros x Hx. apply H. by right.
Qed.





(** ** Block isolator *)

Lemma length_tomar n s : String.length (tomar n s) = Nat.min n (String.length s).
Proof.
  revert s. induction n as [|n IH]; intros [|c r]; simpl; try done.
  by rewrite IH.
Qed.

Lemma length_saltar n s : String.length (saltar n s) = String.length s - n.
Proof.
  revert s. induction n as [|n IH]; intros [|c r]; simpl; try done.
Qed.

Lemma length_rebanada i j s :
  j ≤ String.length s → String.length (rebanada i j s) = j - i.
Proof. intros H. unfold rebanada. rewrite length_tomar, length_saltar. lia. Qed.

Lemma length_mapear f s : String.length (mapear f s) = String.length s.
Proof. induction s as [|c r IH]; [done|]. simpl. by rewrite IH. Qed.

Lemma length_vacia s : String.length s = 0 → s = EmptyString.
Proof. by destruct s. Qed.

Lemma length_app a b : String.length (a +:+ b) = String.length a + String.length b.
Proof. induction a as [|c a IH]; [done|]. rewrite app_cons. simpl. by rewrite IH. Qed.

Lemma quitar_primero_presente x l : x ∈ l → ∃ l', quitar_primero x l = Ok l'.
Proof.
  induction l as [|y r IH]; [by intros ?%elem_of_nil|].
  intros [->|Hin]%elem_of_cons; simpl.
  - rewrite decide_True by done. eauto.
  - destruct (decide (x = y)); [eauto|].
    destruct (IH Hin) as [l' ->]. simpl. eauto.
Qed.

Lemma quitar_primero_Forall (P : bloque → Prop) x l l' :
  Forall P l → quitar_primero x l = Ok l' → Forall P l'.
Proof.
  revert l'. induction l as [|y r IH]; intros l' Hl; [done|].
  apply Forall_cons in Hl as [Hy Hr]. simpl.
  destruct (decide (x = y)); [by intros [= <-]|].
  destruct (quitar_primero x r) as [l0|] eqn:E; [|done].
  simpl. intros [= <-]. constructor; [done|]. by apply IH.
Qed.

Section ListaDeBloques.

(** The engine, the normalized text and its lower-case copy are fixed
    while the matches of one document are collected. *)
Variables (finditer : motor) (texto_norm texto_lower : string).

Lemma registrar_devuelve (P : bloque → Prop) bloques inicio fin :
  Forall (es_rebanada texto_norm) bloques →
  Forall P bloques →
  admite P texto_norm inicio fin →
  ∃ l, registrar texto_norm bloques inicio fin = Ok l
       ∧ Forall (es_rebanada texto_norm) l ∧ Forall P l
       ∧ l ≠ [].
Proof.
  intros Hreb HP Hnew. unfold registrar.
  destruct (find (solapa inicio fin) bloques) as [[[ie fe] t]|] eqn:Ef.
  - apply find_some in Ef as [Hin%list_elem_of_In _].
    pose proof (proj1 (Forall_forall _ _) Hreb _ Hin) as Ht.
    pose proof (proj1 (Forall_forall _ _) HP _ Hin) as HPb.
    unfold es_rebanada in Ht. simpl in Ht. subst t.
    destruct ((inicio <? ie) || (fe <? fin)).
    + destruct (quitar_primero_presente _ _ Hin) as [l' Hl']. rewrite Hl'. simpl.
      eexists. split; [done|]. split_and!.
      * apply Forall_app. split; [by eapply quitar_primero_Forall|].
        by repeat constructor.
      * apply Forall_app. split; [by eapply quitar_primero_Forall|].
        repeat constructor. apply Hnew; [lia|lia| |].
        -- destruct (Nat.min_spec inicio ie) as [[_ ->]|[_ ->]]; [by left|].
           right. by exists (ie, fe, rebanada ie fe texto_norm).
        -- destruct (Nat.max_spec fin fe) as [[_ ->]|[_ ->]]; [|by left].
           right. by exists (ie, fe, rebanada ie fe texto_norm).
      * by destruct l'.
    + exists bloques. split_and!; try done. intros ->. by apply elem_of_nil in Hin.
  - eexists. split; [done|]. split_and!.
    + apply Forall_app. split; [done|]. by repeat constructor.
    + apply Forall_app. split; [done|]. repeat constructor.
      apply Hnew; auto.
    + by destruct bloques.
Qed.

Lemma procesar_match_Ok antes despues bs m :
  procesar_match texto_norm antes despues (Ok bs) m
  = registrar texto_norm bs (Nat.max 0 (m.1 - antes))
      (Nat.min (String.length texto_norm) (m.2 + despues)).
Proof. reflexivity. Qed.

Lemma procesar_matches_devuelve (P : bloque → Prop) antes despues ms :
  ∀ bs,
  Forall (es_rebanada texto_norm) bs → Forall P bs →
  Forall (ventana_admitida P texto_norm antes despues) ms →
  ∃ l, foldl (procesar_match texto_norm antes despues) (Ok bs) ms = Ok l
       ∧ Forall (es_rebanada texto_norm) l ∧ Forall P l
       ∧ (bs ≠ [] ∨ ms ≠ [] → l ≠ []).
Proof.
  induction ms as [|m ms IH]; intros bs Hreb HP Hms.
  - exists bs. split_and!; try done. by intros [?|?].
  - apply Forall_cons in Hms as [Hm Hms]. cbn [foldl]. rewrite procesar_match_Ok.
    destruct (registrar_devuelve P bs _ _ Hreb HP Hm)
      as (l1 & -> & Hreb1 & HP1 & Hne1).
    destruct (IH l1 Hreb1 HP1 Hms) as (l & -> & Hreb2 & HP2 & Hne2).
    exists l. split_and!; try done. intros _. apply Hne2. by left.
Qed.

Lemma buscar_bloques_aux (P : bloque → Prop) ps :
  ∀ bs,
  Forall (es_rebanada texto_norm) bs → Forall P bs →
  Forall (λ p : string * nat * nat,
            Forall (ventana_admitida P texto_norm p.1.2 p.2)
                   (finditer p.1.1 texto_lower)) ps →
  ∃ l, foldl (procesar_patron finditer texto_norm texto_lower) (Ok bs) ps = Ok l
       ∧ Forall (es_rebanada texto_norm) l ∧ Forall P l
       ∧ (bs ≠ [] ∨ Exists (λ p, finditer p.1.1 texto_lower ≠ []) ps → l ≠ []).
Proof.
  induction ps as [|[[patron antes] despues] ps IH]; intros bs Hreb HP Hps.
  - exists bs. split_and!; try done. intros [?|H]; [done|]. by apply Exists_nil in H.
  - apply Forall_cons in Hps as [Hp Hps]. simpl in Hp. cbn [foldl procesar_patron].
    destruct (procesar_matches_devuelve P antes despues _ bs Hreb HP Hp)
      as (l1 & -> & Hreb1 & HP1 & Hne1).
    destruct (IH l1 Hreb1 HP1 Hps) as (l & -> & Hreb2 & HP2 & Hne2).
    exists l. split_and!; try done.
    intros [Hbs|[Hm|Hex]%Exists_cons]; apply Hne2; auto.
Qed.

Lemma buscar_bloques_sin_matches ps : ∀ acc,
  Forall (λ p : string * nat * nat, finditer p.1.1 texto_lower = []) ps →
  foldl (procesar_patron finditer texto_norm texto_lower) acc ps = acc.
Proof.
  induction ps as [|[[patron antes] despues] ps IH]; intros acc Hps; [done|].
  apply Forall_cons in Hps as [Hp Hps]. simpl in Hp. cbn [foldl procesar_patron].
  rewrite Hp. simpl. by apply IH.
Qed.

Lemma admite_trivial inicio fin : admite (λ _, True) texto_norm inicio fin.
Proof. by intros i f _ _ _ _. Qed.

Lemma admite_acotado inicio fin :
  inicio < fin → fin ≤ String.length texto_norm →
  admite (acotado (String.length texto_norm)) texto_norm inicio fin.
Proof.
  intros Hlt Hle i f Hi Hf _ Hfin. unfold acotado. simpl. split; [lia|].
  destruct Hfin as [->|(b & [_ Hb] & <-)]; done.
Qed.

Lemma buscar_bloques_devuelve :
  ∃ l, buscar_bloques finditer texto_norm texto_lower = Ok l
       ∧ Forall (es_rebanada texto_norm) l.
Proof.
  destruct (buscar_bloques_aux (λ _, True) patrones_clave []) as (l & Hl & Hreb & _); [done|done| |eauto].
  apply Forall_forall. intros p _. apply Forall_forall. intros m _.
  apply admite_trivial.
Qed.

Lemma ventana_acotada n antes despues (m : nat * nat) :
  m.1 < m.2 → m.2 ≤ n →
  Nat.max 0 (m.1 - antes) < Nat.min n (m.2 + despues)
  ∧ Nat.min n (m.2 + despues) ≤ n.
Proof. lia. Qed.

Lemma buscar_bloques_acotados :
  (∀ p, p ∈ patrones_clave →
     Forall (λ m : nat * nat, m.1 < m.2 ∧ m.2 ≤ String.length texto_norm)
            (finditer p.1.1 texto_lower)) →
  ∃ l, buscar_bloques finditer texto_norm texto_lower = Ok l
       ∧ Forall (es_rebanada texto_norm) l
       ∧ Forall (acotado (String.length texto_norm)) l.
Proof.
  intros Hmotor.
  destruct (buscar_bloques_aux (acotado (String.length texto_norm)) patrones_clave [])
    as (l & Hl & Hreb & Hac & _); [done|done| |eauto].
  apply Forall_forall. intros p Hp. apply Forall_forall. intros m Hm.
  pose proof (proj1 (Forall_forall _ _) (Hmotor p Hp) m Hm) as [H1 H2].
  destruct (ventana_acotada (String.length texto_norm) p.1.2 p.2 m H1 H2).
  by apply admite_acotado.
Qed.

Lemma insertar_Forall (P : bloque → Prop) b l :
  P b → Forall P l → Forall P (insertar b l).
Proof.
  intros Hb. induction 1 as [|x r Hx Hr IH]; simpl; [by repeat constructor|].
  destruct (b.1.1 <=? x.1.1); by repeat constructor.
Qed.

Lemma ordenar_Forall (P : bloque → Prop) l : Forall P l → Forall P (ordenar l).
Proof.
  induction 1 as [|x r Hx Hr IH]; [done|]. simpl. by apply insertar_Forall.
Qed.

Lemma insertar_no_vacia b l : insertar b l ≠ [].
Proof. destruct l as [|x r]; simpl; [done|]. by destruct (b.1.1 <=? x.1.1). Qed.

Lemma ordenar_no_vacia l : l ≠ [] → ordenar l ≠ [].
Proof. destruct l as [|x r]; [done|]. intros _. simpl. apply insertar_no_vacia. Qed.

Lemma fusionar_cercanos_bueno fus b :
  Forall (bloque_bueno texto_norm) fus → bloque_bueno texto_norm b →
  Forall (bloque_bueno texto_norm) (fusionar_cercanos texto_norm fus b)
  ∧ fusionar_cercanos texto_norm fus b ≠ [].
Proof.
  intros Hfus Hb. destruct b as [[inicio fin] t]. unfold fusionar_cercanos.
  assert (Hdefault : Forall (bloque_bueno texto_norm) (fus ++ [(inicio, fin, t)])
                     ∧ fus ++ [(inicio, fin, t)] ≠ []).
  { split; [|by destruct fus]. apply Forall_app. split; [done|]. by apply Forall_singleton. }
  destruct (last fus) as [[[ui uf] ut]|] eqn:El; [|done].
  destruct (Z.of_nat inicio - Z.of_nat uf <? 500)%Z; [|done].
  apply last_Some in El as [l' ->]. rewrite removelast_last.
  apply Forall_app in Hfus as [Hl' Hu]. apply Forall_inv in Hu.
  destruct Hu as [[Hu1 Hu2] _]. destruct Hb as [[Hb1 Hb2] _]. simpl in *.
  split; [|by destruct l'].
  apply Forall_app. split; [done|]. apply Forall_singleton.
  split; [split; simpl; lia|done].
Qed.

Lemma fusionar_todos_buenos bs : ∀ acc,
  Forall (bloque_bueno texto_norm) acc → Forall (bloque_bueno texto_norm) bs →
  Forall (bloque_bueno texto_norm) (foldl (fusionar_cercanos texto_norm) acc bs)
  ∧ (acc ≠ [] ∨ bs ≠ [] → foldl (fusionar_cercanos texto_norm) acc bs ≠ []).
Proof.
  induction bs as [|b bs IH]; intros acc Hacc Hbs.
  - split; [done|]. by intros [?|?].
  - apply Forall_cons in Hbs as [Hb Hbs]. simpl.
    destruct (fusionar_cercanos_bueno acc b Hacc Hb) as [H1 H2].
    destruct (IH _ H1 Hbs) as [H3 H4]. split; [done|]. intros _. apply H4. by left.
Qed.

Lemma bloque_bueno_texto b :
  bloque_bueno texto_norm b → b.2 ≠ EmptyString.
Proof.
  intros [[H1 H2] Hr] E. unfold es_rebanada in Hr. rewrite E in Hr.
  pose proof (length_rebanada b.1.1 b.1.2 texto_norm H2) as Hl.
  rewrite <- Hr in Hl. simpl in Hl. lia.
Qed.

End ListaDeBloques.

Lemma unir_no_vacia sep l :
  l ≠ [] → Forall (λ t, t ≠ EmptyString) l → unir sep l ≠ EmptyString.
Proof.
  destruct l as [|x r]; [done|]. intros _ [Hx _]%Forall_cons.
  destruct r; simpl; [done|]. by destruct x.
Qed.

Lemma tomar_no_vacia n s : 0 < n → s ≠ EmptyString → tomar n s ≠ EmptyString.
Proof. destruct n; [lia|]. by destruct s. Qed.

Lemma length_lower s : String.length (lower s) = String.length s.
Proof. apply length_mapear. Qed.

Lemma truncar_acotado (n : nat) s :
  String.length (if n <? String.length s then tomar n s else s) ≤ n.
Proof.
  destruct (n <? String.length s) eqn:E.
  - rewrite length_tomar. apply Nat.le_min_l.
  - by apply Nat.ltb_ge in E.
Qed.

Lemma cota_8000_12000 : 8000 ≤ 12000.
Proof. apply Nat.leb_le. by vm_compute. Qed.

Lemma pos_8000 : 0 < 8000.
Proof. apply Nat.ltb_lt. by vm_compute. Qed.

Lemma pos_12000 : 0 < 12000.
Proof. apply Nat.ltb_lt. by vm_compute. Qed.

(** C4, as stated, fails: the isolator returns the empty string on the
    empty document (the guard at the top of the function) and on a document
    consisting of a carriage return, whose normalized text is empty so that
    no pattern can match in it.  It also returns the empty string on a
    document whose normalized text has 644 characters: the three matches
    are found in the lower-cased copy, which U+0130 has made longer, and
    their windows, (704, 644), (701, 644) and (927, 644), are empty slices
    of the normalized text. *)
Lemma pre_filtro_vacio_contraejemplo :
  pre_filtro motor_mudo EmptyString = Ok EmptyString
  ∧ pre_filtro motor_mudo (String CR EmptyString) = Ok EmptyString
  ∧ pre_filtro motor_desfase texto_desfase = Ok EmptyString
  ∧ String.length (normalizar texto_desfase) = 644
  ∧ buscar_bloques motor_desfase (normalizar texto_desfase)
      (lower (normalizar texto_desfase))
    = Ok [(704, 644, EmptyString); (701, 644, EmptyString); (927, 644, EmptyString)].
Proof. split_and!; by vm_compute. Qed.

(** C4, amended.  For every document text and every matching engine the
    Block Isolator returns a string of at most 12,000 characters; when no
    trigger pattern matches, it is exactly the first 8,000 characters of
    the normalized text; and, when the matches found in the lower-cased
    copy are ranges of the normalized text itself, it is empty only if the
    normalized text is empty, that is, only if the document is empty or
    made of carriage returns.  The condition on the matches is a hypothesis:
    it is not drawn from the length of the lower-cased copy. *)
Theorem pre_filtro_correcto (finditer : motor) (texto : string) :
  ∃ salida,
    pre_filtro finditer texto = Ok salida
    ∧ String.length salida ≤ 12000
    ∧ (Forall (λ p : string * nat * nat,
                 finditer p.1.1 (lower (normalizar texto)) = []) patrones_clave →
       salida = tomar 8000 (normalizar texto))
    ∧ (motor_en_texto finditer (normalizar texto) → salida = EmptyString →
       normalizar texto = EmptyString
       ∧ todos (λ c, car_eqb c CR) texto = true).
Proof.
  unfold pre_filtro. destruct texto as [|c0 r0].
  { exists EmptyString. split_and!; try done. apply Nat.le_0_l. }
  cbn [verdadero negb]. set (texto := String c0 r0).
  set (tn := normalizar texto). set (tl := lower tn).
  destruct (buscar_bloques_devuelve finditer tn tl) as (l & Hl & Hreb).
  rewrite Hl. cbn [res_bind].
  destruct l as [|b0 l0].
  - exists (tomar 8000 tn). split_and!; try done.
    + rewrite length_tomar. etransitivity; [apply Nat.le_min_l|apply cota_8000_12000].
    + intros _ E. assert (Hn : tn = EmptyString).
      { destruct tn as [|c r] eqn:Etn; [done|].
        by apply (tomar_no_vacia 8000 (String c r) pos_8000) in E. }
      split; [done|]. by apply normalizar_vacia.
  - assert (Hlne : b0 :: l0 ≠ []) by done.
    set (l := b0 :: l0) in *.
    set (fus := foldl (fusionar_cercanos tn) [] (ordenar l)).
    set (tf := unir SEPARADOR (snd <$> fus)).
    exists (if 12000 <? String.length tf then tomar 12000 tf else tf).
    split_and!.
    + done.
    + apply truncar_acotado.
    + intros Hnone. exfalso. unfold buscar_bloques in Hl.
      rewrite buscar_bloques_sin_matches in Hl by done.
      injection Hl as Hl. by apply Hlne.
    + intros Hmotor Evacia. exfalso. revert Evacia.
      destruct (buscar_bloques_acotados finditer tn tl Hmotor)
        as (l' & Hl' & Hreb' & Hac').
      rewrite Hl in Hl'. injection Hl' as <-.
      assert (Hbuenos : Forall (bloque_bueno tn) l).
      { apply Forall_forall. intros b Hb. split.
        - by apply (proj1 (Forall_forall _ _) Hac').
        - by apply (proj1 (Forall_forall _ _) Hreb'). }
      destruct (fusionar_todos_buenos tn (ordenar l) [] (Forall_nil_2 _)
                  (ordenar_Forall _ _ Hbuenos)) as [Hfus Hne].
      assert (Hfusne : fus ≠ []).
      { apply Hne. right. by apply ordenar_no_vacia. }
      assert (Htf : tf ≠ EmptyString).
      { apply unir_no_vacia.
        - intros E. apply fmap_nil_inv in E. done.
        - apply Forall_fmap. eapply Forall_impl; [exact Hfus|].
          intros b Hb. by apply (bloque_bueno_texto tn). }
      destruct (12000 <? String.length tf); [|done].
      apply tomar_no_vacia; [apply pos_12000|done].
Qed.

Lemma motor_inicial_en_texto t : motor_en_texto motor_inicial t.
Proof.
  intros p _. unfold motor_inicial. destruct t as [|c r]; [by apply Forall_nil_2|].
  apply Forall_singleton. simpl. lia.
Qed.

Lemma pre_filtro_correcto_testigo :
  motor_en_texto motor_inicial (normalizar "EL CONTRATISTA: Juan Mendoza")
  ∧ ∃ salida, pre_filtro motor_inicial "EL CONTRATISTA: Juan Mendoza" = Ok salida
              ∧ salida ≠ EmptyString.
Proof.
  split; [apply motor_inicial_en_texto|].
  destruct (pre_filtro_correcto motor_inicial "EL CONTRATISTA: Juan Mendoza")
    as (salida & H1 & _ & _ & H4).
  exists salida. split; [exact H1|].
  intros E. destruct (H4 (motor_inicial_en_texto _) E) as [_ H]. discriminate H.
Defined.

(** ** Persistence *)

Lemma agregar_campo_incluido av datos st c :
  agregar_campo av datos st c =
  if incluido av datos c
  then (st.1 ++ [SetParam c], st.2 ++ [default EmptyString (dict_get datos c)])
  else st.
Proof.
  unfold agregar_campo, incluido, add_update, sin_valor.
  destruct (bool_decide (c ∈ av)); [|done].
  destruct (dict_get datos c) as [v|]; [|done]. simpl.
  by destruct (en_blanco v).
Qed.

Lemma agregar_campos_clausulas av datos l : ∀ st,
  (foldl (agregar_campo av datos) st l).1
  = st.1 ++ (SetParam <$> List.filter (incluido av datos) l).
Proof.
  induction l as [|c l IH]; intros st; simpl.
  - by rewrite app_nil_r.
  - rewrite IH, agregar_campo_incluido.
    destruct (incluido av datos c); [|done]. simpl. by rewrite <- app_assoc.
Qed.

Lemma campos_distintos campo :
  campo ∈ CONTRATISTA_FIELDS →
  (campo ∉ ["updated_at"; "fecha_actualizacion"; "fuente_archivo"; "metadata"])
  ∧ es_columna_fecha campo = false.
Proof.
  unfold CONTRATISTA_FIELDS. intros H.
  repeat (apply elem_of_cons in H as [->|H]; [split; [|reflexivity]|]);
    try (intros Hin; repeat (apply elem_of_cons in Hin as [?|Hin]; [done|]);
         by apply elem_of_nil in Hin).
  by apply elem_of_nil in H.
Qed.

Lemma columnas_filtradas av datos l c :
  c ∈ (columna_de <$> (SetParam <$> List.filter (incluido av datos) l))
  ↔ c ∈ l ∧ incluido av datos c = true.
Proof.
  rewrite <- list_fmap_compose. split.
  - intros (x & -> & Hx)%list_elem_of_fmap. simpl.
    apply list_elem_of_In, filter_In in Hx as [Hx ?]. split; [|done].
    by apply list_elem_of_In.
  - intros [Hin Hc]. apply list_elem_of_fmap. exists c. split; [done|].
    apply list_elem_of_In, filter_In. split; [|done]. by apply list_elem_of_In.
Qed.

Lemma add_update_columnas av st col v c :
  c ∈ (columna_de <$> (add_update av st col v).1) →
  c ∈ (columna_de <$> st.1) ∨ c = col.
Proof.
  unfold add_update. destruct (bool_decide (col ∈ av)); [|auto].
  destruct v as [v|]; [|auto]. destruct (en_blanco v); [auto|]. simpl.
  rewrite fmap_app. intros [?|Hc]%elem_of_app; [auto|].
  apply list_elem_of_singleton in Hc. auto.
Qed.

Lemma add_update_conserva av st col v c :
  c ∈ (columna_de <$> st.1) → c ∈ (columna_de <$> (add_update av st col v).1).
Proof.
  unfold add_update. destruct (bool_decide (col ∈ av)); [|auto].
  destruct v as [v|]; [|auto]. destruct (en_blanco v); [auto|]. simpl.
  rewrite fmap_app. intros ?. apply elem_of_app. auto.
Qed.

(** Every column assigned by the statement is one of the four bookkeeping
    columns, a contractor field the loop included, or a date column taken
    as a last resort. *)
Section Persistencia.

(** The environment of the step is fixed throughout. *)
Variable env : entorno.

Lemma construir_set_columnas av datos fn c :
  c ∈ (columna_de <$> (construir_set env av datos fn).1.1) →
  c ∈ ["updated_at"; "fecha_actualizacion"; "fuente_archivo"; "metadata"]
  ∨ (c ∈ CONTRATISTA_FIELDS ∧ incluido av (datos_limpios env datos) c = true)
  ∨ es_columna_fecha c = true.
Proof.
  unfold construir_set. cbv zeta.
  set (st0 := if bool_decide ("updated_at" ∈ av) then _ else _).
  set (finales := datos_limpios env datos).
  set (st1 := foldl (agregar_campo av finales) st0 CONTRATISTA_FIELDS).
  set (st2 := if bool_decide ("fuente_archivo" ∈ av) then _ else st1).
  set (st3 := if bool_decide ("metadata" ∈ av) then _ else st2).
  assert (H0 : ∀ x, x ∈ (columna_de <$> st0.1) →
                    x ∈ ["updated_at"; "fecha_actualizacion"; "fuente_archivo"; "metadata"]).
  { intros x. subst st0. destruct (bool_decide ("updated_at" ∈ av)).
    - simpl. intros ->%list_elem_of_singleton. set_solver.
    - destruct (bool_decide ("fecha_actualizacion" ∈ av)); simpl.
      + intros ->%list_elem_of_singleton. set_solver.
      + by intros ?%elem_of_nil. }
  assert (H1 : ∀ x, x ∈ (columna_de <$> st1.1) →
                    x ∈ ["updated_at"; "fecha_actualizacion"; "fuente_archivo"; "metadata"]
                    ∨ (x ∈ CONTRATISTA_FIELDS ∧ incluido av finales x = true)).
  { intros x. subst st1. rewrite agregar_campos_clausulas, fmap_app.
    intros [?|?%columnas_filtradas]%elem_of_app; auto. }
  assert (H2 : ∀ x, x ∈ (columna_de <$> st2.1) →
                    x ∈ ["updated_at"; "fecha_actualizacion"; "fuente_archivo"; "metadata"]
                    ∨ (x ∈ CONTRATISTA_FIELDS ∧ incluido av finales x = true)).
  { intros x. subst st2. destruct (bool_decide ("fuente_archivo" ∈ av)); [|auto].
    intros [?| ->]%add_update_columnas; [auto|]. left. set_solver. }
  assert (H3 : ∀ x, x ∈ (columna_de <$> st3.1) →
                    x ∈ ["updated_at"; "fecha_actualizacion"; "fuente_archivo"; "metadata"]
                    ∨ (x ∈ CONTRATISTA_FIELDS ∧ incluido av finales x = true)).
  { intros x. subst st3. destruct (bool_decide ("metadata" ∈ av)); [|auto].
    simpl. rewrite fmap_app. intros [?|Hx]%elem_of_app; [auto|].
    apply list_elem_of_singleton in Hx as ->. left. set_solver. }
  destruct st3 as [cl3 ps3]. simpl in H3. cbn [fst snd].
  destruct cl3 as [|a r].
  - destruct (List.filter es_columna_fecha (orden_columnas env av)) as [|col cols] eqn:Ef.
    + simpl. by intros ?%elem_of_nil.
    + simpl. intros ->%list_elem_of_singleton. right. right.
      assert (Hin : In col (List.filter es_columna_fecha (orden_columnas env av)))
        by (rewrite Ef; by left).
      by apply filter_In in Hin as [_ ?].
  - intros Hc. destruct (H3 c Hc) as [?|?]; auto.
Qed.

Lemma construir_set_datos av datos fn :
  (construir_set env av datos fn).2 = datos_limpios env datos.
Proof. reflexivity. Qed.

(** Conversely a contractor field the loop included is assigned. *)
Lemma construir_set_incluye av datos fn c :
  c ∈ CONTRATISTA_FIELDS → incluido av (datos_limpios env datos) c = true →
  c ∈ (columna_de <$> (construir_set env av datos fn).1.1).
Proof.
  intros Hc Hinc. unfold construir_set. cbv zeta.
  set (st0 := if bool_decide ("updated_at" ∈ av) then _ else _).
  set (finales := datos_limpios env datos) in *.
  set (st1 := foldl (agregar_campo av finales) st0 CONTRATISTA_FIELDS).
  set (st2 := if bool_decide ("fuente_archivo" ∈ av) then _ else st1).
  set (st3 := if bool_decide ("metadata" ∈ av) then _ else st2).
  assert (H1 : c ∈ (columna_de <$> st1.1)).
  { subst st1. rewrite agregar_campos_clausulas, fmap_app. apply elem_of_app.
    right. by apply columnas_filtradas. }
  assert (H2 : c ∈ (columna_de <$> st2.1)).
  { subst st2. destruct (bool_decide ("fuente_archivo" ∈ av)); [|done].
    by apply add_update_conserva. }
  assert (H3 : c ∈ (columna_de <$> st3.1)).
  { subst st3. destruct (bool_decide ("metadata" ∈ av)); [|done].
    simpl. rewrite fmap_app. apply elem_of_app. auto. }
  destruct st3 as [cl3 ps3]. simpl in H3. cbn [fst snd].
  destruct cl3 as [|a r]; [by apply elem_of_nil in H3|done].
Qed.

Lemma emparejar_columnas cl : ∀ ps asigs,
  emparejar cl ps = Some asigs → asigs.*1 = columna_de <$> cl.
Proof.
  induction cl as [|a cl IH]; intros ps asigs; simpl.
  - destruct ps; [|done]. by intros [= <-].
  - destruct a as [c|c|].
    + destruct ps as [|v ps]; [done|].
      destruct (emparejar cl ps) as [r|] eqn:E; [|done]. simpl.
      intros [= <-]. simpl. f_equal. by eapply IH.
    + destruct (emparejar cl ps) as [r|] eqn:E; [|done]. simpl.
      intros [= <-]. simpl. f_equal. by eapply IH.
    + destruct ps as [|v ps]; [done|].
      destruct (emparejar cl ps) as [r|] eqn:E; [|done]. simpl.
      intros [= <-]. simpl. f_equal. by eapply IH.
Qed.

Lemma asignar_otra (vieja : gmap string string) asigs : ∀ (nueva : gmap string string) c,
  c ∉ asigs.*1 →
  foldl (λ nueva ce, <[ce.1 := evaluar env vieja ce.2]> nueva) nueva asigs !! c
  = nueva !! c.
Proof.
  induction asigs as [|[c' e] asigs IH]; intros nueva c Hc; [done|].
  simpl in *. apply not_elem_of_cons in Hc as [Hne Hc].
  rewrite IH by done. by apply lookup_insert_ne.
Qed.

Lemma actualizar_fila_otra asigs f c :
  c ∉ asigs.*1 → actualizar_fila env asigs f !! c = f !! c.
Proof. apply asignar_otra. Qed.

Lemma ejecutar_update_marco db cl ps codigo db' n :
  ejecutar_update env db cl ps codigo = Ok (db', n) →
  columnas db' = columnas db
  ∧ length (filas db') = length (filas db)
  ∧ ∀ i c, c ∉ (columna_de <$> cl) → celda db' i c = celda db i c.
Proof.
  unfold ejecutar_update. destruct cl as [|a cl]; [done|].
  destruct (emparejar (a :: cl) ps) as [asigs|] eqn:E; [|done].
  destruct (negb _); [done|]. destruct (negb _); [done|].
  intros [= <- <-]. simpl. split_and!; [done|by rewrite length_fmap|].
  intros i c Hc. unfold celda. simpl. rewrite list_lookup_fmap.
  destruct (filas db !! i) as [f|]; [|done]. simpl.
  destruct (coincide_fila codigo f); [|done].
  apply actualizar_fila_otra. by rewrite (emparejar_columnas _ _ _ E).
Qed.

(** Whatever the outcome, the table keeps its columns and its number of
    rows, and a column which the statement does not assign keeps its value
    in every row. *)
Lemma update_postgres_marco db file_data :
  columnas (update_postgres env db file_data).2 = columnas db
  ∧ length (filas (update_postgres env db file_data).2) = length (filas db)
  ∧ ∀ i c,
      c ∉ (columna_de <$> (construir_set env (columnas db) (datos_de file_data)
                             (fd_file_name file_data)).1.1) →
      celda (update_postgres env db file_data).2 i c = celda db i c.
Proof.
  unfold update_postgres.
  destruct (negb (verdadero (fd_codigo_proceso file_data))); [done|].
  destruct (seleccionar_existe db _) as [[|]|]; [|done|done].
  fold (datos_de file_data).
  destruct (construir_set env (columnas db) (datos_de file_data)
              (fd_file_name file_data)) as [[cl ps] datos].
  destruct cl as [|a cl]; [done|].
  destruct (ejecutar_update env db (a :: cl) ps _) as [[db' n]|] eqn:E; [|done].
  apply ejecutar_update_marco in E.
  destruct (n =? 0); [|done].
  by destruct (seleccionar_existe db' _) as [[|]|].
Qed.

Lemma seleccionar_existe_ausente db codigo :
  "codigo_proceso" ∈ columnas db →
  (∀ f, f ∈ filas db → f !! "codigo_proceso" ≠ Some codigo) →
  seleccionar_existe db codigo = Ok false.
Proof.
  intros Hcol Hf. unfold seleccionar_existe.
  rewrite bool_decide_eq_true_2 by done. f_equal.
  induction (filas db) as [|f l IH]; [done|]. simpl.
  rewrite IH by (intros g Hg; apply Hf; by right).
  unfold coincide_fila. rewrite bool_decide_eq_false_2; [done|].
  apply Hf. by left.
Qed.

(** C1. When the process code of the document matches no row of the
    table, [update_postgres] returns the status "skipped" with the reason
    "Registro no existe en BD" and leaves the table as it is; and on every
    input, whatever the outcome, the table keeps its number of rows and
    every row keeps its process code: no row is ever inserted. *)
Theorem update_postgres_omite_inexistente (db : tabla) (file_data : datos_archivo) :
  (∀ codigo,
     fd_codigo_proceso file_data = Some codigo → codigo ≠ EmptyString →
     "codigo_proceso" ∈ columnas db →
     (∀ f, f ∈ filas db → f !! "codigo_proceso" ≠ Some codigo) →
     update_postgres env db file_data
     = (Ok {| salida_datos := file_data;
              update_status := "skipped";
              update_reason := Some "Registro no existe en BD" |}, db))
  ∧ length (filas (update_postgres env db file_data).2) = length (filas db)
  ∧ (∀ i, celda (update_postgres env db file_data).2 i "codigo_proceso"
          = celda db i "codigo_proceso").
Proof.
  split_and!.
  - intros codigo Hcod Hne Hcol Hf. unfold update_postgres. rewrite Hcod.
    destruct codigo as [|a r]; [done|]. cbn [verdadero negb default from_option id].
    by rewrite (seleccionar_existe_ausente db (String a r) Hcol Hf).
  - apply update_postgres_marco.
  - intros i. apply update_postgres_marco.
    intros [Hc|[[Hc _]|Hc]]%construir_set_columnas.
    + repeat (apply elem_of_cons in Hc as [?|Hc]; [done|]). by apply elem_of_nil in Hc.
    + unfold CONTRATISTA_FIELDS in Hc.
      repeat (apply elem_of_cons in Hc as [?|Hc]; [done|]). by apply elem_of_nil in Hc.
    + done.
Qed.

Lemma dict_get_limpiar_razon datos k :
  k ≠ "razon_social" → dict_get (limpiar_razon env datos) k = dict_get datos k.
Proof.
  intros Hk. unfold limpiar_razon.
  repeat match goal with |- context [if ?b then _ else _] => destruct b end;
    rewrite dict_get_insert; by case_decide.
Qed.

Lemma dict_get_limpiar_representante datos k :
  k ≠ "representante" → dict_get (limpiar_representante env datos) k = dict_get datos k.
Proof.
  intros Hk. unfold limpiar_representante.
  repeat match goal with |- context [if ?b then _ else _] => destruct b end;
    rewrite dict_get_insert; by case_decide.
Qed.

Lemma limpiar_razon_sin_dato datos :
  verdadero (dict_get datos "razon_social") = false →
  dict_get (limpiar_razon env datos) "razon_social" = None.
Proof.
  intros H. unfold limpiar_razon. rewrite H, dict_get_insert. by case_decide.
Qed.

Lemma limpiar_representante_sin_dato datos :
  verdadero (dict_get datos "representante") = false →
  dict_get (limpiar_representante env datos) "representante" = None.
Proof.
  intros H. unfold limpiar_representante. rewrite H, dict_get_insert. by case_decide.
Qed.

Lemma sin_valor_falso v : verdadero v = false → sin_valor v = true.
Proof. by destruct v as [[|c r]|]. Qed.

(** A field without a value on entry has none after the cleaning. *)
Lemma datos_limpios_sin_dato datos campo :
  verdadero (dict_get datos campo) = false →
  sin_valor (dict_get (datos_limpios env datos) campo) = true.
Proof.
  intros H. unfold datos_limpios.
  destruct (decide (campo = "representante")) as [->|Hr].
  - rewrite limpiar_representante_sin_dato; [done|].
    by rewrite dict_get_limpiar_razon.
  - rewrite dict_get_limpiar_representante by done.
    destruct (decide (campo = "razon_social")) as [->|Hz].
    + by rewrite limpiar_razon_sin_dato.
    + rewrite dict_get_limpiar_razon by done. by apply sin_valor_falso.
Qed.

(** C2. For each of the six contractor fields, the SET list of
    [update_postgres] assigns the column exactly when the column exists in
    the table and the value the pipeline holds for the field when the list
    is built is neither None nor blank, which requires a non-empty value on
    entry; and a field without such a value keeps its stored value in every
    row, whatever the outcome of the step. *)
Theorem update_postgres_solo_con_valor (db : tabla) (file_data : datos_archivo)
    (campo : string) :
  campo ∈ CONTRATISTA_FIELDS →
  let datos := datos_de file_data in
  let finales := datos_limpios env datos in
  let set_clauses :=
    (construir_set env (columnas db) datos (fd_file_name file_data)).1.1 in
  (campo ∈ (columna_de <$> set_clauses)
   ↔ campo ∈ columnas db ∧ sin_valor (dict_get finales campo) = false)
  ∧ (sin_valor (dict_get finales campo) = false →
     verdadero (dict_get datos campo) = true)
  ∧ (sin_valor (dict_get finales campo) = true →
     ∀ i, celda (update_postgres env db file_data).2 i campo = celda db i campo).
Proof.
  intros Hcampo datos finales set_clauses.
  destruct (campos_distintos campo Hcampo) as [Hdist Hfecha].
  assert (Hiff : campo ∈ (columna_de <$> set_clauses)
                 ↔ campo ∈ columnas db ∧ sin_valor (dict_get finales campo) = false).
  { split.
    - intros [Hc|[[_ Hc]|Hc]]%construir_set_columnas; [done| |congruence].
      unfold incluido in Hc. apply andb_true_iff in Hc as [H1 H2].
      apply bool_decide_eq_true in H1. by apply negb_true_iff in H2.
    - intros [H1 H2]. apply construir_set_incluye; [done|].
      unfold incluido. fold finales. rewrite H2.
      by rewrite bool_decide_eq_true_2. }
  split_and!; [done| |].
  - intros H. destruct (verdadero (dict_get datos campo)) eqn:E; [done|].
    pose proof (datos_limpios_sin_dato datos campo E) as H'.
    fold finales in H'. congruence.
  - intros H i. apply update_postgres_marco. fold datos. fold set_clauses.
    rewrite Hiff. intros [_ ?]. congruence.
Qed.

End Persistencia.

Lemma update_postgres_omite_inexistente_testigo :
  update_postgres entorno_ejemplo tabla_ejemplo archivo_ausente
  = (Ok {| salida_datos := archivo_ausente;
           update_status := "skipped";
           update_reason := Some "Registro no existe en BD" |}, tabla_ejemplo).
Proof.
  refine (proj1 (update_postgres_omite_inexistente entorno_ejemplo tabla_ejemplo
                   archivo_ausente) "PROC-002" eq_refl _ _ _).
  - discriminate.
  - by vm_compute.
  - intros f Hf. apply list_elem_of_singleton in Hf as ->. by vm_compute.
Defined.

Lemma update_postgres_solo_con_valor_testigo :
  "telefono" ∈ CONTRATISTA_FIELDS
  ∧ dict_get (datos_de archivo_presente) "telefono" = None
  ∧ celda (update_postgres entorno_ejemplo tabla_ejemplo archivo_presente).2 0 "telefono"
    = Some "022345678".
Proof.
  assert (Hin : "telefono" ∈ CONTRATISTA_FIELDS) by compute_done.
  split_and!; [exact Hin|reflexivity|].
  destruct (update_postgres_solo_con_valor entorno_ejemplo tabla_ejemplo
              archivo_presente "telefono" Hin) as (_ & _ & H).
  rewrite H; [reflexivity|]. by vm_compute.
Defined.

(** ** Duplicate removal *)

Lemma dedup_paso_invariante st item :
  NoDup st.2 → (∀ x, x ∈ st.1 ↔ x ∈ st.2) →
  NoDup (dedup_paso st item).2
  ∧ (∀ x, x ∈ (dedup_paso st item).1 ↔ x ∈ (dedup_paso st item).2)
  ∧ (∀ x, x ∈ (dedup_paso st item).2
          ↔ x ∈ st.2 ∨ (x ≠ EmptyString ∧ item = Some x))
  ∧ ∃ r, (dedup_paso st item).2 = st.2 ++ r ∧ sublist r (omap id [item]).
Proof.
  intros Hnd Hseen. unfold dedup_paso.
  destruct item as [[|c s]|]; simpl.
  - split_and!; [done|done| |exists []; rewrite app_nil_r; split; [done|apply sublist_nil_l]].
    intros x. split; [auto|]. by intros [?|[? [= <-]]].
  - destruct (bool_decide (String c s ∈ st.1)) eqn:E.
    + apply bool_decide_eq_true in E. split_and!; [done|done| |].
      * intros x. split; [auto|]. intros [?|[_ [= <-]]]; [done|]. by apply Hseen.
      * exists []. rewrite app_nil_r. split; [done|]. apply sublist_nil_l.
    + apply bool_decide_eq_false in E. simpl. split_and!.
      * apply NoDup_app. split_and!; [done| |apply NoDup_singleton].
        intros x Hx ->%list_elem_of_singleton. apply E. by apply Hseen.
      * intros x. rewrite elem_of_union, elem_of_singleton, elem_of_app,
          list_elem_of_singleton, Hseen. tauto.
      * intros x. rewrite elem_of_app, list_elem_of_singleton. split.
        -- intros [?| ->]; [by left|]. by right.
        -- intros [?|[_ [= ->]]]; [by left|by right].
      * by exists [String c s].
  - split_and!; [done|done| |exists []; rewrite app_nil_r; split; [done|apply sublist_nil_l]].
    intros x. split; [auto|]. by intros [?|[? ?]].
Qed.

Lemma dedup_invariante seq : ∀ st,
  NoDup st.2 → (∀ x, x ∈ st.1 ↔ x ∈ st.2) →
  NoDup (foldl dedup_paso st seq).2
  ∧ (∀ x, x ∈ (foldl dedup_paso st seq).2
          ↔ x ∈ st.2 ∨ (x ≠ EmptyString ∧ Some x ∈ seq))
  ∧ ∃ r, (foldl dedup_paso st seq).2 = st.2 ++ r ∧ sublist r (omap id seq).
Proof.
  induction seq as [|item seq IH]; intros st Hnd Hseen.
  - simpl. split_and!; [done| |exists []; rewrite app_nil_r; split; [done|apply sublist_nil_l]].
    intros x. split; [auto|]. intros [?|[_ H]]; [done|]. by apply elem_of_nil in H.
  - destruct (dedup_paso_invariante st item Hnd Hseen) as (H1 & H2 & H3 & r1 & Hr1 & Hs1).
    destruct (IH _ H1 H2) as (H4 & H5 & r2 & Hr2 & Hs2).
    cbn [foldl]. split_and!; [done| |].
    + intros x. rewrite H5, H3, elem_of_cons. split.
      * intros [[?|[? ->]]|[? ?]]; auto.
      * intros [?|[? [[= <-]|?]]]; auto.
    + exists (r1 ++ r2). rewrite Hr2, Hr1, <- app_assoc. split; [done|].
      change (item :: seq) with ([item] ++ seq). rewrite omap_app.
      by apply sublist_app.
Qed.

Lemma dedup_sin_repetidos l : ∀ st,
  NoDup l → (∀ x, x ∈ l → x ≠ EmptyString ∧ x ∉ st.1) →
  (foldl dedup_paso st (Some <$> l)).2 = st.2 ++ l.
Proof.
  induction l as [|a l IH]; intros st Hnd Hl; simpl.
  - by rewrite app_nil_r.
  - apply NoDup_cons in Hnd as [Ha Hnd].
    destruct (Hl a) as [Hne Hseen]; [by left|].
    assert (Hpaso : dedup_paso st (Some a) = ({[ a ]} ∪ st.1, st.2 ++ [a])).
    { unfold dedup_paso. destruct a; [done|]. simpl.
      by rewrite bool_decide_eq_false_2. }
    rewrite Hpaso, IH; [simpl; by rewrite <- app_assoc|done|].
    intros x Hx. destruct (Hl x) as [? ?]; [by right|]. split; [done|]. simpl.
    rewrite elem_of_union, elem_of_singleton. intros [->|?]; done.
Qed.

Lemma dedup_elementos seq x :
  x ∈ dedup seq ↔ x ≠ EmptyString ∧ Some x ∈ seq.
Proof.
  unfold dedup.
  destruct (dedup_invariante seq (∅, [])) as (_ & H & _);
    [apply NoDup_nil_2|intros y; simpl; set_solver|].
  rewrite H. simpl. split; [|auto]. intros [Hx|?]; [|done]. by apply elem_of_nil in Hx.
Qed.

Lemma dedup_NoDup seq : NoDup (dedup seq).
Proof.
  unfold dedup.
  by destruct (dedup_invariante seq (∅, [])) as (H & _);
    [apply NoDup_nil_2|intros y; simpl; set_solver|].
Qed.

(** [seen] holds the elements of [result] at every iteration. *)
Lemma dedup_visto seq : ∀ st,
  NoDup st.2 → (∀ x, x ∈ st.1 ↔ x ∈ st.2) →
  ∀ x, x ∈ (foldl dedup_paso st seq).1 ↔ x ∈ (foldl dedup_paso st seq).2.
Proof.
  induction seq as [|item seq IH]; intros st Hnd Hseen; [done|]. cbn [foldl].
  destruct (dedup_paso_invariante st item Hnd Hseen) as (H1 & H2 & _).
  by apply IH.
Qed.

(** One more element at the end of the input: it is appended when it is
    not empty and has not been met. *)
Lemma dedup_snoc seq item :
  dedup (seq ++ [item])
  = dedup seq ++ match item with
                 | Some x =>
                     if verdadero item && negb (bool_decide (x ∈ dedup seq))
                     then [x] else []
                 | None => []
                 end.
Proof.
  unfold dedup. rewrite foldl_app. cbn [foldl].
  pose proof (dedup_visto seq (∅, []) (NoDup_nil_2) ltac:(set_solver)) as Hv.
  destruct (foldl dedup_paso (∅, []) seq) as [seen result]. cbn [fst snd] in *.
  unfold dedup_paso. cbn [fst snd].
  destruct item as [[|c r]|]; cbn [verdadero negb andb default from_option id].
  - by rewrite app_nil_r.
  - destruct (bool_decide (String c r ∈ seen)) eqn:E.
    + apply bool_decide_eq_true in E. apply Hv in E.
      rewrite (bool_decide_eq_true_2 _ E). cbn [negb]. by rewrite app_nil_r.
    + apply bool_decide_eq_false in E.
      rewrite bool_decide_eq_false_2; [done|]. intros H. by apply E, Hv.
  - by rewrite app_nil_r.
Qed.

(** The order of the result is that of the first occurrences. *)
Lemma dedup_orden seq : ∀ i j x y,
  i < j → dedup seq !! i = Some x → dedup seq !! j = Some y →
  ∃ k, seq !! k = Some (Some x) ∧ ∀ k', seq !! k' = Some (Some y) → k < k'.
Proof.
  induction seq as [|item seq IH] using rev_ind; intros i j x y Hij Hi Hj.
  { by destruct i. }
  rewrite dedup_snoc in Hi, Hj.
  set (n := length (dedup seq)) in *.
  assert (Hix : dedup seq !! i = Some x).
  { destruct (decide (i < n)) as [Hlt|Hge]; [by rewrite lookup_app_l in Hi|].
    apply lookup_lt_Some in Hj. rewrite List.length_app in Hj. fold n in Hj.
    assert (Hlen : length (match item with
                           | Some x0 =>
                               if verdadero item && negb (bool_decide (x0 ∈ dedup seq))
                               then [x0] else []
                           | None => []
                           end) ≤ 1).
    { destruct item as [x0|]; [|simpl; lia]. destruct (_ && _); simpl; lia. }
    lia. }
  destruct (decide (j < n)) as [Hlt|Hge].
  - rewrite lookup_app_l in Hj by done.
    destruct (IH i j x y Hij Hix Hj) as (k & Hk & Hantes).
    exists k. pose proof (lookup_lt_Some _ _ _ Hk) as Hkl. split.
    + by rewrite lookup_app_l.
    + intros k' Hk'. destruct (decide (k' < length seq)) as [Hin|Hout]; [|lia].
      rewrite lookup_app_l in Hk' by done. by apply Hantes.
  - rewrite lookup_app_r in Hj by (fold n; lia). fold n in Hj.
    assert (Hx : x ∈ dedup seq) by (by eapply list_elem_of_lookup_2).
    apply dedup_elementos in Hx as [_ Hx].
    apply list_elem_of_lookup_1 in Hx as [k Hk].
    exists k. pose proof (lookup_lt_Some _ _ _ Hk) as Hkl. split.
    + by rewrite lookup_app_l.
    + intros k' Hk'. destruct (decide (k' < length seq)) as [Hin|Hout]; [|lia].
      exfalso. rewrite lookup_app_l in Hk' by done.
      destruct item as [x0|]; [|by destruct (j - n)].
      destruct (verdadero (Some x0)) eqn:Ev; [|by destruct (j - n)].
      destruct (bool_decide (x0 ∈ dedup seq)) eqn:Eb; [by destruct (j - n)|].
      cbn [negb andb] in Hj. apply bool_decide_eq_false in Eb.
      apply list_lookup_singleton_Some in Hj as [_ ->].
      apply Eb, dedup_elementos. split; [by destruct y|].
      by eapply list_elem_of_lookup_2.
Qed.

(** X1. [dedup] returns a list without repetitions whose elements are
    exactly the non-empty strings of the input, in the order of their first
    occurrence: it is a subsequence of the input and, of two elements of
    the result, the one that stands first occurs in the input before every
    occurrence of the other.  It leaves such a list unchanged. *)
Theorem dedup_correcto (seq : list (option string)) :
  NoDup (dedup seq)
  ∧ (∀ s, s ∈ dedup seq ↔ s ≠ EmptyString ∧ Some s ∈ seq)
  ∧ sublist (dedup seq) (omap id seq)
  ∧ (∀ i j x y,
       i < j → dedup seq !! i = Some x → dedup seq !! j = Some y →
       ∃ k, seq !! k = Some (Some x)
            ∧ ∀ k', seq !! k' = Some (Some y) → k < k')
  ∧ dedup (Some <$> dedup seq) = dedup seq.
Proof.
  split_and!; [apply dedup_NoDup|apply dedup_elementos| |apply dedup_orden|].
  - unfold dedup.
    destruct (dedup_invariante seq (∅, []) (NoDup_nil_2) ltac:(set_solver))
      as (_ & _ & r & Hr & Hs).
    by rewrite Hr.
  - unfold dedup.
    destruct (dedup_invariante seq (∅, []) (NoDup_nil_2) ltac:(set_solver))
      as (H1 & H2 & _).
    rewrite dedup_sin_repetidos; [done|done|].
    intros x Hx. apply H2 in Hx as [H|[? _]]; [by apply elem_of_nil in H|].
    split; [done|]. simpl. set_solver.
Qed.

(** On a list where "a" comes back after "b", "a" keeps its first place. *)
Lemma dedup_correcto_testigo :
  dedup [Some "0991234567"; None; Some ""; Some "022345678"; Some "0991234567"]
  = ["0991234567"; "022345678"]
  ∧ ∃ k, [Some "0991234567"; None; Some ""; Some "022345678"; Some "0991234567"] !! k
         = Some (Some "0991234567")
         ∧ ∀ k', [Some "0991234567"; None; Some ""; Some "022345678";
                  Some "0991234567"] !! k' = Some (Some "022345678") → k < k'.
Proof.
  split; [reflexivity|].
  apply (proj1 (proj2 (proj2 (proj2 (dedup_correcto
           [Some "0991234567"; None; Some ""; Some "022345678"; Some "0991234567"]))))
           0 1 "0991234567" "022345678").
  - lia.
  - reflexivity.
  - reflexivity.
Defined.

(** ** Chunks *)

Lemma tomar_saltar n s : tomar n s +:+ saltar n s = s.
Proof.
  revert s. induction n as [|n IH]; intros [|c r]; try done.
  simpl. by rewrite app_cons, IH.
Qed.

Lemma saltar_suma a b s : saltar (a + b) s = saltar b (saltar a s).
Proof.
  revert s. induction a as [|a IH]; intros s; [done|].
  destruct s as [|c r]; [by destruct b|]. simpl. apply IH.
Qed.

Lemma saltar_todo n s : String.length s ≤ n → saltar n s = EmptyString.
Proof.
  revert s. induction n as [|n IH]; intros [|c r]; simpl; try done; [lia|].
  intros H. apply IH. lia.
Qed.

Lemma rebanada_paso i t s : rebanada i (i + t) s = tomar t (saltar i s).
Proof. unfold rebanada. by replace (i + t - i) with t by lia. Qed.

Section Trozos.

(** The text and the positive chunk size are fixed. *)
Variables (texto : string) (t : nat).
Hypothesis t_positivo : 0 < t.

Lemma concatenar_rango fuel : ∀ i,
  String.length texto - i ≤ fuel →
  concatenar ((λ j, rebanada j (j + t) texto)
                <$> rango_aux fuel i (String.length texto) t)
  = saltar i texto.
Proof.
  induction fuel as [|fuel IH]; intros i Hf; simpl.
  - symmetry. apply saltar_todo. lia.
  - destruct (i <? String.length texto) eqn:E.
    + apply Nat.ltb_lt in E. simpl. rewrite IH by lia.
      by rewrite rebanada_paso, saltar_suma, tomar_saltar.
    + apply Nat.ltb_ge in E. simpl. symmetry. by apply saltar_todo.
Qed.

Lemma length_rango fuel : ∀ i n,
  n - i ≤ fuel → length (rango_aux fuel i n t) = (n - i + (t - 1)) / t.
Proof.
  induction fuel as [|fuel IH]; intros i n Hf; simpl.
  - replace (n - i) with 0 by lia. simpl. symmetry. apply Nat.div_small. lia.
  - destruct (i <? n) eqn:E.
    + apply Nat.ltb_lt in E. simpl. rewrite IH by lia.
      destruct (decide (t ≤ n - i)) as [Hge|Hlt].
      * replace (n - i + (t - 1)) with ((n - (i + t) + (t - 1)) + 1 * t) by lia.
        rewrite Nat.div_add by lia. lia.
      * replace (n - (i + t)) with 0 by lia.
        replace (n - i + (t - 1)) with ((n - i - 1) + 1 * t) by lia.
        rewrite Nat.div_add by lia.
        rewrite (Nat.div_small (0 + (t - 1))) by lia.
        rewrite (Nat.div_small (n - i - 1)) by lia. done.
    + apply Nat.ltb_ge in E. replace (n - i) with 0 by lia. simpl.
      symmetry. apply Nat.div_small. lia.
Qed.

Lemma lookup_rango fuel : ∀ i n k j,
  rango_aux fuel i n t !! k = Some j → j = i + k * t ∧ j < n.
Proof.
  induction fuel as [|fuel IH]; intros i n k j; simpl; [done|].
  destruct (i <? n) eqn:E; [|done]. apply Nat.ltb_lt in E.
  destruct k as [|k]; simpl.
  - intros [= <-]. lia.
  - intros H. apply IH in H. lia.
Qed.

End Trozos.

(** X2. For a positive size, [dividir_en_chunks] returns chunks whose
    concatenation is the text; there are ceil(len / size) of them, none for
    the empty text only; the k-th chunk is the slice from k*size to
    k*size + size, so each chunk has between 1 and size characters. *)
Theorem dividir_en_chunks_correcto (texto : string) (tamaño : Z) :
  (0 < tamaño)%Z →
  let t := Z.to_nat tamaño in
  ∃ chunks,
    dividir_en_chunks texto tamaño = Ok chunks
    ∧ concatenar chunks = texto
    ∧ length chunks = (String.length texto + (t - 1)) / t
    ∧ (chunks = [] ↔ texto = EmptyString)
    ∧ (∀ k c, chunks !! k = Some c →
         c = rebanada (k * t) (k * t + t) texto
         ∧ 1 ≤ String.length c ≤ t).
Proof.
  intros Hpos t. assert (Ht : 0 < t) by (subst t; lia).
  unfold dividir_en_chunks.
  rewrite (proj2 (Z.eqb_neq _ _)) by lia. rewrite (proj2 (Z.ltb_ge _ _)) by lia.
  fold t.
  exists ((λ i, rebanada i (i + t) texto)
            <$> rango_aux (String.length texto) 0 (String.length texto) t).
  split; [done|].
  assert (Hlen : length ((λ i, rebanada i (i + t) texto)
                   <$> rango_aux (String.length texto) 0 (String.length texto) t)
                 = (String.length texto + (t - 1)) / t).
  { rewrite length_fmap, (length_rango t Ht) by lia. by rewrite Nat.sub_0_r. }
  split_and!.
  - rewrite (concatenar_rango texto t Ht) by lia. done.
  - done.
  - split.
    + intros E. rewrite E in Hlen. simpl in Hlen. apply length_vacia.
      destruct (String.length texto) as [|n]; [done|]. exfalso.
      replace (S n + (t - 1)) with (n + 1 * t) in Hlen by lia.
      rewrite Nat.div_add in Hlen by lia. lia.
    + by intros ->.
  - intros k c. rewrite list_lookup_fmap.
    destruct (rango_aux _ 0 _ t !! k) as [j|] eqn:E; [|done].
    apply lookup_rango in E as [-> Hj]; [|done]. simpl. intros [= <-]. split; [done|].
    rewrite rebanada_paso, length_tomar, length_saltar. lia.
Qed.

Lemma dividir_en_chunks_correcto_testigo :
  dividir_en_chunks "EL CONTRATISTA" 6 = Ok ["EL CON"; "TRATIS"; "TA"]
  ∧ concatenar ["EL CON"; "TRATIS"; "TA"] = "EL CONTRATISTA".
Proof.
  destruct (dividir_en_chunks_correcto "EL CONTRATISTA" 6 ltac:(lia))
    as (chunks & H1 & H2 & _).
  assert (E : chunks = ["EL CON"; "TRATIS"; "TA"]).
  { vm_compute in H1. by injection H1 as <-. }
  rewrite E in H1, H2. split; [exact H1|exact H2].
Defined.

(** ** More on the merge of chunk results *)

Lemma fusionar_campo_sin_valor nuevo res c :
  con_valor (dict_get nuevo c) = false → fusionar_campo nuevo res c = res.
Proof.
  intros H. unfold fusionar_campo. rewrite H, andb_false_r.
  by destruct (con_valor (dict_get res c)).
Qed.

Lemma fusionar_lista_sin_valor nuevo l : ∀ res,
  (∀ c, c ∈ l → vacio (dict_get nuevo c) = true) →
  foldl (fusionar_campo nuevo) res l = res.
Proof.
  induction l as [|c l IH]; intros res Hl; [done|]. simpl.
  rewrite fusionar_campo_sin_valor.
  - apply IH. intros c' Hc'. apply Hl. by right.
  - rewrite con_valor_vacio, Hl; [done|by left].
Qed.

Lemma fusionar_chunks_origen campo : ∀ parciales acc,
  campo ∈ CONTRATISTA_FIELDS →
  dict_get (foldl fusionar_resultados acc parciales) campo = dict_get acc campo
  ∨ ∃ p, p ∈ parciales
         ∧ dict_get (foldl fusionar_resultados acc parciales) campo = dict_get p campo
         ∧ vacio (dict_get p campo) = false.
Proof.
  induction parciales as [|p ps IH]; intros acc Hin; [by left|]. simpl.
  destruct (IH (fusionar_resultados acc p) Hin) as [H|(q & Hq & H & Hv)].
  - rewrite H, dict_get_fusionar_resultados by done. unfold fusion_valor.
    destruct (vacio (dict_get acc campo) && con_valor (dict_get p campo)) eqn:E;
      [|by left].
    right. exists p. split; [by left|]. split; [done|].
    apply andb_true_iff in E as [_ E]. rewrite con_valor_vacio in E.
    by apply negb_true_iff in E.
  - right. exists q. split; [by right|done].
Qed.

(** X3. A partial result that is empty in the six fields, such as the one
    [llm_chunk] returns for a failed chunk, leaves the accumulator as it
    is, so a failed chunk anywhere in the sequence does not change the
    merged result; and the merged value of a field is never made up: it is
    [None] or the non-empty value of one of the chunks. *)
Theorem fusionar_chunks_sin_invencion :
  (∀ base nuevo,
     (∀ c, c ∈ CONTRATISTA_FIELDS → vacio (dict_get nuevo c) = true) →
     fusionar_resultados base nuevo = base)
  ∧ (∀ antes despues,
       fusionar_chunks (antes ++ resultado_vacio :: despues)
       = fusionar_chunks (antes ++ despues))
  ∧ (∀ parciales campo,
       campo ∈ CONTRATISTA_FIELDS →
       dict_get (fusionar_chunks parciales) campo = None
       ∨ ∃ p, p ∈ parciales
              ∧ dict_get (fusionar_chunks parciales) campo = dict_get p campo
              ∧ vacio (dict_get p campo) = false).
Proof.
  assert (H1 : ∀ base nuevo,
     (∀ c, c ∈ CONTRATISTA_FIELDS → vacio (dict_get nuevo c) = true) →
     fusionar_resultados base nuevo = base).
  { intros base nuevo H. by apply fusionar_lista_sin_valor. }
  split_and!; [done| |].
  - intros antes despues. unfold fusionar_chunks. rewrite !foldl_app. simpl.
    rewrite H1; [done|]. intros c _. unfold resultado_vacio.
    by rewrite dict_get_resultado_inicial.
  - intros parciales campo Hin. unfold fusionar_chunks.
    destruct (fusionar_chunks_origen campo parciales resultado_inicial Hin)
      as [H|H]; [|by right].
    left. by rewrite H, dict_get_resultado_inicial.
Qed.

Lemma fusionar_chunks_sin_invencion_testigo :
  fusionar_chunks
    ([ {[ "ruc" := Some "1790012345001" ]} ] ++ resultado_vacio ::
     [ ({[ "mail" := Some "ventas@acme.com" ]} : gmap string (option string)) ])
  = fusionar_chunks
      ([ {[ "ruc" := Some "1790012345001" ]} ] ++
       [ ({[ "mail" := Some "ventas@acme.com" ]} : gmap string (option string)) ]).
Proof.
  exact (proj1 (proj2 fusionar_chunks_sin_invencion) _ _).
Defined.

(** ** The "telefono" and "ruc" steps of llm *)

Lemma length_saltar_car c d : String.length (saltar_car c d) ≤ String.length d.
Proof.
  induction d as [|x d IH]; [done|]. simpl. destruct (car_eqb x c); simpl; lia.
Qed.

Lemma coincide_repetido_corto c d :
  String.length d - String.length (saltar_car c d) < 10 →
  coincide_repetido c d = false.
Proof.
  intros H. unfold coincide_repetido.
  rewrite (proj2 (Nat.leb_gt _ _)); [done|lia].
Qed.

Lemma telefono_no_repetido c p :
  es_celular p || es_fijo p = true → coincide_repetido c p = false.
Proof.
  intros [H|H]%orb_true_iff; apply coincide_repetido_corto.
  - apply es_celular_forma in H as (d & -> & Hl & _).
    cbn [saltar_car]. destruct (car_eqb "0" c) eqn:E0.
    + apply car_eqb_eq in E0 as <-. change (car_eqb "9" "0") with false.
      cbn iota. simpl. lia.
    + simpl. lia.
  - apply es_fijo_forma in H as (x & d & -> & _ & Hl & _).
    pose proof (length_saltar_car c (String "0" (String x d))). simpl in *. lia.
Qed.

(** X4. In the "telefono" step of [llm] the rejection of runs of zeros,
    ones and nines never fires: for every value present, the step stores
    exactly what [normalize_phone] returns, unless the value reads
    "null"/"none" in any letter case. *)
Theorem llm_telefono_es_normalize_phone (telefono : option string) :
  llm_telefono telefono =
  match telefono with
  | Some t => if no_es_nulo t then normalize_phone (Some t) else None
  | None => None
  end.
Proof.
  destruct telefono as [t|]; [|done]. unfold llm_telefono.
  destruct t as [|a r]; [done|]. cbn [verdadero andb].
  destruct (no_es_nulo (String a r)); [|done].
  destruct (normalize_phone (Some (String a r))) as [p|] eqn:E; [|done].
  apply normalize_phone_valido in E.
  destruct (valido_digitos p E) as (_ & Hne & _).
  destruct p as [|x p']; [done|]. cbn [verdadero].
  by rewrite !(telefono_no_repetido _ _ E).
Qed.

Lemma saltar_car_todos c d :
  todos (λ x, car_eqb x c) d = true → saltar_car c d = EmptyString.
Proof.
  induction d as [|x d IH]; [done|]. simpl.
  destruct (car_eqb x c); [exact IH|done].
Qed.

Lemma saltar_car_no_todos c d :
  todos (λ x, car_eqb x c) d = false → todos es_digito d = true →
  es_fin (saltar_car c d) = false.
Proof.
  induction d as [|x d IH]; [done|]. simpl.
  destruct (car_eqb x c) eqn:E; simpl.
  - intros H [_ Hd]%andb_true_iff. by apply IH.
  - intros _ [Hx _]%andb_true_iff. destruct d; [|done].
    destruct (car_eqb x LF) eqn:El; [|done].
    apply car_eqb_eq in El. by subst x.
Qed.

Lemma coincide_repetido_digitos c d :
  todos es_digito d = true → 10 ≤ String.length d ≤ 13 →
  coincide_repetido c d = todos (λ x, car_eqb x c) d.
Proof.
  intros Hd Hl. unfold coincide_repetido.
  destruct (todos (λ x, car_eqb x c) d) eqn:E.
  - rewrite (saltar_car_todos _ _ E). cbn [String.length es_fin].
    rewrite Nat.sub_0_r.
    rewrite (proj2 (Nat.leb_le 10 _)) by lia.
    by rewrite (proj2 (Nat.leb_le _ 13)) by lia.
  - by rewrite (saltar_car_no_todos _ _ E Hd), andb_false_r.
Qed.

Lemma length_filtrar f s : String.length (filtrar f s) ≤ String.length s.
Proof. induction s as [|c s IH]; [done|]. simpl. destruct (f c); simpl; lia. Qed.

Lemma diez_digitos_no_nulo r :
  10 ≤ String.length (solo_digitos r) → no_es_nulo r = true.
Proof.
  intros H. unfold no_es_nulo. apply negb_true_iff, bool_decide_eq_false.
  intros Hin. pose proof (length_filtrar es_digito r) as Hf.
  fold (solo_digitos r) in Hf. pose proof (length_lower r) as Hw.
  apply list_elem_of_In in Hin. simpl in Hin.
  destruct Hin as [Hi|[Hi|[Hi|[]]]]; rewrite <- Hi in Hw; simpl in Hw; lia.
Qed.

(** X5. The "ruc" step of [llm] stores a value exactly when the digits of
    the candidate number ten to thirteen and are not all "0", all "1" or all
    "9"; the value stored is those digits.  The test against "null" and
    "none" changes nothing, such a candidate having fewer than ten
    digits. *)
Theorem llm_ruc_caracteriza (ruc : option string) (d : string) :
  llm_ruc ruc = Some d ↔
  ∃ r, ruc = Some r
       ∧ d = only_digits (Some r)
       ∧ 10 ≤ String.length d ≤ 13
       ∧ todos (λ x, car_eqb x "0") d = false
       ∧ todos (λ x, car_eqb x "1") d = false
       ∧ todos (λ x, car_eqb x "9") d = false.
Proof.
  assert (Hdig : ∀ r, todos es_digito (only_digits (Some r)) = true)
    by (intros r; apply todos_filtrar).
  split.
  - unfold llm_ruc. destruct ruc as [r|]; [|done].
    destruct (verdadero (Some r) && no_es_nulo r); [|done].
    destruct (_ && _) eqn:El; [|done].
    destruct (_ || _) eqn:Er; [done|]. intros [= <-].
    apply andb_true_iff in El as [H1%Nat.leb_le H2%Nat.leb_le].
    apply orb_false_iff in Er as [[E0 E1]%orb_false_iff E9].
    exists r. rewrite <- !(coincide_repetido_digitos _ _ (Hdig r)) by lia.
    by split_and!.
  - intros (r & -> & -> & Hl & H0 & H1 & H9). unfold llm_ruc.
    assert (Hn : no_es_nulo r = true).
    { apply diez_digitos_no_nulo. unfold only_digits in Hl. simpl in Hl. lia. }
    assert (Hv : verdadero (Some r) = true).
    { destruct r; [|done]. simpl in Hl. lia. }
    rewrite Hv, Hn. cbn [andb].
    rewrite (proj2 (Nat.leb_le _ _)) by lia.
    rewrite (proj2 (Nat.leb_le _ _)) by lia. cbn [andb].
    rewrite !(coincide_repetido_digitos _ _ (Hdig r)) by lia.
    by rewrite H0, H1, H9.
Qed.

Lemma llm_ruc_caracteriza_testigo :
  llm_ruc (Some "RUC: 1790012345001") = Some "1790012345001".
Proof.
  apply llm_ruc_caracteriza. exists "RUC: 1790012345001".
  split_and!; try reflexivity; simpl; lia.
Defined.

(** ** Company name *)

Lemma lstrip_saltar s : ∃ k, lstrip s = saltar k s.
Proof.
  induction s as [|c r [k IH]]; [by exists 0|]. simpl.
  destruct (es_espacio c); [by exists (S k)|by exists 0].
Qed.

Lemma lstrip_idem s : lstrip (lstrip s) = lstrip s.
Proof.
  induction s as [|c r IH]; [done|]. simpl.
  destruct (es_espacio c) eqn:E; [done|]. simpl. by rewrite E.
Qed.

Lemma rstrip_idem s : rstrip (rstrip s) = rstrip s.
Proof.
  induction s as [|c r IH]; [done|]. simpl.
  destruct (rstrip r) as [|x r'] eqn:E.
  - destruct (es_espacio c) eqn:Ec; [done|]. simpl. by rewrite Ec.
  - change (rstrip (String c (String x r'))) with
      (match rstrip (String x r') with
       | EmptyString => if es_espacio c then EmptyString else String c EmptyString
       | t => String c t
       end).
    by rewrite IH.
Qed.

Lemma rstrip_cola c r : rstrip (String c r) = String c r → rstrip r = r.
Proof.
  simpl. destruct (rstrip r) as [|x r'] eqn:E.
  - destruct (es_espacio c); [done|]. by intros [= <-].
  - by intros [= <-].
Qed.

Lemma rstrip_saltar k : ∀ s, rstrip s = s → rstrip (saltar k s) = saltar k s.
Proof.
  induction k as [|k IH]; intros s Hs; [by destruct s|].
  destruct s as [|c r]; [done|]. simpl. apply IH. by eapply rstrip_cola.
Qed.

Lemma lstrip_rstrip s : lstrip s = s → lstrip (rstrip s) = rstrip s.
Proof.
  destruct s as [|c r]; [done|]. simpl.
  destruct (es_espacio c) eqn:E.
  - intros H. pose proof (lstrip_saltar r) as [k Hk]. rewrite Hk in H.
    assert (Hl : String.length (saltar k r) = String.length (String c r)) by (by rewrite H).
    rewrite length_saltar in Hl. simpl in Hl. lia.
  - intros _. destruct (rstrip r); simpl; by rewrite E.
Qed.

Lemma strip_idem s : strip (strip s) = strip s.
Proof.
  unfold strip. rewrite (lstrip_rstrip (lstrip s)) by apply lstrip_idem.
  apply rstrip_idem.
Qed.

(** Trimming a suffix of a trimmed string only removes from the front. *)
Lemma strip_saltar k s : rstrip s = s → ∃ j, strip (saltar k s) = saltar j s.
Proof.
  intros Hs. unfold strip. destruct (lstrip_saltar (saltar k s)) as [j Hj].
  exists (k + j). rewrite Hj, <- saltar_suma. by apply rstrip_saltar.
Qed.

Lemma rstrip_strip s : rstrip (strip s) = strip s.
Proof. apply rstrip_idem. Qed.

Lemma tras_ci_saltar p : ∀ s r, tras_ci p s = Some r → ∃ k, r = saltar k s.
Proof.
  induction p as [|a p IH]; intros s r; simpl.
  - intros [= <-]. by exists 0.
  - destruct a as [l| |cs].
    + destruct (empieza_ci l s); [|done]. intros [k ->]%IH.
      exists (String.length l + k). by rewrite saltar_suma.
    + destruct s as [|c s']; [done|]. destruct (es_espacio c); [|done].
      intros [k ->]%IH. destruct (lstrip_saltar (String c s')) as [j ->].
      exists (j + k). by rewrite saltar_suma.
    + destruct s as [|c s']; [done|]. destruct (existsb _ cs); [|done].
      intros [k ->]%IH. by exists (S k).
Qed.

Lemma quitar_prefijo_saltar p s : ∃ k, quitar_prefijo p s = saltar k s.
Proof.
  unfold quitar_prefijo. destruct (tras_ci p s) as [r|] eqn:E.
  - by apply tras_ci_saltar in E.
  - by exists 0.
Qed.

Lemma blancos_simples_sub_blancos s : blancos_simples (sub_blancos s) = true.
Proof.
  induction s as [|c r IH]; [done|]. simpl.
  destruct (es_espacio c) eqn:Ec.
  - destruct r as [|c' r']; [done|].
    destruct (es_espacio c') eqn:Ec'; [exact IH|].
    cbn [blancos_simples]. rewrite IH, andb_true_r.
    change (es_espacio SP) with true. rewrite car_eqb_refl. cbn [negb orb andb].
    cbn [sub_blancos]. rewrite Ec'. cbv iota beta. by rewrite Ec'.
  - cbn [blancos_simples]. by rewrite Ec, IH.
Qed.

Lemma blancos_simples_saltar k : ∀ s,
  blancos_simples s = true → blancos_simples (saltar k s) = true.
Proof.
  induction k as [|k IH]; intros s Hs; [by destruct s|].
  destruct s as [|c r]; [done|]. simpl in *.
  apply andb_true_iff in Hs as [_ Hs]. by apply IH.
Qed.

Lemma cabeza_rstrip s :
  rstrip s = EmptyString ∨ cabeza (rstrip s) = cabeza s.
Proof.
  destruct s as [|c r]; [by left|]. simpl.
  destruct (rstrip r); [|by right]. destruct (es_espacio c); [by left|by right].
Qed.

Lemma blancos_simples_rstrip s :
  blancos_simples s = true → blancos_simples (rstrip s) = true.
Proof.
  induction s as [|c r IH]; [done|]. cbn [blancos_simples].
  intros [Hc Hr]%andb_true_iff. specialize (IH Hr). cbn [rstrip].
  destruct (cabeza_rstrip r) as [H|H].
  - rewrite H. destruct (es_espacio c) eqn:Ec; [done|].
    cbn [blancos_simples]. by rewrite Ec.
  - destruct (rstrip r) as [|x r'] eqn:E.
    + destruct (es_espacio c) eqn:Ec; [done|]. cbn [blancos_simples]. by rewrite Ec.
    + destruct r as [|y r'']; [done|]. simpl in H. injection H as ->.
      change (blancos_simples (String c (String y r')))
        with ((negb (es_espacio c) || (car_eqb c SP && negb (es_espacio y)))
              && blancos_simples (String y r')).
      by rewrite IH, andb_true_r.
Qed.

Lemma blancos_simples_strip s :
  blancos_simples s = true → blancos_simples (strip s) = true.
Proof.
  intros H. unfold strip. apply blancos_simples_rstrip.
  destruct (lstrip_saltar s) as [k ->]. by apply blancos_simples_saltar.
Qed.

Lemma razon_base_forma razon :
  strip (razon_base razon) = razon_base razon
  ∧ blancos_simples (razon_base razon) = true.
Proof.
  unfold razon_base. split; [apply strip_idem|].
  apply blancos_simples_strip, blancos_simples_sub_blancos.
Qed.

Lemma quitar_prefijos_forma ps : ∀ base x,
  strip x = x → rstrip base = base → (∃ k, x = saltar k base) →
  strip (foldl quitar_y_recortar x ps) = foldl quitar_y_recortar x ps
  ∧ ∃ k, foldl quitar_y_recortar x ps = saltar k base.
Proof.
  induction ps as [|p ps IH]; intros base x Hx Hbase Hk; [done|].
  cbn [foldl]. apply IH; [apply strip_idem|done|].
  destruct Hk as [k ->]. unfold quitar_y_recortar.
  destruct (quitar_prefijo_saltar p (saltar k base)) as [j ->].
  rewrite <- saltar_suma. by apply strip_saltar.
Qed.

(** X6. A company name that [limpiar_razon_social] returns has three
    characters or more, neither starts nor ends with whitespace, has no
    whitespace but single blanks, and is what is left of the trimmed,
    whitespace-collapsed input after some characters have been removed at
    its front: the cleaning never touches the rest.  [None] and the empty
    string give [None]. *)
Theorem limpiar_razon_social_forma (razon : option string) (r : string) :
  Razon.limpiar_razon_social razon = Some r →
  3 ≤ String.length r
  ∧ strip r = r
  ∧ blancos_simples r = true
  ∧ verdadero razon = true
  ∧ ∃ k, r = saltar k (razon_base (default EmptyString razon)).
Proof.
  unfold Razon.limpiar_razon_social.
  destruct (verdadero razon) eqn:Hv; [|done]. cbn [negb].
  set (base := razon_base (default EmptyString razon)).
  destruct (razon_base_forma (default EmptyString razon)) as [Hs Hb].
  fold base in Hs, Hb.
  assert (Hr : rstrip base = base).
  { rewrite <- Hs. apply rstrip_strip. }
  destruct (quitar_prefijos_forma prefijos_remover base base Hs Hr) as [H1 [k H2]];
    [by exists 0|].
  set (x := foldl quitar_y_recortar base prefijos_remover) in *.
  clearbody x base.
  destruct (3 <=? String.length x) eqn:El; [|discriminate]. intros [= <-].
  apply Nat.leb_le in El. split_and!; [exact El|exact H1| |reflexivity|by exists k].
  rewrite H2. by apply blancos_simples_saltar.
Qed.

Lemma limpiar_razon_social_forma_testigo :
  3 ≤ String.length "CONSTRUCTORA XYZ"
  ∧ strip "CONSTRUCTORA XYZ" = "CONSTRUCTORA XYZ"
  ∧ blancos_simples "CONSTRUCTORA XYZ" = true
  ∧ verdadero (Some "  Por otra parte   CONSTRUCTORA  XYZ ") = true
  ∧ ∃ k, "CONSTRUCTORA XYZ"
         = saltar k (razon_base
                       (default EmptyString (Some "  Por otra parte   CONSTRUCTORA  XYZ "))).
Proof.
  apply (limpiar_razon_social_forma (Some "  Por otra parte   CONSTRUCTORA  XYZ ")).
  by vm_compute.
Defined.

(** ** E-mail *)

Lemma es_espacio_minuscula c : es_espacio (minuscula c) = es_espacio c.
Proof. por_caracter c. Qed.

Lemma minuscula_idem c : minuscula (minuscula c) = minuscula c.
Proof. por_caracter c. Qed.

Lemma lower_idem s : lower (lower s) = lower s.
Proof.
  induction s as [|c r IH]; [done|]. unfold lower in *. simpl.
  by rewrite minuscula_idem, IH.
Qed.

Lemma lower_cons c r : lower (String c r) = String (minuscula c) (lower r).
Proof. reflexivity. Qed.

Lemma lstrip_lower s : lstrip (lower s) = lower (lstrip s).
Proof.
  induction s as [|c r IH]; [done|]. rewrite lower_cons. cbn [lstrip].
  rewrite es_espacio_minuscula. by destruct (es_espacio c).
Qed.

Lemma rstrip_lower s : rstrip (lower s) = lower (rstrip s).
Proof.
  induction s as [|c r IH]; [done|]. rewrite lower_cons. cbn [rstrip].
  rewrite IH, es_espacio_minuscula.
  destruct (rstrip r); [|done]. by destruct (es_espacio c).
Qed.

Lemma strip_lower s : strip (lower s) = lower (strip s).
Proof. unfold strip. by rewrite lstrip_lower, rstrip_lower. Qed.

(** The candidate the steps of [llm] work on is left as it is by trimming
    and lower-casing. *)
Lemma lower_strip_fijo c : lower (strip (lower (strip c))) = lower (strip c).
Proof. by rewrite strip_lower, strip_idem, lower_idem. Qed.

Lemma strip_lower_strip c : strip (lower (strip c)) = lower (strip c).
Proof. by rewrite strip_lower, strip_idem. Qed.

Lemma length_rstrip s : String.length (rstrip s) ≤ String.length s.
Proof.
  induction s as [|c r IH]; [done|]. simpl.
  destruct (rstrip r); [destruct (es_espacio c)|]; simpl in *; lia.
Qed.

Lemma rstrip_app_final x c :
  es_espacio c = true → rstrip (x +:+ String c EmptyString) = rstrip x.
Proof.
  intros Hc. induction x as [|a x IH].
  - rewrite app_vacia_l. simpl. by rewrite Hc.
  - rewrite app_cons. cbn [rstrip]. by rewrite IH.
Qed.

Lemma sin_fin_de_linea x fin :
  rstrip (x +:+ fin) = x +:+ fin → es_fin fin = true → fin = EmptyString.
Proof.
  intros Hr Hf. destruct fin as [|c [|c' r]]; [done| |done].
  simpl in Hf. apply car_eqb_eq in Hf as ->.
  rewrite rstrip_app_final in Hr by done.
  pose proof (length_rstrip x) as Hl. rewrite Hr, length_app in Hl.
  simpl in Hl. lia.
Qed.

Lemma saltar_mientras_partes f s :
  ∃ pre, s = pre +:+ saltar_mientras f s ∧ todos f pre = true.
Proof.
  induction s as [|c r (pre & Hs & Hp)]; [by exists EmptyString|]. simpl.
  destruct (f c) eqn:E.
  - exists (String c pre). rewrite app_cons, <- Hs. simpl. by rewrite E, Hp.
  - by exists EmptyString.
Qed.

Lemma coincide_tld_partes s :
  coincide_tld s = true →
  ∃ tld fin, s = tld +:+ fin ∧ 2 ≤ String.length tld
             ∧ todos letra_ascii_min tld = true ∧ es_fin fin = true.
Proof.
  unfold coincide_tld. intros [Hl%Nat.leb_le Hf]%andb_true_iff.
  destruct (saltar_mientras_partes letra_ascii_min s) as (pre & Hs & Hp).
  exists pre, (saltar_mientras letra_ascii_min s). split_and!; try done.
  rewrite Hs, length_app in Hl at 1. lia.
Qed.

Lemma coincide_dominio_partes s : ∀ visto,
  coincide_dominio visto s = true →
  ∃ dom tld fin, s = dom +:+ String "." (tld +:+ fin)
    ∧ (visto = false → dom ≠ EmptyString)
    ∧ todos clase_dominio dom = true
    ∧ 2 ≤ String.length tld ∧ todos letra_ascii_min tld = true
    ∧ es_fin fin = true.
Proof.
  induction s as [|c r IH]; intros visto; [done|]. cbn [coincide_dominio].
  intros [[[Hv Hc]%andb_true_iff Ht]%andb_true_iff|[Hc Hr]%andb_true_iff]%orb_true_iff.
  - apply car_eqb_eq in Hc as ->.
    destruct (coincide_tld_partes r Ht) as (tld & fin & -> & H1 & H2 & H3).
    exists EmptyString, tld, fin. split_and!; try done. intros ->. done.
  - destruct (IH true Hr) as (dom & tld & fin & -> & _ & H1 & H2 & H3 & H4).
    exists (String c dom), tld, fin. split_and!; try done.
    simpl. by rewrite Hc, H1.
Qed.

Lemma formato_correo_partes s :
  formato_correo s = true →
  ∃ m fin, s = m +:+ fin ∧ forma_correo m ∧ es_fin fin = true.
Proof.
  unfold formato_correo. intros [Hl%Nat.leb_le Hr]%andb_true_iff.
  destruct (saltar_mientras_partes clase_local s) as (loc & Hs & Hloc).
  destruct (saltar_mientras clase_local s) as [|c r] eqn:E; [done|].
  apply andb_true_iff in Hr as [Hc Hd]. apply car_eqb_eq in Hc as ->.
  destruct (coincide_dominio_partes r false Hd)
    as (dom & tld & fin & -> & H0 & H1 & H2 & H3 & H4).
  exists (loc +:+ String "@" (dom +:+ String "." tld)), fin. split_and!; [|exists loc, dom, tld|done].
  - rewrite Hs. rewrite app_asoc, app_cons. f_equal. f_equal.
    rewrite app_asoc, app_cons. done.
  - split_and!; try done; [|by apply H0].
    intros ->. rewrite Hs, app_vacia_l in Hl. lia.
Qed.

Lemma alguno_app f a b : alguno f (a +:+ b) = alguno f a || alguno f b.
Proof.
  induction a as [|c a IH]; [done|]. rewrite app_cons. simpl.
  by rewrite IH, orb_assoc.
Qed.

Lemma forma_correo_arroba m :
  forma_correo m → alguno (car_eqb "@") m = true ∧ m ≠ EmptyString.
Proof.
  intros (loc & dom & tld & -> & Hne & _). split.
  - rewrite alguno_app. cbn [alguno]. rewrite car_eqb_refl. cbn [orb].
    apply orb_true_r.
  - by destruct loc.
Qed.

Lemma lower_sin_arroba m :
  alguno (car_eqb "@") (lower m) = true → no_es_nulo m = true.
Proof.
  intros H. unfold no_es_nulo. apply negb_true_iff, bool_decide_eq_false.
  intros Hin. apply list_elem_of_In in Hin. simpl in Hin.
  destruct Hin as [Hi|[Hi|[Hi|[]]]]; rewrite <- Hi in H; discriminate.
Qed.

Lemma llm_mail_Some correo m :
  llm_mail correo = Some m →
  ∃ c, correo = Some c ∧ m = lower (strip c)
       ∧ formato_correo m = true
       ∧ es_correo_estado (Some m) = false
       ∧ existsb (λ patron, coincide_correo patron m) correos_sospechosos = false.
Proof.
  unfold llm_mail. destruct correo as [c|]; [|done].
  destruct (verdadero (Some c) && no_es_nulo c); [|done]. cbv zeta.
  destruct (formato_correo (lower (strip c))) eqn:Ef; [|done].
  destruct (es_correo_estado (Some (lower (strip c)))) eqn:Ee; [done|].
  destruct (existsb _ correos_sospechosos) eqn:Es; [done|].
  cbn [negb]. intros [= <-]. by exists c.
Qed.

(** X7. An address stored by the "mail" step of [llm] reads local part,
    "@", domain, ".", top-level domain: a non-empty local part of
    [a-z0-9._%+-], a non-empty domain of [a-z0-9.-] and two or more
    letters a-z, nothing before or after (so no upper-case letter and no
    whitespace).  The step is idempotent: run again on a stored address it
    stores the same address. *)
Theorem llm_mail_forma (correo : option string) (m : string) :
  llm_mail correo = Some m →
  forma_correo m ∧ llm_mail (Some m) = Some m.
Proof.
  intros (c & -> & Hm & Hf & He & Hs)%llm_mail_Some.
  assert (Hstrip : strip m = m) by (rewrite Hm; apply strip_lower_strip).
  assert (Hfijo : lower (strip m) = m) by (rewrite Hm; apply lower_strip_fijo).
  destruct (formato_correo_partes m Hf) as (m' & fin & Hmm & Hforma & Hfin).
  assert (fin = EmptyString) as ->.
  { apply (sin_fin_de_linea m'); [|done]. rewrite <- Hmm.
    rewrite <- Hstrip. apply rstrip_strip. }
  rewrite app_vacia_r in Hmm. subst m'. split; [done|].
  destruct (forma_correo_arroba _ Hforma) as [Ha Hne].
  unfold llm_mail. rewrite Hfijo.
  assert (Hn : no_es_nulo m = true).
  { pose proof Hfijo as Hlow. rewrite Hstrip in Hlow.
    apply lower_sin_arroba. by rewrite Hlow. }
  assert (Hv : verdadero (Some m) = true) by (by destruct m).
  by rewrite Hv, Hn, Hf, He, Hs.
Qed.

Lemma llm_mail_forma_testigo :
  forma_correo "ventas@acme.com.ec"
  ∧ llm_mail (Some "ventas@acme.com.ec") = Some "ventas@acme.com.ec".
Proof.
  apply (llm_mail_forma (Some " Ventas@Acme.com.ec ")). by vm_compute.
Defined.

Lemma empieza_con_partes p : ∀ s,
  empieza_con p s = true → s = p +:+ saltar (String.length p) s.
Proof.
  induction p as [|a p IH]; intros s; [done|].
  destruct s as [|c r]; [done|]. simpl.
  intros [->%car_eqb_eq Hp]%andb_true_iff. rewrite app_cons. f_equal. by apply IH.
Qed.

Lemma es_fin_casos fin :
  es_fin fin = true → fin = EmptyString ∨ fin = String LF EmptyString.
Proof.
  destruct fin as [|c [|c' r]]; [by left| |done].
  simpl. intros ->%car_eqb_eq. by right.
Qed.

Lemma busca_correo_mono p q :
  (∀ s, coincide_correo p s = true → coincide_correo q s = true) →
  ∀ s, busca_correo p s = true → busca_correo q s = true.
Proof.
  intros Hpq. induction s as [|c r IH]; simpl.
  - rewrite !orb_false_r. apply Hpq.
  - intros [H|H]%orb_true_iff; apply orb_true_iff; [left; by apply Hpq|right; by apply IH].
Qed.

(** A literal domain anchored at the end is an instance of the pattern
    with the wildcard, once it is so with and without a final line feed. *)
Lemma hasta_fin_comodin l suf :
  coincide_correo (Comodin_fin "@" suf) l = true →
  coincide_correo (Comodin_fin "@" suf) (l +:+ String LF EmptyString) = true →
  ∀ s, busca_correo (Hasta_fin l) s = true →
       busca_correo (Comodin_fin "@" suf) s = true.
Proof.
  intros H1 H2. apply busca_correo_mono. intros s.
  cbn [coincide_correo]. intros [Hp Hf]%andb_true_iff.
  rewrite (empieza_con_partes _ _ Hp).
  destruct (es_fin_casos _ Hf) as [->| ->]; [by rewrite app_vacia_r|done].
Qed.

(** X8. Six of the twelve patterns of [es_correo_estado] never decide:
    an address that ends in one of the listed domains of the State
    ("@quito.gob.ec", "@salud.gob.ec", ...) is already caught by the
    pattern for every "@....gob.ec".  The filter gives the same answer with
    the two wildcard patterns and the four host prefixes alone. *)
Theorem es_correo_estado_redundante (correo : option string) :
  es_correo_estado correo
  = verdadero correo
    && existsb (λ patron,
                  busca_correo patron (strip (lower (default EmptyString correo))))
         [ Comodin_fin "@" ".gob.ec"; Comodin_fin "@" ".edu.ec";
           Literal "@municipio."; Literal "@gad."; Literal "@prefectura.";
           Literal "@ministerio." ].
Proof.
  unfold es_correo_estado. destruct (verdadero correo); [|done]. cbn [negb andb].
  set (s := strip (lower (default EmptyString correo))). clearbody s.
  assert (H : ∀ l, l ∈ ["@quito.gob.ec"; "@guayaquil.gob.ec"; "@ambato.gob.ec";
                         "@cne.gob.ec"; "@educacion.gob.ec"; "@salud.gob.ec"] →
              busca_correo (Comodin_fin "@" ".gob.ec") s = false →
              busca_correo (Hasta_fin l) s = false).
  { intros l Hl Hg. destruct (busca_correo (Hasta_fin l) s) eqn:E; [|done].
    rewrite <- Hg. symmetry. revert E. apply hasta_fin_comodin;
      apply list_elem_of_In in Hl; simpl in Hl;
      repeat (destruct Hl as [<-|Hl]; [by vm_compute|]); done. }
  cbn [existsb dominios_estado].
  destruct (busca_correo (Comodin_fin "@" ".gob.ec") s) eqn:Eg; [done|].
  rewrite !H by (done || compute_done). done.
Qed.

(** ** Address *)

Lemma sub_blancos_id s : blancos_simples s = true → sub_blancos s = s.
Proof.
  induction s as [|c r IH]; [done|]. cbn [blancos_simples sub_blancos].
  intros [Hc Hr]%andb_true_iff. rewrite (IH Hr).
  destruct (es_espacio c) eqn:Ec; [|done]. cbn [negb orb] in Hc.
  apply andb_true_iff in Hc as [->%car_eqb_eq Hn].
  destruct r as [|c' r']; [done|]. apply negb_true_iff in Hn. by rewrite Hn.
Qed.

Lemma lstrip_strip s : lstrip (strip s) = strip s.
Proof. unfold strip. apply lstrip_rstrip, lstrip_idem. Qed.

Lemma lstrip_sub_blancos s : lstrip s = s → lstrip (sub_blancos s) = sub_blancos s.
Proof.
  destruct s as [|c r]; [done|]. cbn [lstrip sub_blancos].
  destruct (es_espacio c) eqn:Ec.
  - intros H. pose proof (lstrip_saltar r) as [k Hk]. rewrite Hk in H.
    assert (Hl : String.length (saltar k r) = String.length (String c r)) by (by rewrite H).
    rewrite length_saltar in Hl. simpl in Hl. lia.
  - intros _. cbn [lstrip]. by rewrite Ec.
Qed.

Lemma sub_blancos_cons c r :
  sub_blancos (String c r)
  = if es_espacio c then
      match r with
      | String c' _ =>
          if es_espacio c' then sub_blancos r else String SP (sub_blancos r)
      | EmptyString => String SP EmptyString
      end
    else String c (sub_blancos r).
Proof. reflexivity. Qed.

Lemma sub_blancos_no_vacia c r : sub_blancos (String c r) ≠ EmptyString.
Proof.
  revert c. induction r as [|c' r IH]; intros c; rewrite sub_blancos_cons.
  - by destruct (es_espacio c).
  - destruct (es_espacio c); [|done]. destruct (es_espacio c'); [apply IH|done].
Qed.

Lemma rstrip_sub_blancos s : rstrip s = s → rstrip (sub_blancos s) = sub_blancos s.
Proof.
  induction s as [|c r IH]; [done|]. intros H.
  pose proof (rstrip_cola _ _ H) as Hr. specialize (IH Hr).
  destruct r as [|c' r'].
  - simpl in H. cbn [sub_blancos]. destruct (es_espacio c) eqn:Ec; [done|].
    simpl. by rewrite Ec.
  - pose proof (sub_blancos_no_vacia c' r') as Hne.
    change (sub_blancos (String c (String c' r'))) with
      (if es_espacio c
       then if es_espacio c' then sub_blancos (String c' r')
            else String SP (sub_blancos (String c' r'))
       else String c (sub_blancos (String c' r'))).
    destruct (es_espacio c); [destruct (es_espacio c'); [done|]|];
      by apply rstrip_cons.
Qed.

Lemma strip_sub_blancos s :
  strip (sub_blancos (strip s)) = sub_blancos (strip s).
Proof.
  unfold strip at 1. rewrite lstrip_sub_blancos by apply lstrip_strip.
  apply rstrip_sub_blancos, rstrip_strip.
Qed.

(** The test against "null" comes before the trimming: a padded "null"
    is stored, and is not a value the step would accept again. *)
Lemma llm_domicilio_nulo_ej :
  llm_domicilio (Some " null ") = Some "null" ∧ llm_domicilio (Some "null") = None.
Proof. split; reflexivity. Qed.

(** X9. An address stored by the "domicilio" step of [llm] has between
    1 and 250 characters, neither starts nor ends with whitespace and has
    no whitespace but single blanks.  The step is idempotent on what it
    stores, but for a stored "null" or "none" (the test against these words
    comes before the trimming, so a padded " null " is stored as
    "null"). *)
Theorem llm_domicilio_forma (domicilio : option string) (d : string) :
  llm_domicilio domicilio = Some d →
  1 ≤ String.length d ≤ 250
  ∧ strip d = d
  ∧ blancos_simples d = true
  ∧ (no_es_nulo d = true → llm_domicilio (Some d) = Some d).
Proof.
  unfold llm_domicilio at 1. destruct domicilio as [x|]; [|done].
  destruct (verdadero (Some x) && no_es_nulo x); [|done]. cbv zeta.
  destruct (busca_ci [Lit "para todos los efectos"] (sub_blancos (strip x))) eqn:Eb;
    [done|].
  set (t := sub_blancos (strip x)) in *.
  destruct (es_direccion_institucional (Some t)) eqn:Ei; [done|].
  destruct ((0 <? String.length t) && (String.length t <=? 250)) eqn:El; [|done].
  intros [= <-].
  assert (Hs : strip t = t) by apply strip_sub_blancos.
  assert (Hb : blancos_simples t = true) by apply blancos_simples_sub_blancos.
  pose proof El as El'.
  apply andb_true_iff in El' as [H0%Nat.ltb_lt H250%Nat.leb_le].
  split_and!; [lia|done|done|done|].
  intros Hn. unfold llm_domicilio.
  assert (Hv : verdadero (Some t) = true) by (destruct t; [simpl in H0; lia|done]).
  rewrite Hv, Hn. cbn [andb]. rewrite Hs, (sub_blancos_id t Hb).
  clearbody t. by rewrite Eb, Ei, El.
Qed.

Lemma llm_domicilio_forma_testigo :
  1 ≤ String.length "Av. 10 de Agosto N23-45 y Colon" ≤ 250
  ∧ strip "Av. 10 de Agosto N23-45 y Colon" = "Av. 10 de Agosto N23-45 y Colon"
  ∧ blancos_simples "Av. 10 de Agosto N23-45 y Colon" = true
  ∧ (no_es_nulo "Av. 10 de Agosto N23-45 y Colon" = true →
     llm_domicilio (Some "Av. 10 de Agosto N23-45 y Colon")
     = Some "Av. 10 de Agosto N23-45 y Colon").
Proof.
  apply (llm_domicilio_forma (Some "  Av. 10 de Agosto   N23-45 y  Colon ")).
  by vm_compute.
Defined.

(** ** The "razon_social" step of llm *)

Lemma limpiar_razon_social_Some razon r :
  Razon.limpiar_razon_social razon = Some r →
  3 ≤ String.length r ∧ strip r = r ∧ blancos_simples r = true.
Proof.
  unfold Razon.limpiar_razon_social.
  destruct (verdadero razon) eqn:Hv; [|done]. cbn [negb].
  set (base := razon_base (default EmptyString razon)).
  destruct (razon_base_forma (default EmptyString razon)) as [Hs Hb].
  fold base in Hs, Hb.
  assert (Hr : rstrip base = base).
  { rewrite <- Hs. apply rstrip_strip. }
  destruct (quitar_prefijos_forma prefijos_remover base base Hs Hr) as [H1 [k H2]];
    [by exists 0|].
  set (x := foldl quitar_y_recortar base prefijos_remover) in *.
  clearbody x base.
  destruct (3 <=? String.length x) eqn:El; [|discriminate]. intros [= <-].
  apply Nat.leb_le in El. split_and!; [exact El|exact H1|].
  rewrite H2. by apply blancos_simples_saltar.
Qed.

Lemma empieza_ci_lower l : ∀ s, empieza_ci l s = empieza_con (lower l) (lower s).
Proof.
  induction l as [|a l IH]; intros s; [done|].
  destruct s as [|c r]; [done|]. rewrite !lower_cons. simpl. by rewrite IH.
Qed.

Lemma busca_ci_literal l s : busca_ci [Lit l] s = contiene (lower l) (lower s).
Proof.
  induction s as [|c r IH].
  - simpl. by rewrite empieza_ci_lower, andb_true_r.
  - rewrite lower_cons. cbn [busca_ci contiene coincide_ci].
    rewrite IH, empieza_ci_lower, andb_true_r. by rewrite lower_cons.
Qed.

(** X10. A company name stored by the "razon_social" step of [llm] has
    three characters or more, neither starts nor ends with whitespace, has
    no whitespace but single blanks, and names no public body: written in
    lower case it contains none of the words listed, wherever they stand
    (so "gad" inside a longer word also discards the name). *)
Theorem llm_razon_social_forma (razon : option string) (r : string) :
  llm_razon_social razon = Some r →
  3 ≤ String.length r
  ∧ strip r = r
  ∧ blancos_simples r = true
  ∧ ∀ k, k ∈ ["gobierno"; "municipal"; "gad"; "universidad"; "municipio";
              "alcalde"; "prefectura"; "consejo"; "ministerio"; "distrital";
              "senae"; "director"; "salud"] →
         contiene k (lower r) = false.
Proof.
  unfold llm_razon_social. destruct razon as [x|]; [|done].
  destruct (verdadero (Some x) && no_es_nulo x); [|done]. cbv zeta.
  destruct (Razon.limpiar_razon_social (Some x)) as [y|] eqn:E; [|done].
  destruct (verdadero (Some y) && _); [|done].
  destruct (looks_like_employer (Some y)) eqn:Ee; [done|]. intros [= <-].
  destruct (limpiar_razon_social_Some _ _ E) as (H1 & H2 & H3).
  split_and!; try done. intros k Hk.
  unfold looks_like_employer in Ee. cbn [default from_option id] in Ee.
  destruct y as [|c y']; [simpl in H1; lia|]. cbn [verdadero andb] in Ee.
  rewrite existsb_false in Ee.
  assert (Hb : ∀ K, [Lit K] ∈ BAD_EMP → contiene (lower K) (lower (String c y')) = false).
  { intros K HK. rewrite <- busca_ci_literal. by apply Ee. }
  apply list_elem_of_In in Hk. simpl in Hk.
  repeat (destruct Hk as [<-|Hk]); [..|done];
    first [ apply (Hb "GOBIERNO") | apply (Hb "MUNICIPAL") | apply (Hb "GAD")
          | apply (Hb "UNIVERSIDAD") | apply (Hb "MUNICIPIO") | apply (Hb "ALCALDE")
          | apply (Hb "PREFECTURA") | apply (Hb "CONSEJO") | apply (Hb "MINISTERIO")
          | apply (Hb "DISTRITAL") | apply (Hb "SENAE") | apply (Hb "DIRECTOR")
          | apply (Hb "SALUD") ];
    apply list_elem_of_In; simpl; repeat (first [left; reflexivity | right]).
Qed.

Lemma llm_razon_social_forma_testigo :
  3 ≤ String.length "CONSTRUCTORA XYZ"
  ∧ strip "CONSTRUCTORA XYZ" = "CONSTRUCTORA XYZ"
  ∧ blancos_simples "CONSTRUCTORA XYZ" = true
  ∧ ∀ k, k ∈ ["gobierno"; "municipal"; "gad"; "universidad"; "municipio";
              "alcalde"; "prefectura"; "consejo"; "ministerio"; "distrital";
              "senae"; "director"; "salud"] →
         contiene k (lower "CONSTRUCTORA XYZ") = false.
Proof.
  apply (llm_razon_social_forma (Some "Representado por  CONSTRUCTORA XYZ ")).
  by vm_compute.
Defined.

(** ** Block lists of pre_filtro: coverage and separation *)

Lemma quitar_primero_elementos x l l' :
  quitar_primero x l = Ok l' → ∀ b, b ∈ l → b = x ∨ b ∈ l'.
Proof.
  revert l'. induction l as [|y r IH]; intros l'; [done|]. simpl.
  destruct (decide (x = y)) as [->|Hne].
  - intros [= <-] b [->|Hb]%elem_of_cons; auto.
  - destruct (quitar_primero x r) as [l0|] eqn:E; [|done]. simpl.
    intros [= <-] b [->|Hb]%elem_of_cons.
    + right. by left.
    + destruct (IH l0 eq_refl b Hb); [by left|right; by right].
Qed.

Lemma cubre_mas l l' i f :
  (∀ b, b ∈ l → b ∈ l') → cubre l i f → cubre l' i f.
Proof. intros H (b & Hb & H1 & H2). exists b. auto. Qed.

Section Cobertura.

Variables (finditer : motor) (texto_norm texto_lower : string).

Lemma registrar_cubre bloques inicio fin :
  Forall (es_rebanada texto_norm) bloques →
  ∃ l, registrar texto_norm bloques inicio fin = Ok l
       ∧ Forall (es_rebanada texto_norm) l
       ∧ cubre l inicio fin
       ∧ ∀ i f, cubre bloques i f → cubre l i f.
Proof.
  intros Hreb. unfold registrar.
  destruct (find (solapa inicio fin) bloques) as [[[ie fe] t]|] eqn:Ef.
  - apply find_some in Ef as [Hin%list_elem_of_In _].
    pose proof (proj1 (Forall_forall _ _) Hreb _ Hin) as Ht.
    unfold es_rebanada in Ht. simpl in Ht. subst t.
    destruct ((inicio <? ie) || (fe <? fin)) eqn:Ew.
    + destruct (quitar_primero_presente _ _ Hin) as [l' Hl']. rewrite Hl'. simpl.
      eexists. split; [done|]. split_and!.
      * apply Forall_app. split; [by eapply quitar_primero_Forall|].
        by apply Forall_singleton.
      * eexists. split; [apply elem_of_app; right; by left|]. simpl. lia.
      * intros i f (b & Hb & H1 & H2).
        destruct (quitar_primero_elementos _ _ _ Hl' b Hb) as [->|Hb'].
        -- eexists. split; [apply elem_of_app; right; by left|]. simpl in *. lia.
        -- exists b. split; [apply elem_of_app; by left|done].
    + exists bloques. split_and!; try done.
      apply orb_false_iff in Ew as [H1%Nat.ltb_ge H2%Nat.ltb_ge].
      eexists. split; [exact Hin|]. simpl. lia.
  - eexists. split; [done|]. split_and!.
    + apply Forall_app. split; [done|]. by apply Forall_singleton.
    + eexists. split; [apply elem_of_app; right; by left|]. simpl. lia.
    + intros i f. apply cubre_mas. intros b Hb. apply elem_of_app. by left.
Qed.

Lemma procesar_matches_cubre antes despues ms : ∀ bs,
  Forall (es_rebanada texto_norm) bs →
  ∃ l, foldl (procesar_match texto_norm antes despues) (Ok bs) ms = Ok l
       ∧ Forall (es_rebanada texto_norm) l
       ∧ (∀ i f, cubre bs i f → cubre l i f)
       ∧ ∀ m, m ∈ ms →
           cubre l (ventana texto_norm antes despues m).1
                   (ventana texto_norm antes despues m).2.
Proof.
  induction ms as [|m ms IH]; intros bs Hreb.
  - exists bs. split_and!; try done. by intros m ?%elem_of_nil.
  - cbn [foldl]. rewrite procesar_match_Ok.
    destruct (registrar_cubre bs (Nat.max 0 (m.1 - antes))
                (Nat.min (String.length texto_norm) (m.2 + despues)) Hreb)
      as (l1 & -> & Hreb1 & Hc1 & Hold1).
    destruct (IH l1 Hreb1) as (l & -> & Hreb2 & Hold2 & Hms).
    exists l. split_and!; try done; [by auto|].
    intros m' [->|Hm']%elem_of_cons; [by apply Hold2|by apply Hms].
Qed.

Lemma buscar_bloques_cubre_aux ps : ∀ bs,
  Forall (es_rebanada texto_norm) bs →
  ∃ l, foldl (procesar_patron finditer texto_norm texto_lower) (Ok bs) ps = Ok l
       ∧ Forall (es_rebanada texto_norm) l
       ∧ (∀ i f, cubre bs i f → cubre l i f)
       ∧ ∀ p m, p ∈ ps → m ∈ finditer p.1.1 texto_lower →
           cubre l (ventana texto_norm p.1.2 p.2 m).1
                   (ventana texto_norm p.1.2 p.2 m).2.
Proof.
  induction ps as [|[[patron antes] despues] ps IH]; intros bs Hreb.
  - exists bs. split_and!; try done. by intros p m ?%elem_of_nil.
  - cbn [foldl procesar_patron].
    destruct (procesar_matches_cubre antes despues (finditer patron texto_lower) bs Hreb)
      as (l1 & -> & Hreb1 & Hold1 & Hms1).
    destruct (IH l1 Hreb1) as (l & -> & Hreb2 & Hold2 & Hps).
    exists l. split_and!; try done; [by auto|].
    intros p m [->|Hp]%elem_of_cons Hm; [|by apply Hps].
    apply Hold2. by apply Hms1.
Qed.

End Cobertura.

(** X11. Whatever the matching engine reports, the search for blocks
    never fails (the [remove] of lines 378 always finds its element), every
    block kept is the slice of the normalized text between its two offsets,
    and the window of every match of every catalog pattern lies inside one
    of the blocks kept. *)
Theorem buscar_bloques_cubre (finditer : motor) (texto_norm texto_lower : string) :
  ∃ l, buscar_bloques finditer texto_norm texto_lower = Ok l
       ∧ Forall (es_rebanada texto_norm) l
       ∧ ∀ p m, p ∈ patrones_clave → m ∈ finditer p.1.1 texto_lower →
           cubre l (ventana texto_norm p.1.2 p.2 m).1
                   (ventana texto_norm p.1.2 p.2 m).2.
Proof.
  destruct (buscar_bloques_cubre_aux finditer texto_norm texto_lower patrones_clave [])
    as (l & Hl & Hreb & _ & Hc); [done|].
  exists l. by split_and!.
Qed.

(** *** Sorting and fusing *)

Lemma insertar_elementos b l x : x ∈ insertar b l ↔ x = b ∨ x ∈ l.
Proof.
  induction l as [|y r IH]; simpl.
  - rewrite list_elem_of_singleton. split; [by left|]. by intros [?|?%elem_of_nil].
  - destruct (b.1.1 <=? y.1.1).
    + by rewrite elem_of_cons.
    + rewrite !elem_of_cons, IH. tauto.
Qed.

Lemma ordenar_elementos l x : x ∈ ordenar l ↔ x ∈ l.
Proof.
  induction l as [|y r IH]; [done|]. simpl.
  rewrite insertar_elementos, elem_of_cons, IH. tauto.
Qed.

Lemma insertar_ordenado b l : ordenado l → ordenado (insertar b l).
Proof.
  induction l as [|y r IH]; simpl; [done|]. intros [Hy Hr].
  destruct (b.1.1 <=? y.1.1) eqn:E.
  - apply Nat.leb_le in E. simpl. split_and!; try done.
    constructor; [done|]. eapply Forall_impl; [exact Hy|]. simpl. intros; lia.
  - apply Nat.leb_gt in E. simpl. split; [|by apply IH].
    apply Forall_forall. intros x [->|Hx]%insertar_elementos; [lia|].
    by apply (proj1 (Forall_forall _ _) Hy).
Qed.

Lemma ordenar_ordenado l : ordenado (ordenar l).
Proof. induction l as [|y r IH]; [done|]. simpl. by apply insertar_ordenado. Qed.

Lemma length_insertar b l : length (insertar b l) = S (length l).
Proof.
  induction l as [|y r IH]; [done|]. simpl.
  destruct (b.1.1 <=? y.1.1); simpl; by rewrite ?IH.
Qed.

Lemma length_ordenar l : length (ordenar l) = length l.
Proof. induction l as [|y r IH]; [done|]. simpl. by rewrite length_insertar, IH. Qed.

Lemma separados_snoc l u :
  separados (l ++ [u]) ↔ separados l ∧ ∀ w, last l = Some w → w.1.2 + 500 ≤ u.1.1.
Proof.
  induction l as [|a l IH].
  - simpl. split; [|done]. intros _. split; [done|]. by intros w [=].
  - destruct l as [|b l'].
    + simpl. split.
      * intros [H _]. split; [done|]. by intros w [= <-].
      * intros [_ H]. split; [|done]. by apply H.
    + change ((a :: b :: l') ++ [u]) with (a :: ((b :: l') ++ [u])).
      change (separados (a :: (b :: l') ++ [u]))
        with (a.1.2 + 500 ≤ b.1.1 ∧ separados ((b :: l') ++ [u])).
      change (separados (a :: b :: l'))
        with (a.1.2 + 500 ≤ b.1.1 ∧ separados (b :: l')).
      change (last (a :: b :: l')) with (last (b :: l')).
      rewrite IH. tauto.
Qed.

Lemma separados_lookup l : ∀ i b1 b2,
  separados l → l !! i = Some b1 → l !! S i = Some b2 → b1.1.2 + 500 ≤ b2.1.1.
Proof.
  induction l as [|a l IH]; intros i b1 b2; [done|].
  intros [Ha Hl]. destruct i as [|i].
  - simpl. intros [= <-]. destruct l as [|b l']; [done|]. by intros [= <-].
  - simpl. by apply IH.
Qed.

Lemma fusionar_cercanos_paso texto_norm acc b :
  separados acc →
  (∀ u, last acc = Some u → u.1.1 ≤ b.1.1) →
  let acc' := fusionar_cercanos texto_norm acc b in
  separados acc'
  ∧ (∀ i f, cubre acc i f → cubre acc' i f)
  ∧ cubre acc' b.1.1 b.1.2
  ∧ length acc' ≤ S (length acc)
  ∧ (∀ u', last acc' = Some u' → u'.1.1 ≤ b.1.1)
  ∧ (Forall (es_rebanada texto_norm) acc → es_rebanada texto_norm b →
     Forall (es_rebanada texto_norm) acc').
Proof.
  intros Hsep Hlast. destruct b as [[inicio fin] t]. unfold fusionar_cercanos.
  destruct (last acc) as [[[ui uf] ut]|] eqn:El.
  - apply last_Some in El as [l' ->].
    specialize (Hlast _ eq_refl). simpl in Hlast.
    apply separados_snoc in Hsep as [Hsep Hw].
    destruct (Z.of_nat inicio - Z.of_nat uf <? 500)%Z eqn:Ez.
    + rewrite removelast_last. cbv zeta. split_and!.
      * apply separados_snoc. split; [done|]. exact Hw.
      * intros i f (x & [Hx|Hx]%elem_of_app & H1 & H2).
        -- exists x. split; [apply elem_of_app; by left|done].
        -- apply list_elem_of_singleton in Hx as ->. simpl in *.
           eexists. split; [apply elem_of_app; right; by left|]. simpl. lia.
      * eexists. split; [apply elem_of_app; right; by left|]. simpl. lia.
      * rewrite !List.length_app. simpl. lia.
      * intros u'. rewrite last_snoc. by intros [= <-].
      * intros [Hl' _]%Forall_app _. apply Forall_app. split; [done|].
        by apply Forall_singleton.
    + apply Z.ltb_ge in Ez. cbv zeta. split_and!.
      * apply separados_snoc. split.
        -- apply separados_snoc. by split.
        -- intros w. rewrite last_snoc. intros [= <-]. simpl. lia.
      * intros i f. apply cubre_mas. intros x Hx. apply elem_of_app. by left.
      * eexists. split; [apply elem_of_app; right; by left|]. simpl. lia.
      * rewrite !List.length_app. simpl. lia.
      * intros u'. rewrite last_snoc. by intros [= <-].
      * intros Hacc Hb. apply Forall_app. split; [done|]. by apply Forall_singleton.
  - apply last_None in El as ->. cbv zeta. cbn [app]. split_and!.
    + simpl. tauto.
    + by intros i f (x & ?%elem_of_nil & _).
    + eexists. split; [by left|]. simpl. lia.
    + simpl. lia.
    + by intros u' [= <-].
    + intros _ Hb. by apply Forall_singleton.
Qed.

Lemma fusionar_todos texto_norm bs : ∀ acc,
  ordenado bs → separados acc →
  (∀ u, last acc = Some u → Forall (λ x : bloque, u.1.1 ≤ x.1.1) bs) →
  let fus := foldl (fusionar_cercanos texto_norm) acc bs in
  separados fus
  ∧ (∀ i f, cubre acc i f → cubre fus i f)
  ∧ (∀ b, b ∈ bs → cubre fus b.1.1 b.1.2)
  ∧ length fus ≤ length acc + length bs
  ∧ (Forall (es_rebanada texto_norm) acc → Forall (es_rebanada texto_norm) bs →
     Forall (es_rebanada texto_norm) fus).
Proof.
  induction bs as [|b bs IH]; intros acc Hord Hsep Hlast.
  - simpl. split_and!; try done; [by intros b ?%elem_of_nil|lia].
  - destruct Hord as [Hb Hord]. cbn [foldl].
    destruct (fusionar_cercanos_paso texto_norm acc b Hsep)
      as (H1 & H2 & H3 & H4 & H5 & H6).
    { intros u Hu. specialize (Hlast u Hu). by apply Forall_inv in Hlast. }
    destruct (IH (fusionar_cercanos texto_norm acc b) Hord H1)
      as (I1 & I2 & I3 & I4 & I5).
    { intros u' Hu'. specialize (H5 u' Hu').
      eapply Forall_impl; [exact Hb|]. simpl. intros; lia. }
    cbv zeta. split_and!; try done.
    + by auto.
    + intros x [->|Hx]%elem_of_cons; [by apply I2|by apply I3].
    + simpl. lia.
    + intros Hacc [Hb' Hbs]%Forall_cons. by auto.
Qed.

(** X12. The fused blocks cover the blocks found and stay apart: after
    the sort and the fusing loop of lines 388-406, every block found lies
    inside a fused block, each fused block starts 500 characters or more
    after the end of the one before it, there are no more fused blocks than
    blocks found, and fused blocks are still slices of the normalized text
    when the blocks found are. *)
Theorem fusionar_cercanos_separa (texto_norm : string) (bloques_encontrados : list bloque) :
  let bloques_fusionados :=
    foldl (fusionar_cercanos texto_norm) [] (ordenar bloques_encontrados) in
  (∀ b, b ∈ bloques_encontrados → cubre bloques_fusionados b.1.1 b.1.2)
  ∧ (∀ i b1 b2, bloques_fusionados !! i = Some b1 →
       bloques_fusionados !! S i = Some b2 → b1.1.2 + 500 ≤ b2.1.1)
  ∧ length bloques_fusionados ≤ length bloques_encontrados
  ∧ (Forall (es_rebanada texto_norm) bloques_encontrados →
     Forall (es_rebanada texto_norm) bloques_fusionados).
Proof.
  destruct (fusionar_todos texto_norm (ordenar bloques_encontrados) [])
    as (H1 & _ & H3 & H4 & H5); [apply ordenar_ordenado|done|by intros u [=]|].
  cbv zeta. split_and!.
  - intros b Hb. apply H3. by apply ordenar_elementos.
  - intros i b1 b2. by apply separados_lookup.
  - rewrite length_ordenar in H4. simpl in H4. lia.
  - intros Hl. apply H5; [done|]. by apply ordenar_Forall.
Qed.

(** ** Persistence: what the UPDATE writes *)

Lemma emparejar_snoc cl : ∀ ps asigs a v,
  emparejar cl ps = Some asigs →
  (emparejar (cl ++ [SetParam a]) (ps ++ [v]) = Some (asigs ++ [(a, VParam v)]))
  ∧ (emparejar (cl ++ [SetMetadata]) (ps ++ [v])
     = Some (asigs ++ [("metadata", VJsonConcat v)])).
Proof.
  induction cl as [|x cl IH]; intros ps asigs a v; simpl.
  - destruct ps; [|done]. by intros [= <-].
  - destruct x as [c|c|].
    + destruct ps as [|p ps]; [done|].
      destruct (emparejar cl ps) as [r|] eqn:E; [|done]. simpl. intros [= <-].
      destruct (IH ps r a v E) as [-> ->]. done.
    + destruct (emparejar cl ps) as [r|] eqn:E; [|done]. simpl. intros [= <-].
      destruct (IH ps r a v E) as [-> ->]. done.
    + destruct ps as [|p ps]; [done|].
      destruct (emparejar cl ps) as [r|] eqn:E; [|done]. simpl. intros [= <-].
      destruct (IH ps r a v E) as [-> ->]. done.
Qed.

Lemma bien_emparejado_param finales st c v :
  bien_emparejado finales st →
  (c ∈ CONTRATISTA_FIELDS → dict_get finales c = Some v) →
  bien_emparejado finales (st.1 ++ [SetParam c], st.2 ++ [v]).
Proof.
  intros (asigs & He & Ha) Hc. exists (asigs ++ [(c, VParam v)]). split.
  - by apply emparejar_snoc.
  - intros c' e [Hin|Hin]%elem_of_app Hf; [by apply Ha|].
    apply list_elem_of_singleton in Hin as [= -> ->]. exists v. auto.
Qed.

Lemma bien_emparejado_add_update finales av st col v :
  bien_emparejado finales st →
  (col ∈ CONTRATISTA_FIELDS → dict_get finales col = v) →
  bien_emparejado finales (add_update av st col v).
Proof.
  intros Hst Hc. unfold add_update.
  destruct (bool_decide (col ∈ av)); [|done].
  destruct v as [v|]; [|done]. destruct (en_blanco v); [done|].
  by apply bien_emparejado_param.
Qed.

Lemma bien_emparejado_campos finales av l : ∀ st,
  bien_emparejado finales st →
  bien_emparejado finales (foldl (agregar_campo av finales) st l).
Proof.
  induction l as [|c l IH]; intros st Hst; [done|]. simpl. apply IH.
  rewrite agregar_campo_incluido. destruct (incluido av finales c) eqn:E; [|done].
  apply bien_emparejado_param; [done|]. intros _.
  unfold incluido, sin_valor in E. apply andb_true_iff in E as [_ E].
  by destruct (dict_get finales c).
Qed.

Lemma no_campo_fijo c :
  c ∈ ["updated_at"; "fecha_actualizacion"; "fuente_archivo"; "metadata"] →
  c ∉ CONTRATISTA_FIELDS.
Proof. intros Hc Hf. by destruct (campos_distintos c Hf) as [H _]. Qed.

Lemma asignar_presente (env : entorno) (vieja : gmap string string) asigs :
  ∀ (nueva : gmap string string) c e,
  NoDup (asigs.*1) → (c, e) ∈ asigs →
  foldl (λ nueva ce, <[ce.1 := evaluar env vieja ce.2]> nueva) nueva asigs !! c
  = Some (evaluar env vieja e).
Proof.
  induction asigs as [|[c' e'] asigs IH]; intros nueva c e Hnd Hin.
  - by apply elem_of_nil in Hin.
  - simpl in *. apply NoDup_cons in Hnd as [Hc' Hnd].
    apply elem_of_cons in Hin as [[= -> ->]|Hin].
    + rewrite asignar_otra by done. by apply lookup_insert_eq.
    + by apply IH.
Qed.

Lemma existe_cuenta codigo l :
  existsb (coincide_fila codigo) l = true →
  length (List.filter (coincide_fila codigo) l) ≠ 0.
Proof.
  induction l as [|f l IH]; [done|]. simpl.
  destruct (coincide_fila codigo f); simpl; [done|]. exact IH.
Qed.

Lemma elem_of_fst_emparejado (asigs : list (string * valor_sql)) c :
  c ∈ asigs.*1 → ∃ e, (c, e) ∈ asigs.
Proof.
  intros ([c' e] & -> & Hin)%list_elem_of_fmap. by exists e.
Qed.

Section Escritura.

Variable env : entorno.

Lemma construir_set_emparejado av datos fn :
  bien_emparejado (datos_limpios env datos) (construir_set env av datos fn).1.
Proof.
  unfold construir_set. cbv zeta.
  set (st0 := if bool_decide ("updated_at" ∈ av) then _ else _).
  set (finales := datos_limpios env datos).
  set (st1 := foldl (agregar_campo av finales) st0 CONTRATISTA_FIELDS).
  set (st2 := if bool_decide ("fuente_archivo" ∈ av) then _ else st1).
  set (st3 := if bool_decide ("metadata" ∈ av) then _ else st2).
  assert (Hahora : ∀ col, col ∉ CONTRATISTA_FIELDS →
            bien_emparejado finales ([SetNow col], [])).
  { intros col Hcol. exists [(col, VNow)]. split; [done|].
    intros c e Hin Hf. apply list_elem_of_singleton in Hin as [= -> ->]. done. }
  assert (H0 : bien_emparejado finales st0).
  { subst st0. destruct (bool_decide ("updated_at" ∈ av)).
    - apply Hahora, no_campo_fijo. compute_done.
    - destruct (bool_decide ("fecha_actualizacion" ∈ av)).
      + apply Hahora, no_campo_fijo. compute_done.
      + exists []. split; [done|]. by intros c e ?%elem_of_nil. }
  assert (H1 : bien_emparejado finales st1) by (by apply bien_emparejado_campos).
  assert (H2 : bien_emparejado finales st2).
  { subst st2. destruct (bool_decide ("fuente_archivo" ∈ av)); [|done].
    apply bien_emparejado_add_update; [done|]. intros Hf.
    exfalso. revert Hf. apply no_campo_fijo. compute_done. }
  assert (H3 : bien_emparejado finales st3).
  { subst st3. destruct (bool_decide ("metadata" ∈ av)); [|done].
    destruct H2 as (asigs & He & Ha). eexists. split.
    - cbn [fst snd]. exact (proj2 (emparejar_snoc _ _ _ EmptyString _ He)).
    - intros c e [Hin|Hin]%elem_of_app Hf; [by apply Ha|].
      apply list_elem_of_singleton in Hin as [= -> ->].
      exfalso. revert Hf. apply no_campo_fijo. compute_done. }
  clearbody st3. destruct st3 as [cl3 ps3]. cbn [fst snd].
  destruct cl3 as [|a r]; [|done].
  destruct (List.filter es_columna_fecha (orden_columnas env av)) as [|col cols] eqn:Ef;
    [done|].
  destruct H3 as (asigs & He & _). simpl in He. destruct ps3; [|done].
  apply Hahora. intros Hf. destruct (campos_distintos col Hf) as [_ Hfe].
  assert (Hin : col ∈ List.filter es_columna_fecha (orden_columnas env av))
    by (rewrite Ef; by left).
  apply list_elem_of_In, filter_In in Hin as [_ Hin]. congruence.
Qed.

Lemma ejecutar_update_escribe db cl ps codigo db' n :
  ejecutar_update env db cl ps codigo = Ok (db', n) →
  ∃ asigs, emparejar cl ps = Some asigs
    ∧ ∀ i f, filas db !! i = Some f →
        (coincide_fila codigo f = false → filas db' !! i = Some f)
        ∧ (coincide_fila codigo f = true →
           ∀ c e, (c, e) ∈ asigs → celda db' i c = Some (evaluar env f e)).
Proof.
  unfold ejecutar_update. destruct cl as [|a cl]; [done|].
  destruct (emparejar (a :: cl) ps) as [asigs|] eqn:E; [|done].
  destruct (negb _); [done|].
  destruct (bool_decide (NoDup asigs.*1)) eqn:End; [|done].
  apply bool_decide_eq_true in End. cbn [negb]. intros [= <- <-].
  exists asigs. split; [done|]. intros i f Hf. unfold celda. cbn [filas].
  rewrite list_lookup_fmap, Hf. cbn [fmap option_fmap option_map mbind option_bind].
  split; intros Hc; rewrite Hc; [done|].
  intros c e Hin. by apply asignar_presente.
Qed.

Lemma update_postgres_casos db file_data out db' :
  update_postgres env db file_data = (Ok out, db') →
  ∃ codigo, fd_codigo_proceso file_data = Some codigo
    ∧ ((update_status out = "skipped" ∧ db' = db
        ∧ existsb (coincide_fila codigo) (filas db) = false)
       ∨ (update_status out = "success"
          ∧ existsb (coincide_fila codigo) (filas db) = true
          ∧ ∃ n, ejecutar_update env db
                   (construir_set env (columnas db) (datos_de file_data)
                      (fd_file_name file_data)).1.1
                   (construir_set env (columnas db) (datos_de file_data)
                      (fd_file_name file_data)).1.2 codigo
                 = Ok (db', n))).
Proof.
  unfold update_postgres.
  destruct (fd_codigo_proceso file_data) as [codigo|] eqn:Ecod; [|done].
  destruct (verdadero (Some codigo)); [|done]. cbn [negb default from_option id].
  fold (datos_de file_data). intros H. exists codigo. split; [done|]. revert H.
  unfold seleccionar_existe at 1.
  destruct (bool_decide ("codigo_proceso" ∈ columnas db)); [|done].
  destruct (existsb (coincide_fila codigo) (filas db)) eqn:Eex.
  - destruct (construir_set env (columnas db) (datos_de file_data)
                (fd_file_name file_data)) as [[cl ps] datos] eqn:Ecs.
    destruct cl as [|a cl]; [done|]. cbn [fst snd].
    destruct (ejecutar_update env db (a :: cl) ps codigo) as [[db1 n]|] eqn:Eej; [|done].
    assert (Hn : (n =? 0) = false).
    { apply Nat.eqb_neq. unfold ejecutar_update in Eej.
      destruct (emparejar (a :: cl) ps); [|done].
      destruct (negb _); [done|]. destruct (negb _); [done|].
      injection Eej as <- <-. by apply existe_cuenta. }
    rewrite Hn. intros [= <- <-]. right. split_and!; [done|done|by exists n].
  - intros [= <- <-]. left. by split_and!.
Qed.

End Escritura.

(** X13. When [update_postgres] reports "success", every row that carries
    the process code of the document holds, in each contractor column the
    table has, the cleaned value of that field whenever this value is
    neither [None] nor blank: placeholders and parameters are paired
    correctly and no later assignment overwrites the column. *)
Theorem update_postgres_escribe (env : entorno) (db db' : tabla)
    (file_data : datos_archivo) (out : salida_update) (codigo : string) :
  update_postgres env db file_data = (Ok out, db') →
  update_status out = "success" →
  fd_codigo_proceso file_data = Some codigo →
  ∀ i f campo v,
    filas db !! i = Some f →
    f !! "codigo_proceso" = Some codigo →
    campo ∈ CONTRATISTA_FIELDS → campo ∈ columnas db →
    dict_get (datos_limpios env (datos_de file_data)) campo = Some v →
    en_blanco v = false →
    celda db' i campo = Some v.
Proof.
  intros Hup Hst Hcod i f campo v Hf Hcf Hcampo Hcol Hv Hb.
  destruct (update_postgres_casos env db file_data out db' Hup)
    as (codigo' & Hcod' & [(Hs & _)|(_ & Hex & n & Hej)]).
  { rewrite Hs in Hst. discriminate. }
  rewrite Hcod in Hcod'. injection Hcod' as <-.
  destruct (ejecutar_update_escribe env db _ _ codigo db' n Hej) as (asigs & He & Hrows).
  destruct (Hrows i f Hf) as [_ Hw].
  assert (Hco : coincide_fila codigo f = true) by (by apply bool_decide_eq_true).
  destruct (construir_set_emparejado env (columnas db) (datos_de file_data)
              (fd_file_name file_data)) as (asigs' & He' & Ha).
  rewrite He in He'. injection He' as <-.
  assert (Hin : campo ∈ asigs.*1).
  { rewrite (emparejar_columnas _ _ _ He). apply construir_set_incluye; [done|].
    unfold incluido, sin_valor. rewrite Hv, Hb.
    by rewrite bool_decide_eq_true_2. }
  apply elem_of_fst_emparejado in Hin as [e Hin].
  destruct (Ha campo e Hin Hcampo) as (v' & -> & Hv').
  rewrite Hv in Hv'. injection Hv' as <-.
  by rewrite (Hw Hco campo (VParam v) Hin).
Qed.

(** X14. [update_postgres] touches the rows of its own process code
    only: whatever the outcome, a row with another code is afterwards what
    it was.  When it reports "skipped" the table is unchanged and no row
    carries the code; when it reports "success" some row does. *)
Theorem update_postgres_otras_filas (env : entorno) (db : tabla)
    (file_data : datos_archivo) :
  (∀ i f, filas db !! i = Some f →
     f !! "codigo_proceso" ≠ fd_codigo_proceso file_data →
     filas (update_postgres env db file_data).2 !! i = Some f)
  ∧ (∀ out db', update_postgres env db file_data = (Ok out, db') →
       (update_status out = "skipped" ∧ db' = db
        ∧ ∀ f, f ∈ filas db → f !! "codigo_proceso" ≠ fd_codigo_proceso file_data)
       ∨ (update_status out = "success"
          ∧ ∃ f, f ∈ filas db ∧ f !! "codigo_proceso" = fd_codigo_proceso file_data)).
Proof.
  split.
  - intros i f Hf Hne. unfold update_postgres.
    destruct (fd_codigo_proceso file_data) as [codigo|] eqn:Ecod; [|done].
    destruct (verdadero (Some codigo)); cbn [negb]; [|done].
    cbn [default from_option id].
    destruct (seleccionar_existe db codigo) as [[|]|]; [|done|done].
    fold (datos_de file_data).
    destruct (construir_set env (columnas db) (datos_de file_data)
                (fd_file_name file_data)) as [[cl ps] datos].
    destruct cl as [|a cl]; [done|].
    destruct (ejecutar_update env db (a :: cl) ps codigo) as [[db1 n]|] eqn:Eej;
      [|done].
    destruct (ejecutar_update_escribe env db _ _ _ db1 n Eej) as (asigs & _ & Hrows).
    assert (Hi : filas db1 !! i = Some f).
    { apply (Hrows i f Hf). by apply bool_decide_eq_false. }
    destruct (n =? 0); [|done].
    by destruct (seleccionar_existe db1 codigo) as [[|]|].
  - intros out db' Hup.
    destruct (update_postgres_casos env db file_data out db' Hup)
      as (codigo & Hcod & [(Hs & -> & Hex)|(Hs & Hex & _)]).
    + left. split_and!; try done. intros f Hf. rewrite Hcod.
      rewrite existsb_false in Hex. specialize (Hex f Hf).
      by apply bool_decide_eq_false in Hex.
    + right. split; [done|]. apply existsb_exists in Hex as (f & Hf & Hc).
      exists f. split; [by apply list_elem_of_In|].
      rewrite Hcod. by apply bool_decide_eq_true in Hc.
Qed.

Lemma update_postgres_escribe_testigo :
  celda (update_postgres entorno_ejemplo tabla_dos_filas archivo_presente).2 0 "ruc"
  = Some "1790012345001".
Proof.
  destruct (update_postgres entorno_ejemplo tabla_dos_filas archivo_presente)
    as [[out|e] db'] eqn:E.
  - apply (update_postgres_escribe entorno_ejemplo tabla_dos_filas db' archivo_presente
             out "PROC-001" E
             ltac:(vm_compute in E; injection E as <- _; reflexivity) eq_refl
             0 {[ "codigo_proceso" := "PROC-001"; "razon_social" := "ACME S.A." ]}
             "ruc" "1790012345001").
    + reflexivity.
    + by vm_compute.
    + compute_done.
    + compute_done.
    + by vm_compute.
    + reflexivity.
  - vm_compute in E. discriminate.
Defined.

Lemma update_postgres_otras_filas_testigo :
  filas (update_postgres entorno_ejemplo tabla_dos_filas archivo_presente).2 !! 1
  = Some {[ "codigo_proceso" := "PROC-002"; "ruc" := "1790099999001" ]}.
Proof.
  apply (proj1 (update_postgres_otras_filas entorno_ejemplo tabla_dos_filas
                  archivo_presente)).
  - reflexivity.
  - by vm_compute.
Defined.

(** ** Final statistics *)

Lemma contar_particion (results : list salida_update) :
  (Z.of_nat (length results)
   = contar_estado "success" results + contar_estado "skipped" results
     + Z.of_nat (length (List.filter otro_estado results)))%Z.
Proof.
  unfold contar_estado. induction results as [|r l IH]; [done|].
  cbn [List.filter length]. unfold otro_estado at 1.
  destruct (bool_decide (update_status r = "success")) eqn:E1;
    destruct (bool_decide (update_status r = "skipped")) eqn:E2;
    cbn [negb andb length]; try lia.
  apply bool_decide_eq_true in E1, E2. congruence.
Qed.

(** X15. In the statistics of [log_results] the count of errors is the
    number of results whose status is neither "success" nor "skipped", so
    it is never negative and the three counts add up to the total.  On
    results that [update_postgres] returned the count of errors is 0: that
    task returns "success" or "skipped" and raises otherwise. *)
Theorem log_results_suma (results : list salida_update) :
  let e := log_results results in
  est_total e = Z.of_nat (length results)
  ∧ est_errores e = Z.of_nat (length (List.filter otro_estado results))
  ∧ (est_total e = est_exitosos e + est_omitidos e + est_errores e)%Z
  ∧ ((∀ r, r ∈ results →
        ∃ env db file_data db', update_postgres env db file_data = (Ok r, db')) →
     est_errores e = 0%Z).
Proof.
  cbv zeta. pose proof (contar_particion results) as Hp.
  assert (H : est_total (log_results results) = Z.of_nat (length results)
              ∧ est_errores (log_results results)
                = Z.of_nat (length (List.filter otro_estado results))
              ∧ (est_total (log_results results)
                 = est_exitosos (log_results results)
                   + est_omitidos (log_results results)
                   + est_errores (log_results results))%Z).
  { destruct results as [|r l]; [done|]. unfold log_results. cbn [est_total est_errores est_exitosos est_omitidos].
    split_and!; lia. }
  destruct H as (H1 & H2 & H3). split_and!; try done.
  intros Hr. rewrite H2.
  assert (Hf : List.filter otro_estado results = []).
  { clear -Hr. induction results as [|r l IH]; [done|]. simpl.
    destruct (Hr r) as (env & db & fd & db' & Hup); [by left|].
    destruct (update_postgres_casos env db fd r db' Hup)
      as (codigo & _ & [(Hs & _)|(Hs & _)]);
      unfold otro_estado; rewrite Hs; simpl; apply IH; intros x Hx; apply Hr; by right. }
  by rewrite Hf.
Qed.

Lemma log_results_suma_testigo :
  est_errores
    (log_results
       [ {| salida_datos := archivo_ausente; update_status := "skipped";
            update_reason := Some "Registro no existe en BD" |} ]) = 0%Z.
Proof.
  apply log_results_suma. intros r Hr. apply list_elem_of_singleton in Hr as ->.
  exists entorno_ejemplo, tabla_ejemplo, archivo_ausente, tabla_ejemplo.
  by vm_compute.
Defined.

Lemma buscar_bloques_cubre_testigo :
  ∃ l, buscar_bloques motor_inicial "el contratista" "el contratista" = Ok l
       ∧ cubre l 0 14.
Proof.
  destruct (buscar_bloques_cubre motor_inicial "el contratista" "el contratista")
    as (l & Hl & _ & Hc).
  exists l. split; [exact Hl|].
  assert (H1 : ("\bcomparecen\b", 500, 1500) ∈ patrones_clave) by (by left).
  assert (H2 : (0, 1) ∈ motor_inicial "\bcomparecen\b" "el contratista") by (by left).
  exact (Hc ("\bcomparecen\b", 500, 1500) (0, 1) H1 H2).
Defined.

Lemma fusionar_cercanos_separa_testigo :
  cubre (foldl (fusionar_cercanos "el contratista") []
           (ordenar [(5, 9, "ontr"); (0, 4, "el c")])) 5 9.
Proof.
  apply (proj1 (fusionar_cercanos_separa "el contratista"
                  [(5, 9, "ontr"); (0, 4, "el c")]) (5, 9, "ontr")).
  by left.
Defined.

(** ** Validation of the merged result *)

Lemma dict_get_fusionar_campo_ajeno nuevo l k : ∀ res,
  k ∉ l → dict_get (foldl (fusionar_campo nuevo) res l) k = dict_get res k.
Proof.
  induction l as [|c l IH]; intros res Hk; [done|].
  apply not_elem_of_cons in Hk as [Hne Hk]. simpl. rewrite IH by done.
  unfold fusionar_campo.
  destruct (vacio (dict_get res c) && con_valor (dict_get nuevo c)).
  - rewrite dict_get_insert. destruct (decide (c = k)); [by subst|done].
  - by destruct (con_valor (dict_get res c)).
Qed.

Lemma fusionar_chunks_ajeno k : ∀ parciales acc,
  k ∉ CONTRATISTA_FIELDS →
  dict_get (foldl fusionar_resultados acc parciales) k = dict_get acc k.
Proof.
  induction parciales as [|p ps IH]; intros acc Hk; [done|]. simpl.
  rewrite IH by done. by apply dict_get_fusionar_campo_ajeno.
Qed.

Lemma o_bien_None b : o_bien None b = b.
Proof. reflexivity. Qed.

Lemma o_bien_r a : o_bien a None = if verdadero a then a else None.
Proof. reflexivity. Qed.

Lemma llm_mail_falso a : verdadero a = false → llm_mail a = None.
Proof. by destruct a as [[|c r]|]. Qed.

Lemma llm_domicilio_falso a : verdadero a = false → llm_domicilio a = None.
Proof. by destruct a as [[|c r]|]. Qed.

Lemma llm_representante_falso f a : verdadero a = false → llm_representante f a = None.
Proof. by destruct a as [[|c r]|]. Qed.

Lemma dict_get_llm_validar f datos :
  dict_get (llm_validar f datos) "razon_social" = llm_razon_social (dict_get datos "razon_social")
  ∧ dict_get (llm_validar f datos) "representante"
    = llm_representante f (o_bien (dict_get datos "representante")
                                  (dict_get datos "representante_legal"))
  ∧ dict_get (llm_validar f datos) "ruc" = llm_ruc (dict_get datos "ruc")
  ∧ dict_get (llm_validar f datos) "telefono" = llm_telefono (dict_get datos "telefono")
  ∧ dict_get (llm_validar f datos) "mail"
    = llm_mail (o_bien (dict_get datos "correo")
                       (o_bien (dict_get datos "mail") (dict_get datos "email")))
  ∧ dict_get (llm_validar f datos) "domicilio"
    = llm_domicilio (o_bien (dict_get datos "domicilio") (dict_get datos "direccion")).
Proof.
  unfold llm_validar. cbv zeta. split_and!;
    repeat (rewrite dict_get_insert; case_decide; [done|]); done.
Qed.

(** X16. The merged result of the chunks has the six contractor fields
    and nothing else, whatever keys the chunk results carry; so the other
    keys [llm] falls back to ("representante_legal", "correo", "email",
    "direccion") are always absent there, and each validated field is
    computed from the merged field of the same name alone. *)
Theorem llm_claves_alternativas (limpiar_nombre : string → option string)
    (parciales : list (gmap string (option string))) :
  let datos := fusionar_chunks parciales in
  (∀ k, k ∉ CONTRATISTA_FIELDS → dict_get datos k = None)
  ∧ dict_get (llm_validar limpiar_nombre datos) "representante"
    = llm_representante limpiar_nombre (dict_get datos "representante")
  ∧ dict_get (llm_validar limpiar_nombre datos) "mail" = llm_mail (dict_get datos "mail")
  ∧ dict_get (llm_validar limpiar_nombre datos) "domicilio"
    = llm_domicilio (dict_get datos "domicilio").
Proof.
  cbv zeta.
  assert (H : ∀ k, k ∉ CONTRATISTA_FIELDS → dict_get (fusionar_chunks parciales) k = None).
  { intros k Hk. unfold fusionar_chunks. rewrite fusionar_chunks_ajeno by done.
    apply dict_get_resultado_inicial. }
  destruct (dict_get_llm_validar limpiar_nombre (fusionar_chunks parciales))
    as (_ & Hrep & _ & _ & Hmail & Hdom).
  assert (Hno : ∀ k, k ∈ ["representante_legal"; "correo"; "email"; "direccion"] →
                 dict_get (fusionar_chunks parciales) k = None).
  { intros k Hk. apply H. intros Hf. revert Hk.
    unfold CONTRATISTA_FIELDS in Hf.
    repeat (apply elem_of_cons in Hf as [->|Hf]; [compute_done|]).
    by apply elem_of_nil in Hf. }
  split_and!; [done| | |].
  - rewrite Hrep, (Hno "representante_legal") by compute_done. rewrite o_bien_r.
    destruct (verdadero _) eqn:E; [done|]. symmetry. by apply llm_representante_falso.
  - rewrite Hmail, (Hno "correo"), (Hno "email") by compute_done.
    rewrite o_bien_None, o_bien_r.
    destruct (verdadero _) eqn:E; [done|]. symmetry. by apply llm_mail_falso.
  - rewrite Hdom, (Hno "direccion") by compute_done. rewrite o_bien_r.
    destruct (verdadero _) eqn:E; [done|]. symmetry. by apply llm_domicilio_falso.
Qed.

Lemma llm_claves_alternativas_testigo :
  dict_get (fusionar_chunks [ {[ "correo" := Some "ventas@acme.com" ]} ]) "correo" = None.
Proof.
  apply (proj1 (llm_claves_alternativas (λ s, Some s)
                  [ {[ "correo" := Some "ventas@acme.com" ]} ])).
  unfold CONTRATISTA_FIELDS. intros Hf.
  repeat (apply elem_of_cons in Hf as [Hf|Hf]; [discriminate|]).
  by apply elem_of_nil in Hf.
Defined.

(** *** From the validation to the table *)

Lemma en_blanco_recortado v : strip v = v → v ≠ EmptyString → en_blanco v = false.
Proof. intros Hs Hne. unfold en_blanco. rewrite Hs. by destruct v. Qed.

Lemma llm_ruc_no_blanco r v : llm_ruc r = Some v → en_blanco v = false.
Proof.
  intros H. apply llm_ruc_forma in H as (Hd & Hl & _).
  apply en_blanco_recortado.
  - by apply strip_no_espacios, digitos_no_espacio.
  - intros ->. simpl in Hl. lia.
Qed.

Lemma llm_telefono_no_blanco t v : llm_telefono t = Some v → en_blanco v = false.
Proof.
  unfold llm_telefono. destruct t as [t|]; [|done].
  destruct (verdadero (Some t) && no_es_nulo t); [|done].
  destruct (normalize_phone (Some t)) as [p|] eqn:E; [|done].
  destruct (verdadero (Some p)); [|done]. destruct (_ || _); [done|].
  intros [= <-]. apply normalize_phone_valido in E.
  destruct (valido_digitos p E) as (Hd & Hne & _).
  apply en_blanco_recortado; [|done].
  by apply strip_no_espacios, digitos_no_espacio.
Qed.

Lemma llm_mail_no_blanco c v : llm_mail c = Some v → en_blanco v = false.
Proof.
  intros (x & -> & Hm & Hf & _)%llm_mail_Some.
  apply en_blanco_recortado.
  - rewrite Hm. apply strip_lower_strip.
  - intros ->. discriminate.
Qed.

Lemma llm_domicilio_no_blanco d v : llm_domicilio d = Some v → en_blanco v = false.
Proof.
  unfold llm_domicilio. destruct d as [x|]; [|done].
  destruct (verdadero (Some x) && no_es_nulo x); [|done]. cbv zeta.
  destruct (busca_ci _ _); [done|].
  destruct (es_direccion_institucional _); [done|].
  destruct (_ && _) eqn:El; [|done]. intros [= <-].
  apply andb_true_iff in El as [H0%Nat.ltb_lt _].
  apply en_blanco_recortado; [apply strip_sub_blancos|].
  intros Hv. rewrite Hv in H0. simpl in H0. lia.
Qed.

(** X17. What [llm] validated for ruc, telefono, mail and domicilio is
    what the table holds afterwards: when [update_postgres] reports
    "success" on the validated dictionary, every row carrying the process
    code has, in each of these four columns that the table has, exactly
    the validated value (such a value is never blank, and the persistence
    step cleans the company name and the representative only). *)
Theorem llm_persistido (env : entorno) (db db' : tabla) (file_data : datos_archivo)
    (out : salida_update) (codigo : string)
    (limpiar_nombre : string → option string) (datos : gmap string (option string)) :
  fd_contratista_data file_data = Some (llm_validar limpiar_nombre datos) →
  update_postgres env db file_data = (Ok out, db') →
  update_status out = "success" →
  fd_codigo_proceso file_data = Some codigo →
  ∀ i f campo v,
    filas db !! i = Some f →
    f !! "codigo_proceso" = Some codigo →
    campo ∈ CAMPOS_DIRECTOS → campo ∈ columnas db →
    dict_get (llm_validar limpiar_nombre datos) campo = Some v →
    celda db' i campo = Some v.
Proof.
  intros Hdatos Hup Hst Hcod i f campo v Hf Hcf Hcampo Hcol Hv.
  assert (Hde : datos_de file_data = llm_validar limpiar_nombre datos).
  { unfold datos_de. by rewrite Hdatos. }
  destruct (update_postgres_casos env db file_data out db' Hup)
    as (codigo' & Hcod' & [(Hs & _)|(_ & Hex & n & Hej)]).
  { rewrite Hs in Hst. discriminate. }
  rewrite Hcod in Hcod'. injection Hcod' as <-.
  destruct (ejecutar_update_escribe env db _ _ codigo db' n Hej) as (asigs & He & Hrows).
  destruct (Hrows i f Hf) as [_ Hw].
  assert (Hco : coincide_fila codigo f = true) by (by apply bool_decide_eq_true).
  destruct (construir_set_emparejado env (columnas db) (datos_de file_data)
              (fd_file_name file_data)) as (asigs' & He' & Ha).
  rewrite He in He'. injection He' as <-.
  assert (Hcampos : campo ∈ CONTRATISTA_FIELDS ∧ campo ≠ "razon_social"
                    ∧ campo ≠ "representante").
  { unfold CAMPOS_DIRECTOS in Hcampo.
    repeat (apply elem_of_cons in Hcampo as [->|Hcampo];
            [split_and!; [compute_done|done|done]|]).
    by apply elem_of_nil in Hcampo. }
  destruct Hcampos as (Hin6 & Hn1 & Hn2).
  assert (Hlimpio : dict_get (datos_limpios env (datos_de file_data)) campo = Some v).
  { unfold datos_limpios.
    rewrite dict_get_limpiar_representante, dict_get_limpiar_razon by done.
    by rewrite Hde. }
  assert (Hb : en_blanco v = false).
  { destruct (dict_get_llm_validar limpiar_nombre datos)
      as (_ & _ & Hruc & Htel & Hmail & Hdom).
    unfold CAMPOS_DIRECTOS in Hcampo.
    repeat (apply elem_of_cons in Hcampo as [->|Hcampo]).
    - rewrite Hruc in Hv. by eapply llm_ruc_no_blanco.
    - rewrite Htel in Hv. by eapply llm_telefono_no_blanco.
    - rewrite Hmail in Hv. by eapply llm_mail_no_blanco.
    - rewrite Hdom in Hv. by eapply llm_domicilio_no_blanco.
    - by apply elem_of_nil in Hcampo. }
  assert (Hin : campo ∈ asigs.*1).
  { rewrite (emparejar_columnas _ _ _ He). apply construir_set_incluye; [done|].
    unfold incluido, sin_valor. rewrite Hlimpio, Hb.
    by rewrite bool_decide_eq_true_2. }
  apply elem_of_fst_emparejado in Hin as [e Hin].
  destruct (Ha campo e Hin Hin6) as (v' & -> & Hv').
  rewrite Hlimpio in Hv'. injection Hv' as <-.
  by rewrite (Hw Hco campo (VParam v) Hin).
Qed.

Lemma llm_persistido_testigo :
  celda (update_postgres entorno_ejemplo tabla_dos_filas archivo_validado).2 0 "ruc"
  = Some "1790012345001".
Proof.
  destruct (update_postgres entorno_ejemplo tabla_dos_filas archivo_validado)
    as [[out|e] db'] eqn:E.
  - apply (llm_persistido entorno_ejemplo tabla_dos_filas db' archivo_validado
             out "PROC-001" (λ s, Some s) datos_crudos_ejemplo eq_refl E
             ltac:(vm_compute in E; injection E as <- _; reflexivity) eq_refl
             0 {[ "codigo_proceso" := "PROC-001"; "razon_social" := "ACME S.A." ]}
             "ruc" "1790012345001").
    + reflexivity.
    + by vm_compute.
    + compute_done.
    + compute_done.
    + by vm_compute.
  - vm_compute in E. discriminate.
Defined.

(** ** Selection of the pending files *)

Lemma dict_poner_elementos {A} k (v : A) d x :
  x ∈ dict_poner k v d → x = (k, v) ∨ x ∈ d.
Proof.
  induction d as [|[k' v'] d IH]; simpl.
  - intros ->%list_elem_of_singleton. by left.
  - destruct (decide (k = k')) as [->|Hne].
    + intros [->|Hx]%elem_of_cons; [by left|right; by right].
    + intros [->|Hx]%elem_of_cons; [right; by left|].
      destruct (IH Hx); [by left|right; by right].
Qed.

Lemma dict_poner_claves {A} k (v : A) d c :
  c ∈ (dict_poner k v d).*1 → c = k ∨ c ∈ d.*1.
Proof.
  intros ([c' v'] & -> & Hin)%list_elem_of_fmap.
  apply dict_poner_elementos in Hin as [[= -> ->]|Hin]; [by left|].
  right. apply list_elem_of_fmap. by exists (c', v').
Qed.

Lemma dict_poner_NoDup {A} k (v : A) d :
  NoDup (d.*1) → NoDup ((dict_poner k v d).*1).
Proof.
  induction d as [|[k' v'] d IH]; simpl.
  - intros _. apply NoDup_singleton.
  - intros [Hk' Hd]%NoDup_cons. destruct (decide (k = k')) as [->|Hne]; simpl.
    + by apply NoDup_cons.
    + apply NoDup_cons. split; [|by apply IH].
      intros [->|Hin]%dict_poner_claves; done.
Qed.

Lemma registrar_archivo_bueno aj paths mapa p :
  mapa_bueno aj paths mapa → p ∈ paths →
  mapa_bueno aj paths (registrar_archivo aj mapa p).
Proof.
  intros [Hnd Hel] Hp. unfold registrar_archivo. cbv zeta.
  remember (fi_codigo_proceso (info_de aj p)) as c eqn:Ec.
  destruct (verdadero (Some c)) eqn:Ev; [|done].
  split; [by apply dict_poner_NoDup|].
  intros k v [[= -> ->]|Hin]%dict_poner_elementos; [|by apply Hel].
  split_and!; [done| |by exists p].
  intros E. rewrite E in Ev. discriminate.
Qed.

Lemma codigos_proceso_map_aux aj paths l : ∀ mapa,
  mapa_bueno aj paths mapa → (∀ p, p ∈ l → p ∈ paths) →
  mapa_bueno aj paths (foldl (registrar_archivo aj) mapa l).
Proof.
  induction l as [|p l IH]; intros mapa Hm Hl; [done|]. simpl.
  apply IH.
  - apply registrar_archivo_bueno; [done|]. apply Hl. by left.
  - intros q Hq. apply Hl. by right.
Qed.

Lemma codigos_proceso_map_bueno aj paths :
  mapa_bueno aj paths (codigos_proceso_map aj paths).
Proof.
  apply codigos_proceso_map_aux; [|done]. split; [constructor|].
  by intros k v ?%elem_of_nil.
Qed.

Lemma filtrar_sublista {A} (P : A → bool) l : sublist (List.filter P l) l.
Proof.
  induction l as [|x l IH]; simpl; [constructor|].
  destruct (P x); by constructor.
Qed.

Lemma rebanar_hasta_sublista {A} n (l : list A) : sublist (rebanar_hasta n l) l.
Proof. unfold rebanar_hasta. destruct (0 <=? n)%Z; apply sublist_take. Qed.

Lemma filter_processed_sublista aj conexion paths :
  ∃ sel, sublist sel (codigos_proceso_map aj paths)
         ∧ filter_processed aj conexion paths = sel.*2
         ∧ ∀ db, conexion = Ok db →
             Forall (λ c, c ∈ columnas db) ("codigo_proceso" :: CONTRATISTA_FIELDS) →
             ∃ rows, consultar db (codigos_proceso_map aj paths).*1 = Ok rows
               ∧ Forall (λ item, es_pendiente (datos_por_codigo rows) item = true) sel.
Proof.
  unfold filter_processed.
  destruct paths as [|p0 ps] eqn:Ep.
  { exists []. split_and!; [constructor|done|].
    intros db _ Hcols. unfold consultar. rewrite bool_decide_eq_true_2 by done.
    eexists. split; [done|constructor]. }
  rewrite <- Ep. clear Ep p0 ps.
  set (mapa := codigos_proceso_map aj paths).
  destruct mapa as [|m0 ms] eqn:Em.
  { exists []. split_and!; [constructor|done|].
    intros db _ Hcols. unfold consultar. rewrite bool_decide_eq_true_2 by done.
    eexists. split; [done|constructor]. }
  rewrite <- Em. clear Em m0 ms. cbv zeta.
  assert (Hcorte : ∀ sel0 : list (string * info_archivo),
    ∃ sel, sublist sel sel0
      ∧ (if (BATCH_SIZE aj <? Z.of_nat (length (sel0.*2)))%Z
         then rebanar_hasta (BATCH_SIZE aj) (sel0.*2) else sel0.*2) = sel.*2).
  { intros sel0. destruct (_ <? _)%Z; [|by exists sel0].
    unfold rebanar_hasta. destruct (0 <=? BATCH_SIZE aj)%Z.
    - exists (take (Z.to_nat (BATCH_SIZE aj)) sel0). split; [apply sublist_take|].
      by rewrite fmap_take.
    - rewrite length_fmap.
      exists (take (length sel0 - Z.to_nat (- BATCH_SIZE aj)) sel0).
      split; [apply sublist_take|]. by rewrite fmap_take. }
  destruct conexion as [db|e]; cbn [res_bind].
  - destruct (consultar db mapa.*1) as [rows|e] eqn:Ec.
    + destruct (Hcorte (List.filter (es_pendiente (datos_por_codigo rows)) mapa))
        as (sel & Hsub & ->).
      exists sel. split_and!; [|done|].
      * etrans; [exact Hsub|apply filtrar_sublista].
      * intros db' [= <-] _. exists rows. split; [done|].
        apply Forall_forall. intros item Hitem.
        pose proof (elem_of_sublist _ _ _ Hitem Hsub) as Hf.
        apply list_elem_of_In, filter_In in Hf. tauto.
    + destruct (Hcorte mapa) as (sel & Hsub & ->).
      exists sel. split_and!; [done|done|].
      intros db' [= <-] Hcols. unfold consultar in Ec.
      by rewrite bool_decide_eq_true_2 in Ec.
  - destruct (Hcorte mapa) as (sel & Hsub & ->).
    exists sel. split_and!; [done|done|]. by intros db' [=].
Qed.

Lemma datos_por_codigo_origen (rows : list (string * gmap string (option string))) :
  ∀ (m : gmap string (gmap string (option string))) k d,
  foldl (λ m row, <[row.1 := row.2]> m) m rows !! k = Some d →
  m !! k = Some d ∨ (k, d) ∈ rows.
Proof.
  induction rows as [|[k' d'] rows IH]; intros m k d; simpl; [by left|].
  intros [H|H]%IH; [|right; by right].
  destruct (decide (k' = k)) as [->|Hne].
  - rewrite lookup_insert_eq in H. injection H as ->. right. by left.
  - rewrite lookup_insert_ne in H by done. by left.
Qed.

Lemma dict_get_fila_dict f c :
  c ∈ CONTRATISTA_FIELDS → dict_get (fila_dict f) c = f !! c.
Proof.
  intros Hc. unfold dict_get, fila_dict, CONTRATISTA_FIELDS in *.
  repeat (apply elem_of_cons in Hc as [->|Hc]; [reflexivity|]).
  by apply elem_of_nil in Hc.
Qed.

Lemma consultar_filas db codigos rows k d :
  consultar db codigos = Ok rows → (k, d) ∈ rows →
  "codigo_proceso" ∈ columnas db
  ∧ ∃ f, f ∈ filas db ∧ f !! "codigo_proceso" = Some k ∧ d = fila_dict f.
Proof.
  unfold consultar. destruct (bool_decide _) eqn:Eb; [|done].
  apply bool_decide_eq_true in Eb. intros [= <-] Hin. split.
  { by apply Forall_inv in Eb. }
  apply list_elem_of_omap in Hin as (f & Hf & Hm). exists f. split; [done|].
  destruct (f !! "codigo_proceso") as [c|]; [|done].
  destruct (bool_decide (c ∈ codigos)); [|done]. by injection Hm as -> ->.
Qed.

(** X18. The files [filter_processed] returns carry pairwise different,
    non-empty process codes and are among the files given, each with its
    name and its code; with a [BATCH_SIZE] that is not negative there are
    at most [BATCH_SIZE] of them.  When the query runs (the connection is
    there and the table has the seven columns read), each file returned
    has its code in a row of the table whose company name and tax id are
    both empty, so [update_postgres] will find the record. *)
Theorem filter_processed_correcto (aj : ajustes) (conexion : res tabla)
    (file_paths : list string) :
  let pendientes := filter_processed aj conexion file_paths in
  NoDup (fi_codigo_proceso <$> pendientes)
  ∧ (∀ x, x ∈ pendientes →
       fi_codigo_proceso x ≠ EmptyString
       ∧ ∃ p, p ∈ file_paths ∧ x = info_de aj p)
  ∧ ((0 ≤ BATCH_SIZE aj)%Z → (Z.of_nat (length pendientes) ≤ BATCH_SIZE aj)%Z)
  ∧ (∀ db, conexion = Ok db →
       Forall (λ c, c ∈ columnas db) ("codigo_proceso" :: CONTRATISTA_FIELDS) →
       ∀ x, x ∈ pendientes →
         seleccionar_existe db (fi_codigo_proceso x) = Ok true
         ∧ ∃ f, f ∈ filas db
                ∧ f !! "codigo_proceso" = Some (fi_codigo_proceso x)
                ∧ sin_valor (f !! "razon_social") = true
                ∧ sin_valor (f !! "ruc") = true).
Proof.
  cbv zeta.
  destruct (filter_processed_sublista aj conexion file_paths) as (sel & Hsub & Hr & Hq).
  destruct (codigos_proceso_map_bueno aj file_paths) as [Hnd Hel].
  assert (Hsel : ∀ k v, (k, v) ∈ sel →
            k = fi_codigo_proceso v ∧ k ≠ EmptyString
            ∧ ∃ p, p ∈ file_paths ∧ v = info_de aj p).
  { intros k v Hin. apply Hel. by eapply elem_of_sublist. }
  assert (Hcod : fi_codigo_proceso <$> sel.*2 = sel.*1).
  { clear -Hsel. induction sel as [|[k v] sel IH]; [done|]. simpl. f_equal.
    - symmetry. apply (Hsel k v). by left.
    - apply IH. intros k' v' Hin. apply Hsel. by right. }
  split_and!.
  - rewrite Hr, Hcod. eapply sublist_NoDup; [exact Hnd|]. by apply fmap_sublist.
  - rewrite Hr. intros x ([k v] & -> & Hin)%list_elem_of_fmap. simpl.
    destruct (Hsel k v Hin) as (-> & Hne & Hp). by split.
  - intros Hb. clear -Hb. unfold filter_processed.
    destruct file_paths as [|p0 ps]; [simpl; lia|].
    destruct (codigos_proceso_map aj (p0 :: ps)) as [|m0 ms]; [simpl; lia|].
    cbv zeta. set (pend := match _ with Ok _ => _ | Err _ => _ end). clearbody pend.
    destruct (BATCH_SIZE aj <? Z.of_nat (length pend))%Z eqn:E.
    + unfold rebanar_hasta. rewrite (proj2 (Z.leb_le _ _) Hb).
      rewrite length_take. lia.
    + apply Z.ltb_ge in E. lia.
  - intros db Hdb Hcols x Hx. rewrite Hr in Hx.
    apply list_elem_of_fmap in Hx as ([k v] & -> & Hin). simpl.
    destruct (Hq db Hdb Hcols) as (rows & Hrows & Hpend).
    pose proof (proj1 (Forall_forall _ _) Hpend _ Hin) as Hp.
    destruct (Hsel k v Hin) as (<- & _ & _).
    unfold es_pendiente in Hp. cbn [fst] in Hp.
    destruct (datos_por_codigo rows !! k) as [d|] eqn:Ed; [|done].
    apply datos_por_codigo_origen in Ed as [Ed|Ed]; [done|].
    destruct (consultar_filas _ _ _ _ _ Hrows Ed) as (Hcol & f & Hf & Hk & ->).
    cbn [forallb] in Hp. rewrite !dict_get_fila_dict in Hp by compute_done.
    apply andb_true_iff in Hp as [H1 [H2 _]%andb_true_iff].
    split.
    + unfold seleccionar_existe. rewrite bool_decide_eq_true_2 by done. f_equal.
      apply existsb_exists. exists f. split; [by apply list_elem_of_In|].
      by apply bool_decide_eq_true.
    + exists f. by split_and!.
Qed.

Lemma filter_processed_correcto_testigo :
  (Z.of_nat (length (filter_processed ajustes_ejemplo (Ok tabla_pendientes) rutas_ejemplo))
   ≤ BATCH_SIZE ajustes_ejemplo)%Z.
Proof.
  apply (filter_processed_correcto ajustes_ejemplo (Ok tabla_pendientes) rutas_ejemplo).
  by vm_compute.
Defined.

(** ** Persistence: the statement is well formed *)




Section Sentencia.

Variable env : entorno.


End Sentencia.




(** ** Phones found in a text *)

(** X20. Whatever the matching engine reports, [collect_phones_from_text]
    returns each phone once, every phone returned is a cell phone ("09" and
    eight digits) or a land line ("0", a digit from 2 to 7, seven digits)
    that [normalize_phone] leaves as it is and that comes from a candidate
    of the text, and no candidate with a valid normalization is lost. *)
Theorem collect_phones_from_text_correcto (findall_ci findall : motor_grupos)
    (texto : string) :
  let phones := collect_phones_from_text findall_ci findall texto in
  NoDup phones
  ∧ (∀ p, p ∈ phones →
       (forma_celular p ∨ forma_fijo p)
       ∧ normalize_phone (Some p) = Some p
       ∧ ∃ item, item ∈ candidatos_telefono findall_ci findall texto
                 ∧ normalize_phone (Some item) = Some p)
  ∧ (texto ≠ EmptyString →
     ∀ item p, item ∈ candidatos_telefono findall_ci findall texto →
       normalize_phone (Some item) = Some p → p ∈ phones).
Proof.
  cbv zeta. unfold collect_phones_from_text.
  destruct texto as [|c0 r0]; cbn [verdadero negb].
  { split_and!; [constructor|by intros p ?%elem_of_nil|done]. }
  set (cands := candidatos_telefono findall_ci findall (String c0 r0)). clearbody cands.
  split_and!.
  - apply dedup_NoDup.
  - intros p [Hne Hin]%dedup_elementos.
    apply list_elem_of_fmap in Hin as (item & Hp & Hitem).
    apply list_elem_of_In, filter_In in Hitem as [Hitem _].
    symmetry in Hp. pose proof (normalize_phone_valido _ _ Hp) as Hval.
    split_and!.
    + apply orb_true_iff in Hval as [H|H]; [left; by apply es_celular_forma|
                                             right; by apply es_fijo_forma].
    + by apply normalize_phone_punto_fijo.
    + exists item. split; [by apply list_elem_of_In|done].
  - intros _ item p Hitem Hp. apply dedup_elementos.
    pose proof (normalize_phone_valido _ _ Hp) as Hval.
    destruct (valido_digitos p Hval) as (_ & Hne & _). split; [done|].
    apply list_elem_of_fmap. exists item. split; [done|].
    apply list_elem_of_In, filter_In. split; [by apply list_elem_of_In|].
    rewrite Hp. by destruct p.
Qed.

Lemma collect_phones_from_text_correcto_testigo :
  "0991234567"
  ∈ collect_phones_from_text motor_grupos_ejemplo motor_grupos_ejemplo
      "Tel: 099 123 4567".
Proof.
  apply (proj2 (proj2 (collect_phones_from_text_correcto motor_grupos_ejemplo
                         motor_grupos_ejemplo "Tel: 099 123 4567"))
           ltac:(discriminate) "Tel: 099 123 4567" "0991234567").
  - by left.
  - by vm_compute.
Defined.
